(** * Record manager (record_mgr.c): a shallow embedding and its properties

    The record manager stores fixed-size tuples in a page file.  Page 0 holds
    the serialized schema, page 1 the page directory, and data pages carry a
    slot directory at their start and the record payloads at their end.  The
    definitions below follow record_mgr.c function by function; the buffer
    manager and the storage manager, which the file only calls, are modelled
    from their interfaces. *)

From Stdlib Require Import ZArith Lia Ascii String Sorted.
From stdpp Require Import base tactics option list.

Open Scope Z_scope.

(** ** Constants of the headers

    Modelled from the spec: dberror.h, dt.h, tables.h and record_mgr.h are
    not part of the sources.  [PAGE_SIZE] is the page size shared with the
    storage manager, taken as 4096 bytes; the two entry sizes are those of
    the structs [(int offset; bool isFree)] and
    [(int pageID; bool hasFreeSlot; int freeSpace; int recordCount)] with
    4-byte [int], 1-byte [bool] and natural alignment, which gives 255
    directory entries per page. *)

Definition PAGE_SIZE : Z := 4096.
Definition sizeof_int : Z := 4.
Definition sizeof_float : Z := 4.
Definition sizeof_bool : Z := 1.
Definition sizeof_SlotDirectoryEntry : Z := 8.
Definition sizeof_PageDirectoryEntry : Z := 16.

Definition BUFFER_PAGE_LIMIT : Z := 5.
Definition INVALID_PAGE_NUM : Z := -1.
Definition INVALID_SLOT_NUM : Z := -1.
Definition DELETED_RECORD_MARKER : Z := 253.

(** Return codes used by the record manager. *)
Inductive RC : Set :=
| RC_OK
| RC_INVALID_INPUT
| RC_INVALID_NAME
| RC_MEMORY_ALLOCATION_FAIL
| RC_PAGE_FULL
| RC_RM_INVALID_RID
| RC_RM_RECORD_NOT_FOUND
| RC_RM_NO_MORE_TUPLES
| RC_RM_INVALID_ATTRIBUTE
| RC_RM_ATTRIBUTE_TYPE_MISMATCH
| RC_RM_DATA_TYPE_ERROR.

Global Instance RC_eq_dec : EqDecision RC.
Proof. solve_decision. Defined.

(** ** Bytes and memory blocks

    A byte is a [Z] in [0, 256); a memory block ([char *] buffer, page frame)
    is a list of bytes.  An access outside the block is undefined behaviour
    in C and yields [None] here. *)

Definition bytes := list Z.

Definition zeros (n : Z) : bytes := replicate (Z.to_nat n) 0.

Definition len (b : bytes) : Z := Z.of_nat (length b).

Definition len_list {A : Type} (l : list A) : Z := Z.of_nat (length l).

(** [memcpy(dst, mem + off, n)] *)
Definition load (mem : bytes) (off n : Z) : option bytes :=
  if (0 <=? off) && (0 <=? n) && (off + n <=? len mem)
  then Some (take (Z.to_nat n) (drop (Z.to_nat off) mem))
  else None.

(** [memcpy(mem + off, src, length src)] *)
Definition store (mem : bytes) (off : Z) (src : bytes) : option bytes :=
  if (0 <=? off) && (off + len src <=? len mem)
  then Some (take (Z.to_nat off) mem ++ src
             ++ drop (Z.to_nat off + length src) mem)
  else None.

(** Little-endian two's complement image of a 32-bit [int]. *)
Definition encode_int (z : Z) : bytes :=
  [z mod 256; (z / 256) mod 256; (z / 65536) mod 256; (z / 16777216) mod 256].

Definition decode_uint (b : bytes) : Z :=
  match b with
  | [b0; b1; b2; b3] => b0 + 256 * b1 + 65536 * b2 + 16777216 * b3
  | _ => 0
  end.

Definition decode_int (b : bytes) : Z :=
  let u := decode_uint b in
  if u <? 2147483648 then u else u - 4294967296.

(** A [float] travels as its 32-bit pattern, an unsigned number. *)
Definition encode_float (f : Z) : bytes := encode_int f.
Definition decode_float (b : bytes) : Z := decode_uint b.

Definition encode_bool (b : bool) : bytes := [if b then 1 else 0].

Definition decode_bool (b : bytes) : bool :=
  match b with
  | [x] => negb (x =? 0)
  | _ => false
  end.

Definition load_int (mem : bytes) (off : Z) : option Z :=
  decode_int <$> load mem off sizeof_int.

Definition load_bool (mem : bytes) (off : Z) : option bool :=
  decode_bool <$> load mem off sizeof_bool.

(** [strncpy(dst, src, n)]: the characters of [src] up to its terminator,
    at most [n] of them, then NUL bytes up to [n].  [src] is the buffer the
    source pointer designates; running off its end before a NUL or [n]
    characters have been seen is undefined. *)
Fixpoint cstr (n : nat) (src : bytes) : bytes :=
  match n, src with
  | S n', c :: rest => if c =? 0 then [] else c :: cstr n' rest
  | _, _ => []
  end.

Definition strncpy (src : bytes) (n : Z) : option bytes :=
  if n <? 0 then None
  else
    let c := cstr (Z.to_nat n) src in
    if (len c <? n) && (len c =? len src) then None
    else Some (c ++ zeros (n - len c)).

(** ** Schemas, values and records (tables.h, dt.h) *)

Inductive DataType : Set := DT_INT | DT_STRING | DT_FLOAT | DT_BOOL.

Global Instance DataType_eq_dec : EqDecision DataType.
Proof. solve_decision. Defined.

Record Schema : Type := mkSchema {
  numAttr : Z;
  attrNames : list string;
  dataTypes : list DataType;
  typeLength : list Z;
  keySize : Z;
  keyAttrs : list Z
}.

(** The tagged union [Value].  A float is carried as its 32-bit pattern,
    which is all that [memcpy] sees; a string is the buffer [stringV] points
    to. *)
Inductive Value : Type :=
| IntV (intV : Z)
| FloatV (floatV : Z)
| BoolV (boolV : bool)
| StringV (stringV : bytes).

Definition dt (v : Value) : DataType :=
  match v with
  | IntV _ => DT_INT
  | FloatV _ => DT_FLOAT
  | BoolV _ => DT_BOOL
  | StringV _ => DT_STRING
  end.

Record RID : Set := mkRID { page : Z; slot : Z }.

Global Instance RID_eq_dec : EqDecision RID.
Proof. solve_decision. Defined.

(** [Record]: [data = None] is the NULL data pointer. *)
Record RM_Record : Type := mkRecord { id : RID; data : option bytes }.

(** Array element [a[i]]; the arrays of a schema have [numAttr] elements. *)
Definition dataTypes_at (s : Schema) (i : nat) : DataType :=
  nth i (dataTypes s) DT_INT.

Definition typeLength_at (s : Schema) (i : nat) : Z :=
  nth i (typeLength s) 0.

(** The body of the [switch] shared by [computeRecordSize] and
    [calculateAttributeOffset]. *)
Definition attrSize (s : Schema) (i : nat) : Z :=
  match dataTypes_at s i with
  | DT_INT => sizeof_int
  | DT_FLOAT => sizeof_float
  | DT_BOOL => sizeof_bool
  | DT_STRING => typeLength_at s i
  end.

Definition sumSizes (s : Schema) (n : nat) : Z :=
  fold_left (fun size i => size + attrSize s i) (seq 0 n) 0.

Definition computeRecordSize (s : Schema) : Z :=
  sumSizes s (Z.to_nat (numAttr s)).

Definition getRecordSize (s : Schema) : Z := computeRecordSize s.

Definition calculateAttributeOffset (s : Schema) (attrIdx : Z) : Z :=
  sumSizes s (Z.to_nat attrIdx).

(** [createRecord]: an invalid RID and a zeroed buffer of the record size. *)
Definition createRecord (s : Schema) : RC * RM_Record :=
  (RC_OK, {| id := {| page := INVALID_PAGE_NUM; slot := INVALID_SLOT_NUM |};
             data := Some (zeros (computeRecordSize s)) |}).

(** ** Attribute setter and getter *)

Definition setAttr (record : RM_Record) (schema : Schema) (attrNum : Z)
    (value : Value) : option (RC * RM_Record) :=
  if (attrNum <? 0) || (attrNum >=? numAttr schema)
  then Some (RC_RM_INVALID_ATTRIBUTE, record)
  else if negb (bool_decide (dt value = dataTypes_at schema (Z.to_nat attrNum)))
  then Some (RC_RM_ATTRIBUTE_TYPE_MISMATCH, record)
  else
    let offset := calculateAttributeOffset schema attrNum in
    buf ← data record;
    src ← match value with
          | IntV i => Some (encode_int i)
          | FloatV f => Some (encode_float f)
          | BoolV b => Some (encode_bool b)
          | StringV s => strncpy s (typeLength_at schema (Z.to_nat attrNum))
          end;
    buf' ← store buf offset src;
    Some (RC_OK, {| id := id record; data := Some buf' |}).

Definition getAttr (record : RM_Record) (schema : Schema) (attrNum : Z)
    : option (RC * option Value) :=
  if (attrNum <? 0) || (attrNum >=? numAttr schema)
  then Some (RC_RM_INVALID_ATTRIBUTE, None)
  else
    let offset := calculateAttributeOffset schema attrNum in
    buf ← data record;
    match dataTypes_at schema (Z.to_nat attrNum) with
    | DT_INT =>
        b ← load buf offset sizeof_int;
        Some (RC_OK, Some (IntV (decode_int b)))
    | DT_FLOAT =>
        b ← load buf offset sizeof_float;
        Some (RC_OK, Some (FloatV (decode_float b)))
    | DT_BOOL =>
        b ← load buf offset sizeof_bool;
        Some (RC_OK, Some (BoolV (decode_bool b)))
    | DT_STRING =>
        let n := typeLength_at schema (Z.to_nat attrNum) in
        s ← strncpy (drop (Z.to_nat offset) buf) n;
        Some (RC_OK, Some (StringV (s ++ [0])))
    end.


(** ** Well-formed inputs of the attribute accessors

    A schema built by [createSchema] has [numAttr] entries in each array; a
    string attribute has a non-negative width.  An [int] fits 32 bits, a
    float pattern 32 bits, and a string value is NUL-terminated. *)

Definition wf_schema (s : Schema) : Prop :=
  0 <= numAttr s
  /\ len_list (dataTypes s) = numAttr s
  /\ len_list (typeLength s) = numAttr s
  /\ Forall (fun l => 0 <= l) (typeLength s).

Definition wf_value (v : Value) : Prop :=
  match v with
  | IntV i => -2147483648 <= i < 2147483648
  | FloatV f => 0 <= f < 4294967296
  | BoolV _ => True
  | StringV s => In 0 s
  end.

(** The characters of a C string: everything before the first NUL. *)
Definition string_chars (s : bytes) : bytes := cstr (length s) s.

(** [c] truncated or zero-padded to exactly [n] characters. *)
Definition fit (n : Z) (c : bytes) : bytes :=
  take (Z.to_nat n) c ++ zeros (n - len (take (Z.to_nat n) c)).

(** What [getAttr] is to hand back after [setAttr] stored [v] in attribute
    [k]: [v] itself, and for a string the fitted characters followed by the
    terminator. *)
Definition stored_value (schema : Schema) (k : Z) (v : Value) : Value :=
  match v with
  | StringV s =>
      StringV (fit (typeLength_at schema (Z.to_nat k)) (string_chars s) ++ [0])
  | _ => v
  end.

(** ** C arithmetic conversions

    [int] arithmetic is carried out in [Z]; the table sizes in play stay far
    below 2^31.  Where an [int] meets a [sizeof] the usual arithmetic
    conversions turn the operation into one on [size_t] (64 bits, unsigned),
    and the wrap-around is written out. *)

Definition to_size_t (z : Z) : Z := z mod 18446744073709551616.

Definition to_int (z : Z) : Z := (z + 2147483648) mod 4294967296 - 2147483648.

(** ** Page file and buffer pool

    Modelled from the spec: storage_mgr.c and buffer_mgr.c are not part of
    the sources.  A page file is the ordered sequence of its blocks.  Reading
    a block past the end yields a zeroed block and writing one past the end
    extends the file with zeroed blocks, the behaviour under which
    [createTable] (which writes block 1 of a file it has just created) and
    the first [insertRecord] (which pins page 2 of a two-page file) succeed.
    The buffer pool keeps at most [BUFFER_PAGE_LIMIT] frames, most recently
    used first, writes a dirty frame back when it evicts it or shuts down,
    and never sees what [writeBlock] puts on disk behind its back.  One page
    is pinned at a time, so fix counts are left out and [unpinPage] has no
    effect on the model. *)

Definition PageFile := list bytes.

Definition zeroPage : bytes := zeros PAGE_SIZE.

Definition createPageFile : PageFile := [zeroPage].

Definition readBlock (pos : Z) (f : PageFile) : bytes :=
  nth (Z.to_nat pos) f zeroPage.

Definition ensureBlocks (n : nat) (f : PageFile) : PageFile :=
  f ++ replicate (n - length f) zeroPage.

Definition writeBlock (pos : Z) (f : PageFile) (buf : bytes) : PageFile :=
  <[Z.to_nat pos := take (Z.to_nat PAGE_SIZE) buf]>
    (ensureBlocks (S (Z.to_nat pos)) f).

Definition appendEmptyBlock (f : PageFile) : PageFile := f ++ [zeroPage].

Record Frame : Type := mkFrame {
  pageNum : Z;
  frameData : bytes;
  dirty : bool
}.

Definition BM_BufferPool := list Frame.

Definition initBufferPool : BM_BufferPool := [].

Definition isFrameOf (n : Z) (fr : Frame) : bool := pageNum fr =? n.

Definition findFrame (bm : BM_BufferPool) (n : Z) : option Frame :=
  head (filter (fun fr => isFrameOf n fr = true) bm).

Definition dropFrame (bm : BM_BufferPool) (n : Z) : BM_BufferPool :=
  filter (fun fr => isFrameOf n fr = false) bm.

Definition writeBack (fr : Frame) (f : PageFile) : PageFile :=
  if dirty fr then writeBlock (pageNum fr) f (frameData fr) else f.

(** [pinPage]: a cached page moves to the front; a page that is not cached
    is read from disk, evicting the least recently used frame when the pool
    is full. *)
Definition pinPage (bm : BM_BufferPool) (f : PageFile) (n : Z)
    : BM_BufferPool * PageFile :=
  match findFrame bm n with
  | Some fr => (fr :: dropFrame bm n, f)
  | None =>
      let fr :=
        {| pageNum := n; frameData := readBlock n f; dirty := false |} in
      if len_list bm <? BUFFER_PAGE_LIMIT then (fr :: bm, f)
      else
        match last bm with
        | Some victim => (fr :: removelast bm, writeBack victim f)
        | None => (fr :: bm, f)
        end
  end.

(** The frame of the pinned page: [pageHndlBM.data]. *)
Definition pinnedData (bm : BM_BufferPool) : bytes :=
  match bm with
  | fr :: _ => frameData fr
  | [] => zeroPage
  end.

(** Writes through [pageHndlBM.data] land in the pinned frame. *)
Definition setPinnedData (bm : BM_BufferPool) (pg : bytes) : BM_BufferPool :=
  match bm with
  | fr :: rest =>
      {| pageNum := pageNum fr; frameData := pg; dirty := dirty fr |} :: rest
  | [] => []
  end.

Definition markDirty (bm : BM_BufferPool) : BM_BufferPool :=
  match bm with
  | fr :: rest =>
      {| pageNum := pageNum fr; frameData := frameData fr; dirty := true |}
      :: rest
  | [] => []
  end.

Definition unpinPage (bm : BM_BufferPool) : BM_BufferPool := bm.

Definition shutdownBufferPool (bm : BM_BufferPool) (f : PageFile) : PageFile :=
  fold_right writeBack f bm.

(** What a reader of page [n] finds: the cached frame, else the block. *)
Definition peekPage (bm : BM_BufferPool) (f : PageFile) (n : Z) : bytes :=
  match findFrame bm n with
  | Some fr => frameData fr
  | None => readBlock n f
  end.

(** ** Table handle and page directory (record_mgr.h) *)

(** A C pointer to a heap object: NULL, pointing at a live object, or
    dangling after [free].  Dereferencing or freeing a NULL or dangling
    pointer is undefined. *)
Inductive pointer (A : Type) : Type :=
| NULL
| Ptr (a : A)
| Dangling.
Arguments NULL {A}.
Arguments Ptr {A} a.
Arguments Dangling {A}.

Definition deref {A : Type} (p : pointer A) : option A :=
  match p with
  | Ptr a => Some a
  | _ => None
  end.

Definition isNull {A : Type} (p : pointer A) : bool :=
  match p with
  | NULL => true
  | _ => false
  end.

Record PageDirectoryEntry : Set := mkEntry {
  pageID : Z;
  hasFreeSlot : bool;
  freeSpace : Z;
  recordCount : Z
}.

Record SlotDirectoryEntry : Set := mkSlot { offset : Z; isFree : bool }.

Record RM_managementData : Type := mkMgmt {
  numPages : Z;
  numPageDP : Z;
  pageDirectory : list PageDirectoryEntry;
  bm : BM_BufferPool
}.

Record RM_TableData : Type := mkTable {
  name : string;
  schema : pointer Schema;
  managementData : pointer RM_managementData
}.

(** The table handle together with the page file it is opened on. *)
Record DB : Type := mkDB { file : PageFile; rel : RM_TableData }.

Definition maxEntriesPerPage : Z :=
  (PAGE_SIZE - 2 * sizeof_int) ÷ sizeof_PageDirectoryEntry.

(** [numPages - numPageDP + 1], the bound of every loop over data pages. *)
Definition numDataPages (m : RM_managementData) : Z :=
  numPages m - numPageDP m + 1.

(** [pageDirectory[i]] *)
Definition dir_get (d : list PageDirectoryEntry) (i : Z)
    : option PageDirectoryEntry :=
  if i <? 0 then None else d !! Z.to_nat i.

(** [pageDirectory[i] = e] *)
Definition dir_set (d : list PageDirectoryEntry) (i : Z)
    (e : PageDirectoryEntry) : option (list PageDirectoryEntry) :=
  if (0 <=? i) && (i <? len_list d) then Some (<[Z.to_nat i := e]> d)
  else None.

Definition initPageDirectoryEntry (pageId : Z) : PageDirectoryEntry :=
  {| pageID := pageId; hasFreeSlot := true; freeSpace := PAGE_SIZE;
     recordCount := 0 |}.

(** The three bytes the compiler leaves between [hasFreeSlot] and
    [freeSpace].  No statement of the record manager writes them, and
    [decode_entry] does not read them. *)
Definition Padding : Type := (Z * Z * Z)%type.

Definition padding_bytes (padding : Padding) : bytes :=
  let '(p0, p1, p2) := padding in [p0; p1; p2].

Definition zeroPadding : Padding := (0, 0, 0).

(** Byte image of a directory entry with the given padding. *)
Definition encode_entry_padded (padding : Padding) (e : PageDirectoryEntry)
    : bytes :=
  encode_int (pageID e) ++ encode_bool (hasFreeSlot e)
  ++ padding_bytes padding
  ++ encode_int (freeSpace e) ++ encode_int (recordCount e).

(** Byte image of an entry of the directory array in memory.  The padding
    of these entries is whatever [malloc], [realloc] or the page they were
    loaded from left there; the array is written with zero padding here. *)
Definition encode_entry (e : PageDirectoryEntry) : bytes :=
  encode_entry_padded zeroPadding e.

Definition decode_entry (b : bytes) : PageDirectoryEntry :=
  {| pageID := decode_int (take 4 b);
     hasFreeSlot := decode_bool (take 1 (drop 4 b));
     freeSpace := decode_int (take 4 (drop 8 b));
     recordCount := decode_int (take 4 (drop 12 b)) |}.

(** Slot directory entry [i] of a data page:
    [(SlotDirectoryEntry * )(pageData + i * sizeof(SlotDirectoryEntry))]. *)
Definition slotEntry_at (pageData : bytes) (i : Z)
    : option SlotDirectoryEntry :=
  o ← load_int pageData (i * sizeof_SlotDirectoryEntry);
  fr ← load_bool pageData (i * sizeof_SlotDirectoryEntry + sizeof_int);
  Some {| offset := o; isFree := fr |}.

Definition set_slot_offset (pageData : bytes) (i : Z) (o : Z) : option bytes :=
  store pageData (i * sizeof_SlotDirectoryEntry) (encode_int o).

Definition set_slot_isFree (pageData : bytes) (i : Z) (fr : bool)
    : option bytes :=
  store pageData (i * sizeof_SlotDirectoryEntry + sizeof_int) (encode_bool fr).

(** ** Schema page *)

Definition bytes_of_string (s : string) : bytes :=
  map (fun a => Z.of_N (N_of_ascii a)) (list_ascii_of_string s).

Definition string_of_bytes (b : bytes) : string :=
  string_of_list_ascii (map (fun z => ascii_of_N (Z.to_N z)) b).

Definition encode_DataType (d : DataType) : bytes :=
  encode_int match d with
             | DT_INT => 0 | DT_STRING => 1 | DT_FLOAT => 2 | DT_BOOL => 3
             end.

Definition decode_DataType (b : bytes) : option DataType :=
  match decode_int b with
  | 0 => Some DT_INT
  | 1 => Some DT_STRING
  | 2 => Some DT_FLOAT
  | 3 => Some DT_BOOL
  | _ => None
  end.

(** [memcpy(page + position, src, n); position += n], guarded as in
    [createTable] by [position + n > PAGE_SIZE]. *)
Definition put (st : bytes * Z) (src : bytes) : RC + bytes * Z :=
  let '(pg, position) := st in
  if position + len src >? PAGE_SIZE then inl RC_PAGE_FULL
  else match store pg position src with
       | Some pg' => inr (pg', position + len src)
       | None => inl RC_PAGE_FULL
       end.

Fixpoint put_all (st : bytes * Z) (srcs : list bytes) : RC + bytes * Z :=
  match srcs with
  | [] => inr st
  | src :: rest =>
      match put st src with
      | inr st' => put_all st' rest
      | inl rc => inl rc
      end
  end.

(** The schema page written by [createTable]: attribute count, the names
    with their terminators one by one, the type array, the length array, and
    the key size with the key attributes. *)
Definition serializeSchema (s : Schema) : RC + bytes :=
  let n := Z.to_nat (numAttr s) in
  match put (zeroPage, 0) (encode_int (numAttr s)) with
  | inl rc => inl rc
  | inr st1 =>
    match put_all st1 (map (fun nm => bytes_of_string nm ++ [0])
                         (take n (attrNames s))) with
    | inl rc => inl rc
    | inr st2 =>
      match put st2 (concat (map encode_DataType (take n (dataTypes s)))) with
      | inl rc => inl rc
      | inr st3 =>
        match put st3 (concat (map encode_int (take n (typeLength s)))) with
        | inl rc => inl rc
        | inr st4 =>
          let keys := take (Z.to_nat (keySize s)) (keyAttrs s) in
          match put st4 (encode_int (keySize s) ++ concat (map encode_int keys))
          with
          | inl rc => inl rc
          | inr (pg, _) => inr pg
          end
        end
      end
    end
  end.

(** [createTable]: the schema page goes to block 0 and the initial directory
    page, describing one empty data page, to block 1.  The entry is copied
    out of the stack variable [firstPage], of which
    [initPageDirectoryEntry] has set the four fields: its padding reaches
    the page as the stack happened to hold it, and [padding] stands for
    these bytes. *)
Definition initialDirectoryPage (padding : Padding) : bytes :=
  match store zeroPage 0
          (encode_int 1 ++ encode_int 1
           ++ encode_entry_padded padding (initPageDirectoryEntry 0)) with
  | Some pg => pg
  | None => zeroPage
  end.

Definition createTable (tableName : string) (s : Schema) (padding : Padding)
    : RC * PageFile :=
  match serializeSchema s with
  | inl rc => (rc, createPageFile)
  | inr schemaPage =>
      let f := writeBlock 0 createPageFile schemaPage in
      let f := writeBlock 1 f (initialDirectoryPage padding) in
      (RC_OK, f)
  end.

(** Parsing of the schema page in [openTable]. *)
Fixpoint parse_names (n : nat) (pg : bytes) (position : Z)
    : option (list string * Z) :=
  match n with
  | O => Some ([], position)
  | S n' =>
      if position <? 0 then None
      else
        let src := drop (Z.to_nat position) pg in
        let c := cstr (length src) src in
        if len c =? len src then None
        else
          '(names, position') ← parse_names n' pg (position + len c + 1);
          Some (string_of_bytes c :: names, position')
  end.

Fixpoint parse_array {A : Type} (dec : bytes -> option A) (n : nat)
    (pg : bytes) (position : Z) : option (list A) :=
  match n with
  | O => Some []
  | S n' =>
      b ← load pg position sizeof_int;
      x ← dec b;
      xs ← parse_array dec n' pg (position + sizeof_int);
      Some (x :: xs)
  end.

Definition parseSchema (pg : bytes) : option Schema :=
  nA ← load_int pg 0;
  '(names, position) ← parse_names (Z.to_nat nA) pg sizeof_int;
  dts ← parse_array decode_DataType (Z.to_nat nA) pg position;
  let position := position + nA * sizeof_int in
  tls ← parse_array (fun b => Some (decode_int b)) (Z.to_nat nA) pg position;
  let position := position + nA * sizeof_int in
  kS ← load_int pg position;
  kAs ← parse_array (fun b => Some (decode_int b)) (Z.to_nat kS) pg
         (position + sizeof_int);
  Some {| numAttr := nA; attrNames := names; dataTypes := dts;
          typeLength := tls; keySize := kS; keyAttrs := kAs |}.

(** ** Page directory on disk *)

Fixpoint decode_entries (n : nat) (b : bytes) : list PageDirectoryEntry :=
  match n with
  | O => []
  | S n' =>
      decode_entry (take 16 b) :: decode_entries n' (drop 16 b)
  end.

(** [loadPageDirectoryFromDisk]: page 1 is pinned and copied; the header
    gives [numPages] and [numPageDP], and [numPages - numPageDP + 1] entries
    are copied out of the rest of the page.  Entries that would lie past the
    end of the page copy are an out-of-bounds read. *)
Definition loadPageDirectoryFromDisk (bm0 : BM_BufferPool) (f : PageFile)
    : option (RC * RM_managementData * PageFile) :=
  let '(bm1, f1) := pinPage bm0 f 1 in
  let directoryData := pinnedData bm1 in
  let bm2 := unpinPage bm1 in
  nP ← load_int directoryData 0;
  nDP ← load_int directoryData sizeof_int;
  let numEntries := nP - nDP + 1 in
  body ← load directoryData (2 * sizeof_int)
           (numEntries * sizeof_PageDirectoryEntry);
  Some (RC_OK,
        {| numPages := nP; numPageDP := nDP;
           pageDirectory := decode_entries (Z.to_nat numEntries) body;
           bm := bm2 |},
        f1).

(** [savePageDirectoryToDisk]: header and all [numPages - numPageDP + 1]
    entries are copied into one zeroed buffer of [PAGE_SIZE] bytes, which is
    written to block
    [(numPages / maxEntriesPerPage) * maxEntriesPerPage + numPageDP].  The
    copy of the entries has no bound of its own: with more than
    [maxEntriesPerPage] entries it runs over the end of the buffer, and with
    fewer entries in the array than it copies it reads past the array. *)
Definition savePageDirectoryToDisk (m : RM_managementData) (f : PageFile)
    : option (RC * PageFile) :=
  let numEntries := numDataPages m in
  if (numEntries <? 0) || (len_list (pageDirectory m) <? numEntries)
  then None
  else
    let image :=
      encode_int (numPages m) ++ encode_int (numPageDP m)
      ++ concat (map encode_entry
                   (take (Z.to_nat numEntries) (pageDirectory m))) in
    directoryPage ← store zeroPage 0 image;
    let blockToWrite :=
      (numPages m ÷ maxEntriesPerPage) * maxEntriesPerPage + numPageDP m in
    Some (RC_OK, writeBlock blockToWrite f directoryPage).

(** ** Table lifecycle *)

(** [openTable]: fresh schema and management objects, a buffer pool of
    [BUFFER_PAGE_LIMIT] frames, the schema parsed from page 0 and the
    directory loaded from page 1. *)
Definition openTable (f : PageFile) (tableName : string) : option (RC * DB) :=
  let '(bm1, f1) := pinPage initBufferPool f 0 in
  let schemaData := pinnedData bm1 in
  let bm2 := unpinPage bm1 in
  sch ← parseSchema schemaData;
  '(rc, m, f2) ← loadPageDirectoryFromDisk bm2 f1;
  Some (RC_OK,
        {| file := f2;
           rel := {| name := tableName; schema := Ptr sch;
                     managementData := Ptr m |} |}).

(** [closeTable]: the handle is reported closed only when one of its two
    pointers is NULL.  Otherwise the schema, the directory, the buffer pool
    and the management data are released; the two fields of the handle keep
    their values and now dangle. *)
Definition closeTable (db : DB) : option (RC * DB) :=
  if isNull (managementData (rel db)) || isNull (schema (rel db))
  then Some (RC_OK, db)
  else
    m ← deref (managementData (rel db));
    _ ← deref (schema (rel db));
    let f := shutdownBufferPool (bm m) (file db) in
    Some (RC_OK,
          {| file := f;
             rel := {| name := name (rel db); schema := Dangling;
                       managementData := Dangling |} |}).

Fixpoint sumRecordCount (n : nat) (d : list PageDirectoryEntry) (i : Z)
    (totalRecords : Z) : option Z :=
  match n with
  | O => Some totalRecords
  | S n' =>
      e ← dir_get d i;
      sumRecordCount n' d (i + 1) (totalRecords + recordCount e)
  end.

(** [getNumTuples]: the sum of [recordCount] over the directory. *)
Definition getNumTuples (db : DB) : option Z :=
  if isNull (managementData (rel db)) then Some 0
  else
    m ← deref (managementData (rel db));
    sumRecordCount (Z.to_nat (numDataPages m)) (pageDirectory m) 0 0.

(** ** Record operations *)

Definition with_counts (m : RM_managementData) (nP nDP : Z)
    : RM_managementData :=
  {| numPages := nP; numPageDP := nDP; pageDirectory := pageDirectory m;
     bm := bm m |}.

Definition with_directory (m : RM_managementData)
    (d : list PageDirectoryEntry) : RM_managementData :=
  {| numPages := numPages m; numPageDP := numPageDP m; pageDirectory := d;
     bm := bm m |}.

Definition with_bm (m : RM_managementData) (b : BM_BufferPool)
    : RM_managementData :=
  {| numPages := numPages m; numPageDP := numPageDP m;
     pageDirectory := pageDirectory m; bm := b |}.

Definition with_mgmt (db : DB) (m : RM_managementData) (f : PageFile) : DB :=
  {| file := f;
     rel := {| name := name (rel db); schema := schema (rel db);
               managementData := Ptr m |} |}.

Definition slot_isFree (pageData : bytes) (i : Z) : option bool :=
  load_bool pageData (i * sizeof_SlotDirectoryEntry + sizeof_int).

Definition slot_offset (pageData : bytes) (i : Z) : option Z :=
  load_int pageData (i * sizeof_SlotDirectoryEntry).

Fixpoint findFreePageIndex_from (n : nat) (d : list PageDirectoryEntry)
    (i : Z) : option Z :=
  match n with
  | O => Some (-1)
  | S n' =>
      e ← dir_get d i;
      if hasFreeSlot e then Some i else findFreePageIndex_from n' d (i + 1)
  end.

(** [findFreePageIndex]: first directory entry with [hasFreeSlot], or -1. *)
Definition findFreePageIndex (m : RM_managementData) : option Z :=
  findFreePageIndex_from (Z.to_nat (numDataPages m)) (pageDirectory m) 0.

Fixpoint locateFreeSlot_from (n : nat) (pageData : bytes) (i : Z)
    : option Z :=
  match n with
  | O => Some (-1)
  | S n' =>
      fr ← slot_isFree pageData i;
      if (fr : bool) then Some i else locateFreeSlot_from n' pageData (i + 1)
  end.

(** [locateFreeSlot]: first of the [recordCount] slots that is free, or -1. *)
Definition locateFreeSlot (pageData : bytes) (recordCount : Z) : option Z :=
  locateFreeSlot_from (Z.to_nat recordCount) pageData 0.

(** [updatePageStatistics]: the free space of the entry moves by
    [spaceChange] and the free-slot hint is recomputed; [recordAdded] is not
    looked at, and the record count is not touched. *)
Definition updatePageStatistics (m : RM_managementData) (sch : Schema)
    (pageIdx : Z) (spaceChange : Z) (recordAdded : bool)
    : option RM_managementData :=
  e ← dir_get (pageDirectory m) pageIdx;
  let fs := freeSpace e + spaceChange in
  let recordSize := computeRecordSize sch in
  let hasSpace :=
    to_size_t fs
    >=? to_size_t (to_size_t recordSize + sizeof_SlotDirectoryEntry) in
  d ← dir_set (pageDirectory m) pageIdx
        {| pageID := pageID e; hasFreeSlot := hasSpace; freeSpace := fs;
           recordCount := recordCount e |};
  Some (with_directory m d).

(** Physical page pinned for data page [p] by [getRecord], [deleteRecord]
    and [updateRecord]: [p + numPageDP + 1]. *)
Definition recordPageNum (m : RM_managementData) (p : Z) : Z :=
  p + numPageDP m + 1.

Definition isValidRecordID (id : RID) (totalPages : Z) : bool :=
  (page id >=? 0) && (page id <? totalPages) && (slot id >=? 0).

(** Contents of a directory slot that [realloc] has added and nothing has
    written yet. *)
Definition uninitializedEntry : PageDirectoryEntry :=
  {| pageID := 0; hasFreeSlot := false; freeSpace := 0; recordCount := 0 |}.

(** The directory-page step of [insertRecord]: when [numPages] exceeds
    [maxEntriesPerPage * numPageDP] both counters go up by one and a zeroed
    block is appended and written at [numPages]. *)
Definition growDirectoryChain (m : RM_managementData) (f : PageFile)
    : RM_managementData * PageFile :=
  let needNewDirectory := numPages m >? maxEntriesPerPage * numPageDP m in
  if needNewDirectory then
    let m' := with_counts m (numPages m + 1) (numPageDP m + 1) in
    (m', writeBlock (numPages m') (appendEmptyBlock f) zeroPage)
  else (m, f).

(** The data-page step of [insertRecord]: the first page with a free slot,
    or a new page at index [numPages - numPageDP + 1], whose directory entry
    is initialised and whose zeroed block is appended and written at the new
    [numPages]. *)
Definition choosePage (m : RM_managementData) (f : PageFile)
    : option (Z * RM_managementData * PageFile) :=
  pageIndex ← findFreePageIndex m;
  if pageIndex =? -1 then
    let pageIndex := numPages m - numPageDP m + 1 in
    let m1 := with_counts m (numPages m + 1) (numPageDP m) in
    let newCount := numPages m1 - numPageDP m1 + 1 in
    let newDirectory :=
      resize (Z.to_nat newCount) uninitializedEntry (pageDirectory m1) in
    d ← dir_set newDirectory pageIndex
          (initPageDirectoryEntry (numPages m1 - numPageDP m1));
    Some (pageIndex, with_directory m1 d,
          writeBlock (numPages m1) (appendEmptyBlock f) zeroPage)
  else Some (pageIndex, m, f).

Definition insertRecord (db : DB) (record : RM_Record)
    : option (RC * DB * RM_Record) :=
  if isNull (managementData (rel db)) then Some (RC_INVALID_INPUT, db, record)
  else
    m ← deref (managementData (rel db));
    sch ← deref (schema (rel db));
    let recordSize := computeRecordSize sch in
    let '(m1, f1) := growDirectoryChain m (file db) in
    '(pageIndex, m2, f2) ← choosePage m1 f1;
    e ← dir_get (pageDirectory m2) pageIndex;
    let pageToPin := pageID e + numPageDP m2 + 1 in
    let '(bm1, f3) := pinPage (bm m2) f2 pageToPin in
    let pageData := pinnedData bm1 in
    found ← locateFreeSlot pageData (recordCount e);
    let slotIndex := if found =? -1 then recordCount e else found in
    let e1 :=
      if found =? -1
      then {| pageID := pageID e; hasFreeSlot := hasFreeSlot e;
              freeSpace := freeSpace e; recordCount := recordCount e + 1 |}
      else e in
    d1 ← dir_set (pageDirectory m2) pageIndex e1;
    let recordOffset := PAGE_SIZE - recordCount e1 * recordSize in
    pd1 ← set_slot_offset pageData slotIndex recordOffset;
    pd2 ← set_slot_isFree pd1 slotIndex false;
    buf ← data record;
    src ← load buf 0 recordSize;
    pd3 ← store pd2 recordOffset src;
    let record' :=
      {| id := {| page := pageID e1; slot := slotIndex |};
         data := data record |} in
    let spaceUsed := recordSize + sizeof_SlotDirectoryEntry in
    m3 ← updatePageStatistics
           (with_bm (with_directory m2 d1) (setPinnedData bm1 pd3))
           sch pageIndex (- spaceUsed) true;
    let bm2 := unpinPage (markDirty (bm m3)) in
    '(_, f4) ← savePageDirectoryToDisk m3 f3;
    Some (RC_OK, with_mgmt db (with_bm m3 bm2) f4, record').

Definition deleteRecord (db : DB) (id : RID) : option (RC * DB) :=
  if isNull (managementData (rel db)) then Some (RC_INVALID_INPUT, db)
  else
    m ← deref (managementData (rel db));
    if negb (isValidRecordID id (numPages m)) then Some (RC_RM_INVALID_RID, db)
    else
      let '(bm1, f1) := pinPage (bm m) (file db) (recordPageNum m (page id)) in
      let pageData := pinnedData bm1 in
      fr ← slot_isFree pageData (slot id);
      if (fr : bool) then
        Some (RC_RM_RECORD_NOT_FOUND,
              with_mgmt db (with_bm m (unpinPage bm1)) f1)
      else
        pd1 ← set_slot_isFree pageData (slot id) true;
        o ← slot_offset pd1 (slot id);
        pd2 ← store pd1 o [DELETED_RECORD_MARKER];
        sch ← deref (schema (rel db));
        let recordSize := computeRecordSize sch in
        m1 ← updatePageStatistics (with_bm m (setPinnedData bm1 pd2))
               sch (page id) recordSize false;
        let bm2 := unpinPage (markDirty (bm m1)) in
        '(_, f2) ← savePageDirectoryToDisk m1 f1;
        Some (RC_OK, with_mgmt db (with_bm m1 bm2) f2).

(** [memcpy(record->data, src, recordSize)], after [record->data] has been
    allocated when it was NULL. *)
Definition fillRecordData (d : option bytes) (src : bytes) : option bytes :=
  match d with
  | None => Some src
  | Some buf => store buf 0 src
  end.

Definition getRecord (db : DB) (id : RID) (record : RM_Record)
    : option (RC * DB * RM_Record) :=
  if isNull (managementData (rel db)) then Some (RC_INVALID_INPUT, db, record)
  else
    m ← deref (managementData (rel db));
    if negb (isValidRecordID id (numPages m))
    then Some (RC_RM_INVALID_RID, db, record)
    else
      let '(bm1, f1) := pinPage (bm m) (file db) (recordPageNum m (page id)) in
      let pageData := pinnedData bm1 in
      fr ← slot_isFree pageData (slot id);
      if (fr : bool) then
        Some (RC_RM_RECORD_NOT_FOUND,
              with_mgmt db (with_bm m (unpinPage bm1)) f1, record)
      else
        sch ← deref (schema (rel db));
        let recordSize := computeRecordSize sch in
        o ← slot_offset pageData (slot id);
        src ← load pageData o recordSize;
        buf ← fillRecordData (data record) src;
        Some (RC_OK, with_mgmt db (with_bm m (unpinPage bm1)) f1,
              {| id := id; data := Some buf |}).

Definition updateRecord (db : DB) (record : RM_Record)
    : option (RC * DB * RM_Record) :=
  if isNull (managementData (rel db)) then Some (RC_INVALID_INPUT, db, record)
  else
    m ← deref (managementData (rel db));
    let rid := id record in
    if negb (isValidRecordID rid (numPages m))
    then Some (RC_RM_INVALID_RID, db, record)
    else
      let '(bm1, f1) := pinPage (bm m) (file db) (recordPageNum m (page rid)) in
      let pageBuffer := pinnedData bm1 in
      fr ← slot_isFree pageBuffer (slot rid);
      if (fr : bool) then
        Some (RC_RM_RECORD_NOT_FOUND,
              with_mgmt db (with_bm m (unpinPage bm1)) f1, record)
      else
        sch ← deref (schema (rel db));
        let requiredSize := computeRecordSize sch in
        e ← dir_get (pageDirectory m) (page rid);
        o ← slot_offset pageBuffer (slot rid);
        let spaceAvailable :=
          to_int (freeSpace e + (o - slot rid * sizeof_SlotDirectoryEntry)) in
        if requiredSize >? spaceAvailable then
          let db1 := with_mgmt db (with_bm m (unpinPage bm1)) f1 in
          '(rc, db2) ← deleteRecord db1 rid;
          if negb (bool_decide (rc = RC_OK)) then Some (rc, db2, record)
          else insertRecord db2 record
        else
          buf ← data record;
          src ← load buf 0 requiredSize;
          pd ← store pageBuffer o src;
          let bm2 := unpinPage (markDirty (setPinnedData bm1 pd)) in
          Some (RC_OK, with_mgmt db (with_bm m bm2) f1, record).

(** ** Scans

    The expression evaluator is a collaborator: [evalExpr record schema cond]
    is the [Value] it leaves in [result], [None] when it leaves [result]
    NULL.  The scan handle refers to the table it scans; the table is passed
    to [next] next to the handle. *)

Definition ceilDivision (numerator denominator : Z) : Z :=
  (numerator + denominator - 1) ÷ denominator.

(** Physical page pinned by [next] for data page [p]:
    [ceilDivision(p + 1, maxEntriesPerPage) + 1 + p]. *)
Definition scanPageNum (p : Z) : Z :=
  ceilDivision (p + 1) maxEntriesPerPage + 1 + p.

(** [result->v.boolV] *)
Definition boolV_of (v : Value) : option bool :=
  match v with
  | BoolV b => Some b
  | _ => None
  end.

Section Scan.

Variable Expr : Type.
Variable evalExpr : RM_Record -> Schema -> option Expr -> option Value.

Record ScanInfo : Type := mkScanInfo {
  condition : option Expr;
  currentPage : Z;
  currentSlot : Z
}.

Record RM_ScanHandle : Type := mkScan { mgmtData : pointer ScanInfo }.

Definition startScan (db : DB) (cond : option Expr) : RC * RM_ScanHandle :=
  (RC_OK,
   {| mgmtData := Ptr {| condition := cond; currentPage := 0;
                         currentSlot := 0 |} |}).

(** The slot loop of [next] on the pinned page: [n] slots remain.  The
    result tells whether a slot matched, the slot to resume at, and the
    caller's record, which receives every non-free slot that is looked
    at. *)
Fixpoint nextSlot (n : nat) (pageData : bytes) (sch : Schema)
    (cond : option Expr) (curPage curSlot : Z) (record : RM_Record)
    : option (bool * Z * RM_Record) :=
  match n with
  | O => Some (false, curSlot, record)
  | S n' =>
      fr ← slot_isFree pageData curSlot;
      if (fr : bool) then
        nextSlot n' pageData sch cond curPage (curSlot + 1) record
      else
        o ← slot_offset pageData curSlot;
        src ← load pageData o (computeRecordSize sch);
        buf ← fillRecordData (data record) src;
        let record1 :=
          {| id := {| page := curPage; slot := curSlot |};
             data := Some buf |} in
        result ← evalExpr record1 sch cond;
        b ← boolV_of result;
        let conditionMet := b || bool_decide (cond = None :> option Expr) in
        if conditionMet then Some (true, curSlot + 1, record1)
        else nextSlot n' pageData sch cond curPage (curSlot + 1) record1
  end.

(** The page loop of [next]: [n] data pages remain. *)
Fixpoint nextPage (n : nat) (d : list PageDirectoryEntry) (sch : Schema)
    (cond : option Expr) (b : BM_BufferPool) (f : PageFile)
    (curPage curSlot : Z) (record : RM_Record)
    : option (RC * BM_BufferPool * PageFile * Z * Z * RM_Record) :=
  match n with
  | O => Some (RC_RM_NO_MORE_TUPLES, b, f, curPage, curSlot, record)
  | S n' =>
      let pageNum := scanPageNum curPage in
      let '(b1, f1) := pinPage b f pageNum in
      let pageData := pinnedData b1 in
      e ← dir_get d curPage;
      '(found, slot', record') ←
        nextSlot (Z.to_nat (recordCount e - curSlot)) pageData sch cond
          curPage curSlot record;
      if (found : bool) then
        Some (RC_OK, unpinPage b1, f1, curPage, slot', record')
      else
        nextPage n' d sch cond (unpinPage b1) f1 (curPage + 1) 0 record'
  end.

Definition next (db : DB) (scan : RM_ScanHandle) (record : RM_Record)
    : option (RC * DB * RM_ScanHandle * RM_Record) :=
  if isNull (mgmtData scan) then Some (RC_INVALID_INPUT, db, scan, record)
  else
    scanInfo ← deref (mgmtData scan);
    m ← deref (managementData (rel db));
    sch ← deref (schema (rel db));
    '(rc, b, f, curPage, curSlot, record') ←
      nextPage (Z.to_nat (numDataPages m - currentPage scanInfo))
        (pageDirectory m) sch (condition scanInfo) (bm m) (file db)
        (currentPage scanInfo) (currentSlot scanInfo) record;
    Some (rc, with_mgmt db (with_bm m b) f,
          {| mgmtData := Ptr {| condition := condition scanInfo;
                                currentPage := curPage;
                                currentSlot := curSlot |} |},
          record').

(** [closeScan]: a handle whose scan state is NULL is reported closed;
    otherwise the state is freed and the pointer reset to NULL. *)
Definition closeScan (scan : RM_ScanHandle) : option (RC * RM_ScanHandle) :=
  if isNull (mgmtData scan) then Some (RC_OK, scan)
  else
    _ ← deref (mgmtData scan);
    Some (RC_OK, {| mgmtData := NULL |}).

(** Driving a scan to its end: the RIDs returned with [RC_OK], in order,
    and the code that ended the scan. *)
Fixpoint scanAll (fuel : nat) (db : DB) (scan : RM_ScanHandle)
    (record : RM_Record) : option (list RID * RC) :=
  match fuel with
  | O => None
  | S fuel' =>
      '(rc, db', scan', record') ← next db scan record;
      if bool_decide (rc = RC_OK) then
        '(rids, final) ← scanAll fuel' db' scan' record';
        Some (id record' :: rids, final)
      else Some ([], rc)
  end.

End Scan.

Arguments mgmtData {Expr} _.
Arguments condition {Expr} _.
Arguments currentPage {Expr} _.
Arguments currentSlot {Expr} _.
Arguments startScan {Expr} _ _.
Arguments nextSlot {Expr} _ _ _ _ _ _ _ _.
Arguments nextPage {Expr} _ _ _ _ _ _ _ _ _ _.
Arguments next {Expr} _ _ _ _.
Arguments closeScan {Expr} _.
Arguments scanAll {Expr} _ _ _ _ _.

(** ** Live records

    The live slots of a table, counted where [getRecord] reads them: the
    non-free slots among the [recordCount] slots of every data page [p],
    page [p] being physical page [p + numPageDP + 1]. *)

Fixpoint liveOnPage (n : nat) (pageData : bytes) (i : Z) : option Z :=
  match n with
  | O => Some 0
  | S n' =>
      fr ← slot_isFree pageData i;
      k ← liveOnPage n' pageData (i + 1);
      Some (if (fr : bool) then k else k + 1)
  end.

Fixpoint liveFrom (n : nat) (m : RM_managementData) (f : PageFile) (p : Z)
    : option Z :=
  match n with
  | O => Some 0
  | S n' =>
      e ← dir_get (pageDirectory m) p;
      here ← liveOnPage (Z.to_nat (recordCount e))
                (peekPage (bm m) f (recordPageNum m p)) 0;
      rest ← liveFrom n' m f (p + 1);
      Some (here + rest)
  end.

Definition liveRecords (db : DB) : option Z :=
  m ← deref (managementData (rel db));
  liveFrom (Z.to_nat (numDataPages m)) m (file db) 0.

(** ** Example tables and runs

    Helpers to script a session: each step requires the operation to return
    [RC_OK] and hands on the new table state. *)

Definition newRecord (payload : bytes) : RM_Record :=
  {| id := {| page := INVALID_PAGE_NUM; slot := INVALID_SLOT_NUM |};
     data := Some payload |}.

Definition emptyRecord : RM_Record :=
  {| id := {| page := INVALID_PAGE_NUM; slot := INVALID_SLOT_NUM |};
     data := None |}.

(** [createTable] followed by [openTable].  The example tables are created
    with zero padding in the initial directory entry; [openTable] does not
    look at it. *)
Definition createAndOpen (tableName : string) (s : Schema) : option DB :=
  let '(rc, f) := createTable tableName s zeroPadding in
  if bool_decide (rc = RC_OK) then
    '(rc', db) ← openTable f tableName;
    if bool_decide (rc' = RC_OK) then Some db else None
  else None.

Definition inserted (db : DB) (payload : bytes) : option (DB * RID) :=
  '(rc, db', r) ← insertRecord db (newRecord payload);
  if bool_decide (rc = RC_OK) then Some (db', id r) else None.

Definition deleted (db : DB) (rid : RID) : option DB :=
  '(rc, db') ← deleteRecord db rid;
  if bool_decide (rc = RC_OK) then Some db' else None.

(** [getRecord] into a record without a buffer: the code and the bytes. *)
Definition fetched (db : DB) (rid : RID) : option (RC * option bytes) :=
  '(rc, _, r) ← getRecord db rid emptyRecord;
  Some (rc, if bool_decide (rc = RC_OK) then data r else None).

Fixpoint insertedMany (n : nat) (db : DB) (payload : bytes) : option DB :=
  match n with
  | O => Some db
  | S n' =>
      '(db', _) ← inserted db payload;
      insertedMany n' db' payload
  end.

(** [closeTable] followed by [openTable] on the same file. *)
Definition reopened (db : DB) : option DB :=
  '(rc, db') ← closeTable db;
  if bool_decide (rc = RC_OK) then
    '(rc', db'') ← openTable (file db') (name (rel db'));
    if bool_decide (rc' = RC_OK) then Some db'' else None
  else None.

(** The schema [(id : INT, name : STRING[8])] and four of its records. *)
Definition people : Schema :=
  {| numAttr := 2; attrNames := ["id"%string; "name"%string];
     dataTypes := [DT_INT; DT_STRING]; typeLength := [0; 8];
     keySize := 1; keyAttrs := [0] |}.

Definition person (i : Z) (nm : string) : bytes :=
  encode_int i ++ fit 8 (bytes_of_string nm).

(** A schema whose records fill a data page: one record of 4088 bytes and
    its slot entry leave no free space. *)
Definition blobs : Schema :=
  {| numAttr := 1; attrNames := ["blob"%string]; dataTypes := [DT_STRING];
     typeLength := [PAGE_SIZE - sizeof_SlotDirectoryEntry];
     keySize := 1; keyAttrs := [0] |}.

Definition blob : bytes := zeros (PAGE_SIZE - sizeof_SlotDirectoryEntry).

(** An evaluator that answers TRUE whatever the expression, a NULL one
    included. *)
Definition evalTrue (r : RM_Record) (s : Schema) (e : option unit)
    : option Value :=
  Some (BoolV true).

(** Insert three people, delete the second, insert a fourth: the RIDs of the
    third and fourth record and what [getRecord] returns for the third
    record before the delete and after the last insert. *)
Definition reuseRun : option (RID * RID * (RC * option bytes)
                              * (RC * option bytes)) :=
  db0 ← createAndOpen "people" people;
  '(db1, _) ← inserted db0 (person 1 "alice");
  '(db2, rid2) ← inserted db1 (person 2 "bob");
  '(db3, rid3) ← inserted db2 (person 3 "carol");
  before ← fetched db3 rid3;
  db4 ← deleted db3 rid2;
  '(db5, rid4) ← inserted db4 (person 4 "dave");
  after ← fetched db5 rid3;
  Some (rid3, rid4, before, after).

(** Insert one person and delete it again: [getNumTuples] and the live
    records after the insert and after the delete. *)
Definition countRun : option (Z * Z * Z * Z) :=
  db0 ← createAndOpen "people" people;
  '(db1, rid1) ← inserted db0 (person 1 "alice");
  n1 ← getNumTuples db1;
  l1 ← liveRecords db1;
  db2 ← deleted db1 rid1;
  n2 ← getNumTuples db2;
  l2 ← liveRecords db2;
  Some (n1, l1, n2, l2).

(** A table of [n] page-filling records, one per data page. *)
Definition blobTable (n : nat) : option DB :=
  db0 ← createAndOpen "blobs" blobs;
  insertedMany n db0 blob.

(** 255 page-filling inserts, then close and reopen: [getNumTuples] before
    and after. *)
Definition reopenRun : option (Z * Z) :=
  db ← blobTable 255;
  before ← getNumTuples db;
  db' ← reopened db;
  after ← getNumTuples db';
  Some (before, after).

(** The table holding alice alone, asked for records it does not hold: a
    page that is not there, a negative slot, slot 5 of data page 0, which
    no insert has handed out, and a slot index whose entry would lie far
    behind the page.  The codes of [getRecord] for the first two; the code
    and the bytes of [getRecord] and the code of [deleteRecord] for slot 5;
    the codes of [getRecord] and [deleteRecord] for the last. *)
Definition slotRangeRun
    : option (RC * RC * (RC * option bytes) * RC * option RC * option RC) :=
  db0 ← createAndOpen "people" people;
  '(db1, _) ← inserted db0 (person 1 "alice");
  '(rcPage, _) ← fetched db1 {| page := 1; slot := 0 |};
  '(rcSlot, _) ← fetched db1 {| page := 0; slot := -1 |};
  unused ← fetched db1 {| page := 0; slot := 5 |};
  '(rcDelete, _) ← deleteRecord db1 {| page := 0; slot := 5 |};
  Some (rcPage, rcSlot, unused, rcDelete,
        (fun res => fst (fst res))
          <$> getRecord db1 {| page := 0; slot := 1000000 |} emptyRecord,
        fst <$> deleteRecord db1 {| page := 0; slot := 1000000 |}).

(** A schema whose records are three bytes short of a page, and a record of
    it whose first byte is 127. *)
Definition wide : Schema :=
  {| numAttr := 1; attrNames := ["wide"%string]; dataTypes := [DT_STRING];
     typeLength := [PAGE_SIZE - 3]; keySize := 1; keyAttrs := [0] |}.

Definition wideRecord : bytes := 127 :: zeros (PAGE_SIZE - 4).

(** One insert into a table of [wide]: the RID, the live records, the slot
    offset left on the page, and the codes of the first [next] of a scan
    with a NULL predicate and of [getRecord] for the RID. *)
Definition oversizeRun
    : option (RID * Z * option Z * option RC * option RC) :=
  db0 ← createAndOpen "wide" wide;
  '(db1, rid) ← inserted db0 wideRecord;
  live ← liveRecords db1;
  m ← deref (managementData (rel db1));
  Some (rid, live,
        slot_offset (peekPage (bm m) (file db1) (recordPageNum m (page rid)))
          (slot rid),
        (fun res => fst (fst (fst res)))
          <$> next evalTrue db1 (snd (startScan db1 None)) emptyRecord,
        (fun res => fst (fst res)) <$> getRecord db1 rid emptyRecord).

(** Open a table and close it twice; start a scan and close it twice. *)
Definition closeTwiceRun : option (RC * option RC) :=
  db0 ← createAndOpen "people" people;
  '(rc1, db1) ← closeTable db0;
  Some (rc1, fst <$> closeTable db1).

Definition closeScanTwiceRun : option (RC * RC) :=
  db0 ← createAndOpen "people" people;
  '(rc1, scan1) ← closeScan (snd (startScan (Expr := unit) db0 None));
  '(rc2, _) ← closeScan scan1;
  Some (rc1, rc2).

(** ** Record operations as steps

    The four record operations of the interface, run on a table; a delete
    hands back no record. *)

Inductive RecordOp : Type :=
| Insert (record : RM_Record)
| Delete (rid : RID)
| Update (record : RM_Record)
| Get (rid : RID) (record : RM_Record).

Definition runOp (db : DB) (op : RecordOp)
    : option (RC * DB * option RM_Record) :=
  match op with
  | Insert record =>
      '(rc, db', r) ← insertRecord db record; Some (rc, db', Some r)
  | Delete rid =>
      '(rc, db') ← deleteRecord db rid; Some (rc, db', None)
  | Update record =>
      '(rc, db', r) ← updateRecord db record; Some (rc, db', Some r)
  | Get rid record =>
      '(rc, db', r) ← getRecord db rid record; Some (rc, db', Some r)
  end.

(** ** Tables the interface produces

    An open table is one that [openTable] has returned for a file written
    by [createTable], one that a record operation or [next] has left
    behind, or one that [openTable] has returned after [closeTable]. *)
Inductive reachable : DB -> Prop :=
| reachable_created (tableName : string) (s : Schema) (padding : Padding)
    (f : PageFile) (db : DB) :
    createTable tableName s padding = (RC_OK, f) ->
    openTable f tableName = Some (RC_OK, db) ->
    reachable db
| reachable_op (db db' : DB) (op : RecordOp) (rc : RC)
    (r' : option RM_Record) :
    reachable db ->
    runOp db op = Some (rc, db', r') ->
    reachable db'
| reachable_next (Expr : Type)
    (evalExpr : RM_Record -> Schema -> option Expr -> option Value)
    (db db' : DB) (scan scan' : RM_ScanHandle Expr)
    (record record' : RM_Record) (rc : RC) :
    reachable db ->
    next evalExpr db scan record = Some (rc, db', scan', record') ->
    reachable db'
| reachable_reopened (db db1 db2 : DB) (tableName : string) :
    reachable db ->
    closeTable db = Some (RC_OK, db1) ->
    openTable (file db1) tableName = Some (RC_OK, db2) ->
    reachable db2.

(** After a step, data page [p] is still a data page of the open table and
    its directory entry, which was [e], keeps its page id and satisfies
    [P]. *)
Definition entry_after (db' : DB) (p : Z) (e : PageDirectoryEntry)
    (P : PageDirectoryEntry -> Prop) : Prop :=
  exists m' e',
    managementData (rel db') = Ptr m'
    /\ 0 <= p < numDataPages m'
    /\ dir_get (pageDirectory m') p = Some e'
    /\ pageID e' = pageID e
    /\ P e'.

(** The record count of an entry after an insert: unchanged, or one more
    when the insert succeeded on this page and handed out the slot just past
    the slots allocated so far. *)
Definition grown_by_insert (e : PageDirectoryEntry) (rc : RC) (rid : RID)
    (e' : PageDirectoryEntry) : Prop :=
  recordCount e' = recordCount e
  \/ (recordCount e' = recordCount e + 1
      /\ rc = RC_OK
      /\ rid = {| page := pageID e; slot := recordCount e |}).

(** What a step does to the record count of an entry that was [e]. *)
Definition count_after (op : RecordOp) (e : PageDirectoryEntry) (rc : RC)
    (r' : option RM_Record) (e' : PageDirectoryEntry) : Prop :=
  match op with
  | Delete _ | Get _ _ => recordCount e' = recordCount e
  | Insert _ => exists r, r' = Some r /\ grown_by_insert e rc (id r) e'
  | Update _ => recordCount e <= recordCount e'
  end.

(** The table holding alice alone, and a scan over it with a NULL
    predicate. *)
Definition closedTable : DB :=
  {| file := [];
     rel := {| name := ""; schema := NULL; managementData := NULL |} |}.

Definition aliceTable : DB :=
  match createAndOpen "people" people with
  | Some db0 =>
      match inserted db0 (person 1 "alice") with
      | Some (db1, _) => db1
      | None => closedTable
      end
  | None => closedTable
  end.

Definition aliceScan : RM_ScanHandle unit := snd (startScan aliceTable None).

Definition aliceMgmt : RM_managementData :=
  match managementData (rel aliceTable) with
  | Ptr m => m
  | _ => {| numPages := 0; numPageDP := 0; pageDirectory := []; bm := [] |}
  end.

Definition aliceEntry : PageDirectoryEntry :=
  {| pageID := 0; hasFreeSlot := true; freeSpace := 4076; recordCount := 1 |}.

(** [aliceTable] after alice has been deleted. *)
Definition aliceDeleted : DB :=
  match deleteRecord aliceTable {| page := 0; slot := 0 |} with
  | Some (_, db') => db'
  | None => closedTable
  end.

(** The outcome of the first [next] of [aliceScan]. *)
Definition aliceNext : RC * DB * RM_ScanHandle unit * RM_Record :=
  match next evalTrue aliceTable aliceScan emptyRecord with
  | Some res => res
  | None => (RC_INVALID_INPUT, closedTable, aliceScan, emptyRecord)
  end.

(** ** Notions used by the further properties *)

(** ** Schemas that [createTable] can write

    The attribute arrays have [numAttr] elements and the key array has
    [keySize]; the numbers are C [int]s and a name is a C string, without a
    NUL inside. *)
Definition is_int (z : Z) : Prop := -2147483648 <= z < 2147483648.

Definition c_string (s : string) : Prop :=
  Forall (fun c => c <> 0) (bytes_of_string s).

Definition storable_schema (s : Schema) : Prop :=
  0 <= numAttr s < 2147483648
  /\ len_list (attrNames s) = numAttr s
  /\ len_list (dataTypes s) = numAttr s
  /\ len_list (typeLength s) = numAttr s
  /\ 0 <= keySize s < 2147483648
  /\ len_list (keyAttrs s) = keySize s
  /\ Forall c_string (attrNames s)
  /\ Forall is_int (typeLength s)
  /\ Forall is_int (keyAttrs s).

(** The bytes [createTable] lays out for a schema: the count, the names
    with their terminators, the type and length arrays, the key size and the
    key array. *)
Definition schemaImage (s : Schema) : bytes :=
  encode_int (numAttr s)
  ++ concat (map (fun nm => bytes_of_string nm ++ [0]) (attrNames s))
  ++ concat (map encode_DataType (dataTypes s))
  ++ concat (map encode_int (typeLength s))
  ++ encode_int (keySize s) ++ concat (map encode_int (keyAttrs s)).

(** A directory entry as the C struct holds it: three [int] fields. *)
Definition entry_ints (e : PageDirectoryEntry) : Prop :=
  is_int (pageID e) /\ is_int (freeSpace e) /\ is_int (recordCount e).

(** What [getAttr] reads out of a zeroed record buffer. *)
Definition zeroValue (d : DataType) (n : Z) : Value :=
  match d with
  | DT_INT => IntV 0
  | DT_FLOAT => FloatV 0
  | DT_BOOL => BoolV false
  | DT_STRING => StringV (zeros n ++ [0])
  end.

(** A well-formed page directory: at least one directory page, one entry per
    data page, each entry carrying its own index as page id and a
    non-negative record count. *)
Definition dir_wf (m : RM_managementData) : Prop :=
  1 <= numPageDP m
  /\ len_list (pageDirectory m) = numDataPages m
  /\ forall i e, dir_get (pageDirectory m) i = Some e ->
       pageID e = i /\ 0 <= recordCount e.

(** The slot and the record count that [insertRecord] arrives at from the
    entry [e] of the chosen page and the result [found] of
    [locateFreeSlot]. *)
Definition insertSlot (e : PageDirectoryEntry) (found : Z) : Z :=
  if found =? -1 then recordCount e else found.

Definition insertCount (e : PageDirectoryEntry) (found : Z) : Z :=
  if found =? -1 then recordCount e + 1 else recordCount e.

(** The free-slot hint that [updatePageStatistics] computes for a page with
    [fs] bytes of free space: [fs >= recordSize + sizeof(SlotDirectoryEntry)]
    with the left side converted to [size_t]. *)
Definition freeSlotHint (sch : Schema) (fs : Z) : bool :=
  to_size_t fs
  >=? to_size_t (to_size_t (computeRecordSize sch) + sizeof_SlotDirectoryEntry).

(** Order of record identifiers: by page, then by slot. *)
Definition rid_lt (a b : RID) : Prop :=
  page a < page b \/ (page a = page b /\ slot a < slot b).

(** The cursor [(curPage, curSlot)] has not passed the record [rid]. *)
Definition cursor_le (curPage curSlot : Z) (rid : RID) : Prop :=
  curPage < page rid \/ (curPage = page rid /\ curSlot <= slot rid).

(** ** What every table of the interface satisfies

    The page ids of a directory are non-negative [int]s; a dirty frame of
    the pool belongs to a data page, which lies behind the schema page and
    the first directory page; block 1 of the file holds a directory header
    of one directory page and fewer than [maxEntriesPerPage] data pages,
    followed by entries with such page ids. *)
Definition ids_ok (d : list PageDirectoryEntry) : Prop :=
  Forall (fun e => 0 <= pageID e < 2147483648) d.

Definition pool_ok (b : BM_BufferPool) : Prop :=
  Forall (fun fr => dirty fr = true -> 2 <= pageNum fr) b.

Definition directoryPage_ok (pg : bytes) : Prop :=
  exists nP,
    load_int pg 0 = Some nP
    /\ 1 <= nP < maxEntriesPerPage
    /\ load_int pg sizeof_int = Some 1
    /\ forall body,
         load pg (2 * sizeof_int) (nP * sizeof_PageDirectoryEntry)
         = Some body ->
         ids_ok (decode_entries (Z.to_nat nP) body).

Definition table_ok (db : DB) : Prop :=
  exists m,
    managementData (rel db) = Ptr m
    /\ numPageDP m = 1
    /\ 1 <= numPages m <= maxEntriesPerPage
    /\ ids_ok (pageDirectory m)
    /\ pool_ok (bm m)
    /\ directoryPage_ok (readBlock 1 (file db)).

(** ** Tables and records of the instances *)

(** The management data and a directory entry of an open table. *)
Definition mgmtOf (db : DB) : RM_managementData :=
  match managementData (rel db) with
  | Ptr m => m
  | _ => {| numPages := 0; numPageDP := 0; pageDirectory := []; bm := [] |}
  end.

Definition entryOf (db : DB) (p : Z) : PageDirectoryEntry :=
  match dir_get (pageDirectory (mgmtOf db)) p with
  | Some e => e
  | None => uninitializedEntry
  end.

(** [aliceTable] after bob has been inserted. *)
Definition bob : RM_Record := newRecord (person 2 "bob").

Definition aliceBob : RC * DB * RM_Record :=
  match insertRecord aliceTable bob with
  | Some res => res
  | None => (RC_INVALID_INPUT, closedTable, emptyRecord)
  end.

(** [aliceTable] after alice's record has been overwritten. *)
Definition alicia : RM_Record :=
  {| id := {| page := 0; slot := 0 |};
     data := Some (person 1 "alicia") |}.

Definition aliceUpdated : RC * DB * RM_Record :=
  match updateRecord aliceTable alicia with
  | Some res => res
  | None => (RC_INVALID_INPUT, closedTable, emptyRecord)
  end.

(** The file of [aliceTable] after its directory has been saved. *)
Definition aliceSaved : PageFile :=
  match savePageDirectoryToDisk aliceMgmt (file aliceTable) with
  | Some (_, f) => f
  | None => []
  end.

(** The directory of [aliceTable] after the space of one more record has
    been taken off page 0. *)
Definition aliceDebited : RM_managementData :=
  match updatePageStatistics aliceMgmt people 0 (-20) true with
  | Some m => m
  | None => aliceMgmt
  end.

(** Data page 0 of [aliceDeleted], as a reader finds it. *)
Definition alicePage : bytes :=
  peekPage (bm (mgmtOf aliceDeleted)) (file aliceDeleted) 2.

(** A zeroed record of [people] whose name has been set. *)
Definition aliceName : Value := StringV (bytes_of_string "alice" ++ [0]).

Definition aliceNamed : RM_Record :=
  match setAttr (newRecord (zeros 12)) people 1 aliceName with
  | Some (_, r) => r
  | None => emptyRecord
  end.

(** A scan of [aliceTable] with a predicate, its first [next]; the RIDs of
    the scan without predicate; and the [next] after [aliceNext]. *)
Definition aliceCondScan : RM_ScanHandle unit :=
  snd (startScan aliceTable (Some tt)).

Definition aliceCondNext : RC * DB * RM_ScanHandle unit * RM_Record :=
  match next evalTrue aliceTable aliceCondScan emptyRecord with
  | Some res => res
  | None => (RC_INVALID_INPUT, closedTable, aliceCondScan, emptyRecord)
  end.

Definition aliceScanned : list RID * RC :=
  match scanAll evalTrue 10 aliceTable aliceScan emptyRecord with
  | Some res => res
  | None => ([], RC_OK)
  end.

Definition aliceEnd : RC * DB * RM_ScanHandle unit * RM_Record :=
  match next evalTrue (snd (fst (fst aliceNext))) (snd (fst aliceNext))
          emptyRecord with
  | Some res => res
  | None => (RC_INVALID_INPUT, closedTable, aliceScan, emptyRecord)
  end.

(** The table that [aliceTable] was before alice's record went in, and the
    insert that made it [aliceTable]. *)
Definition peopleFile : PageFile :=
  snd (createTable "people" people zeroPadding).

Definition peopleTable : DB :=
  match createAndOpen "people" people with
  | Some db => db
  | None => closedTable
  end.

Definition aliceInsert : RecordOp := Insert (newRecord (person 1 "alice")).

Definition aliceInserted : RC * DB * option RM_Record :=
  match runOp peopleTable aliceInsert with
  | Some res => res
  | None => (RC_INVALID_INPUT, closedTable, None)
  end.

(** A schema of 500 [INT] columns, all named [a]: its image takes 5012
    bytes, more than a page. *)
Definition columns : Schema :=
  {| numAttr := 500; attrNames := replicate 500 "a"%string;
     dataTypes := replicate 500 DT_INT; typeLength := replicate 500 0;
     keySize := 1; keyAttrs := [0] |}.

(** Padding bytes as a stack may hold them. *)
Definition stackPadding : Padding := (127, 0, 85).
(** ** Properties of the byte level *)

Lemma len_nonneg (b : bytes) : 0 <= len b.
Proof. unfold len. lia. Qed.

Lemma len_app (a b : bytes) : len (a ++ b) = len a + len b.
Proof. unfold len. rewrite length_app. lia. Qed.

Lemma len_zeros (n : Z) : 0 <= n -> len (zeros n) = n.
Proof. intros Hn. unfold len, zeros. rewrite length_replicate. lia. Qed.

Lemma len_encode_int (z : Z) : len (encode_int z) = sizeof_int.
Proof. reflexivity. Qed.

Lemma decode_encode_int (z : Z) :
  -2147483648 <= z < 2147483648 -> decode_int (encode_int z) = z.
Proof.
  intros Hz. unfold decode_int, encode_int, decode_uint.
  assert (Hu : z mod 256 + 256 * ((z / 256) mod 256)
               + 65536 * ((z / 65536) mod 256)
               + 16777216 * ((z / 16777216) mod 256) = z mod 4294967296).
  { Z.div_mod_to_equations. lia. }
  rewrite Hu. destruct (Z.ltb_spec (z mod 4294967296) 2147483648);
    Z.div_mod_to_equations; lia.
Qed.

Lemma decode_encode_float (f : Z) :
  0 <= f < 4294967296 -> decode_float (encode_float f) = f.
Proof.
  intros Hf. unfold decode_float, encode_float, encode_int, decode_uint.
  Z.div_mod_to_equations. lia.
Qed.

Lemma decode_encode_bool (b : bool) : decode_bool (encode_bool b) = b.
Proof. by destruct b. Qed.

Lemma load_eq (mem : bytes) (off n : Z) :
  0 <= off -> 0 <= n -> off + n <= len mem ->
  load mem off n = Some (take (Z.to_nat n) (drop (Z.to_nat off) mem)).
Proof.
  intros Ho Hn Hl. unfold load.
  apply Z.leb_le in Ho. apply Z.leb_le in Hn. apply Z.leb_le in Hl.
  by rewrite Ho, Hn, Hl.
Qed.

Lemma load_inv (mem b : bytes) (off n : Z) :
  load mem off n = Some b ->
  0 <= off /\ 0 <= n /\ off + n <= len mem
  /\ b = take (Z.to_nat n) (drop (Z.to_nat off) mem).
Proof.
  unfold load. intros H.
  destruct (0 <=? off) eqn:Ho; [|done].
  destruct (0 <=? n) eqn:Hn; [|done].
  destruct (off + n <=? len mem) eqn:Hl; [|done].
  apply Z.leb_le in Ho. apply Z.leb_le in Hn. apply Z.leb_le in Hl.
  simpl in H. by injection H as <-.
Qed.

Lemma store_eq (mem src : bytes) (off : Z) :
  0 <= off -> off + len src <= len mem ->
  store mem off src
  = Some (take (Z.to_nat off) mem ++ src
          ++ drop (Z.to_nat off + length src) mem).
Proof.
  intros Ho Hl. unfold store.
  apply Z.leb_le in Ho. apply Z.leb_le in Hl. by rewrite Ho, Hl.
Qed.

Lemma store_inv (mem mem' src : bytes) (off : Z) :
  store mem off src = Some mem' ->
  0 <= off /\ off + len src <= len mem
  /\ mem' = take (Z.to_nat off) mem ++ src
            ++ drop (Z.to_nat off + length src) mem.
Proof.
  unfold store. intros H.
  destruct (0 <=? off) eqn:Ho; [|done].
  destruct (off + len src <=? len mem) eqn:Hl; [|done].
  apply Z.leb_le in Ho. apply Z.leb_le in Hl.
  simpl in H. by injection H as <-.
Qed.

Lemma store_length (mem mem' src : bytes) (off : Z) :
  store mem off src = Some mem' -> length mem' = length mem.
Proof.
  intros (Ho & Hl & ->)%store_inv. unfold len in *.
  rewrite !length_app, length_take, length_drop. lia.
Qed.

Lemma store_len (mem mem' src : bytes) (off : Z) :
  store mem off src = Some mem' -> len mem' = len mem.
Proof. intros H%store_length. unfold len. by rewrite H. Qed.

Lemma store_drop (mem mem' src : bytes) (off : Z) :
  store mem off src = Some mem' ->
  drop (Z.to_nat off) mem' = src ++ drop (Z.to_nat off + length src) mem.
Proof.
  intros (Ho & Hl & ->)%store_inv. unfold len in *.
  apply drop_app_length'. rewrite length_take. lia.
Qed.

(** Reading back what [store] has just written. *)
Lemma load_store_same (mem mem' src : bytes) (off : Z) :
  store mem off src = Some mem' -> load mem' off (len src) = Some src.
Proof.
  intros H. pose proof (store_len _ _ _ _ H) as Hlen.
  pose proof (store_drop _ _ _ _ H) as Hdrop.
  apply store_inv in H as (Ho & Hl & _).
  rewrite load_eq by (pose proof (len_nonneg src); lia).
  rewrite Hdrop. f_equal. apply take_app_length'. unfold len. lia.
Qed.

(** ** Record layout *)

Lemma sumSizes_S (s : Schema) (n : nat) :
  sumSizes s (S n) = sumSizes s n + attrSize s n.
Proof. unfold sumSizes. by rewrite seq_S, fold_left_app. Qed.

Lemma attrSize_nonneg (s : Schema) (i : nat) :
  Forall (fun l => 0 <= l) (typeLength s) -> 0 <= attrSize s i.
Proof.
  intros Hall. unfold attrSize, typeLength_at.
  destruct (dataTypes_at s i); try done.
  destruct (nth_in_or_default i (typeLength s) 0) as [Hin | ->]; [|done].
  rewrite Forall_forall in Hall. apply Hall. by apply list_elem_of_In.
Qed.

Lemma sumSizes_nonneg (s : Schema) (n : nat) :
  Forall (fun l => 0 <= l) (typeLength s) -> 0 <= sumSizes s n.
Proof.
  intros Hall. induction n as [|n IH]; [done|].
  rewrite sumSizes_S. pose proof (attrSize_nonneg s n Hall). lia.
Qed.

Lemma sumSizes_mono (s : Schema) (n m : nat) :
  Forall (fun l => 0 <= l) (typeLength s) ->
  (n <= m)%nat -> sumSizes s n <= sumSizes s m.
Proof.
  intros Hall Hle. induction Hle as [|m Hle IH]; [done|].
  rewrite sumSizes_S. pose proof (attrSize_nonneg s m Hall). lia.
Qed.

(** Attribute [k] lies inside the record. *)
Lemma attribute_in_record (s : Schema) (k : Z) :
  wf_schema s -> 0 <= k < numAttr s ->
  0 <= calculateAttributeOffset s k
  /\ 0 <= attrSize s (Z.to_nat k)
  /\ calculateAttributeOffset s k + attrSize s (Z.to_nat k)
     <= computeRecordSize s.
Proof.
  intros (Hn & _ & _ & Hall) Hk.
  unfold calculateAttributeOffset, computeRecordSize.
  split; [by apply sumSizes_nonneg|].
  split; [by apply attrSize_nonneg|].
  rewrite <- sumSizes_S. apply sumSizes_mono; [done|lia].
Qed.

(** ** strncpy *)

Lemma cstr_length (n : nat) (s : bytes) : (length (cstr n s) <= n)%nat.
Proof.
  revert s. induction n as [|n IH]; intros [|c s]; simpl; try lia.
  destruct (c =? 0); simpl; [lia|]. specialize (IH s). lia.
Qed.

Lemma cstr_nonzero (n : nat) (s : bytes) :
  Forall (fun c => c <> 0) (cstr n s).
Proof.
  revert s. induction n as [|n IH]; intros [|c s]; simpl; try done.
  destruct (Z.eqb_spec c 0); [done|]. by constructor.
Qed.

Lemma cstr_terminated (n : nat) (s : bytes) :
  In 0 s -> (length (cstr n s) < length s)%nat.
Proof.
  revert s. induction n as [|n IH]; intros [|c s] Hin; simpl in *;
    try done; try lia.
  destruct (Z.eqb_spec c 0); simpl; [lia|].
  destruct Hin as [->|Hin]; [done|]. specialize (IH s Hin). lia.
Qed.

Lemma cstr_take (n m : nat) (s : bytes) :
  (length s <= m)%nat -> cstr n s = take n (cstr m s).
Proof.
  revert n m. induction s as [|c s IH]; intros n m Hm.
  - destruct n, m; done.
  - destruct m as [|m]; simpl in Hm; [lia|].
    destruct n as [|n]; simpl; [done|].
    destruct (c =? 0); simpl; [done|]. f_equal. apply IH. lia.
Qed.

(** A prefix without NUL is what [cstr] returns, when it is followed by a
    NUL or fills the bound. *)
Lemma cstr_prefix (n : nat) (c rest : bytes) :
  Forall (fun x => x <> 0) c ->
  length c = n \/ (exists r, rest = 0 :: r) ->
  (length c <= n)%nat ->
  cstr n (c ++ rest) = c.
Proof.
  intros Hnz. revert n. induction Hnz as [|x c Hx Hnz IH]; intros n Hend Hle.
  - destruct Hend as [Hn | [r ->]]; simpl in *.
    + by subst n.
    + by destruct n.
  - simpl in Hle. destruct n as [|n]; [lia|]. simpl.
    destruct (Z.eqb_spec x 0); [done|]. f_equal. apply IH; [|lia].
    destruct Hend as [Hn | Hr]; [left; simpl in Hn; lia | by right].
Qed.

Lemma strncpy_terminated (s : bytes) (n : Z) :
  0 <= n -> In 0 s ->
  strncpy s n = Some (fit n (string_chars s)).
Proof.
  intros Hn Hin. unfold strncpy, fit, string_chars.
  destruct (Z.ltb_spec n 0); [lia|].
  rewrite <- (cstr_take (Z.to_nat n) (length s) s) by done.
  pose proof (cstr_terminated (Z.to_nat n) s Hin) as Hlt.
  destruct (Z.eqb_spec (len (cstr (Z.to_nat n) s)) (len s)) as [Heq|_].
  { unfold len in Heq. lia. }
  by rewrite andb_false_r.
Qed.

Lemma len_fit (n : Z) (c : bytes) : 0 <= n -> len (fit n c) = n.
Proof.
  intros Hn. unfold fit. rewrite len_app.
  assert (len (take (Z.to_nat n) c) <= n).
  { unfold len. rewrite length_take. lia. }
  rewrite len_zeros; lia.
Qed.

(** Copying an already fitted field out again gives the same bytes. *)
Lemma strncpy_fit (s rest : bytes) (n : Z) :
  0 <= n ->
  strncpy (fit n (string_chars s) ++ rest) n = Some (fit n (string_chars s)).
Proof.
  intros Hn. unfold strncpy.
  destruct (Z.ltb_spec n 0); [lia|].
  pose proof (len_fit n (string_chars s) Hn) as Hlen.
  unfold fit in *. unfold string_chars in *.
  rewrite <- (cstr_take (Z.to_nat n) (length s) s) in * by done.
  set (c := cstr (Z.to_nat n) s) in *.
  pose proof (cstr_length (Z.to_nat n) s) as Hc. fold c in Hc.
  assert (Hcs : cstr (Z.to_nat n) ((c ++ zeros (n - len c)) ++ rest) = c).
  { rewrite <- app_assoc. apply cstr_prefix; [apply cstr_nonzero| |done].
    destruct (decide (length c = Z.to_nat n)) as [|Hne]; [by left|right].
    unfold zeros, len.
    destruct (Z.to_nat (n - Z.of_nat (length c))) as [|k] eqn:Hk; [lia|].
    simpl. by eexists. }
  rewrite Hcs.
  destruct (Z.ltb_spec (len c) n) as [Hlt|Hge]; [|done].
  destruct (Z.eqb_spec (len c) (len ((c ++ zeros (n - len c)) ++ rest)))
    as [Heq|_]; [|done].
  rewrite len_app, Hlen in Heq. pose proof (len_nonneg rest). lia.
Qed.

(** ** setAttr followed by getAttr *)

Lemma typeLength_at_nonneg (s : Schema) (i : nat) :
  wf_schema s -> 0 <= typeLength_at s i.
Proof.
  intros (_ & _ & _ & Hall). unfold typeLength_at.
  destruct (nth_in_or_default i (typeLength s) 0) as [Hin | ->]; [|done].
  rewrite Forall_forall in Hall. apply Hall. by apply list_elem_of_In.
Qed.

Lemma setAttr_in_range (record : RM_Record) (schema : Schema) (k : Z)
    (v : Value) :
  0 <= k < numAttr schema ->
  dt v = dataTypes_at schema (Z.to_nat k) ->
  setAttr record schema k v
  = (buf ← data record;
     src ← match v with
           | IntV i => Some (encode_int i)
           | FloatV f => Some (encode_float f)
           | BoolV b => Some (encode_bool b)
           | StringV s => strncpy s (typeLength_at schema (Z.to_nat k))
           end;
     buf' ← store buf (calculateAttributeOffset schema k) src;
     Some (RC_OK, {| id := id record; data := Some buf' |})).
Proof.
  intros Hk Hdt. unfold setAttr.
  destruct (Z.ltb_spec k 0); [lia|].
  destruct (Z.geb_spec k (numAttr schema)); [lia|]. simpl.
  by rewrite bool_decide_eq_true_2.
Qed.

Lemma getAttr_in_range (record : RM_Record) (schema : Schema) (k : Z) :
  0 <= k < numAttr schema ->
  getAttr record schema k
  = (buf ← data record;
     match dataTypes_at schema (Z.to_nat k) with
     | DT_INT =>
         b ← load buf (calculateAttributeOffset schema k) sizeof_int;
         Some (RC_OK, Some (IntV (decode_int b)))
     | DT_FLOAT =>
         b ← load buf (calculateAttributeOffset schema k) sizeof_float;
         Some (RC_OK, Some (FloatV (decode_float b)))
     | DT_BOOL =>
         b ← load buf (calculateAttributeOffset schema k) sizeof_bool;
         Some (RC_OK, Some (BoolV (decode_bool b)))
     | DT_STRING =>
         s ← strncpy (drop (Z.to_nat (calculateAttributeOffset schema k)) buf)
               (typeLength_at schema (Z.to_nat k));
         Some (RC_OK, Some (StringV (s ++ [0])))
     end).
Proof.
  intros Hk. unfold getAttr.
  destruct (Z.ltb_spec k 0); [lia|].
  by destruct (Z.geb_spec k (numAttr schema)); [lia|].
Qed.

(** C5. For a well-formed schema, a record whose buffer has the record size,
    an attribute index [k] in range and a value [v] of the attribute's type,
    [setAttr] succeeds and [getAttr] on the result returns [v] for INT, FLOAT
    and BOOL; for STRING it returns the characters of [v] truncated or
    zero-padded to [typeLength[k]], followed by the terminator, in a buffer
    of [typeLength[k] + 1] bytes. *)
Theorem setAttr_getAttr_roundtrip (schema : Schema) (record : RM_Record)
    (buf : bytes) (k : Z) (v : Value) :
  wf_schema schema ->
  data record = Some buf ->
  len buf = computeRecordSize schema ->
  0 <= k < numAttr schema ->
  dt v = dataTypes_at schema (Z.to_nat k) ->
  wf_value v ->
  exists record',
    setAttr record schema k v = Some (RC_OK, record')
    /\ getAttr record' schema k = Some (RC_OK, Some (stored_value schema k v))
    /\ forall s b, v = StringV s -> stored_value schema k v = StringV b ->
         len b = typeLength_at schema (Z.to_nat k) + 1
         /\ last b = Some 0
         /\ take (Z.to_nat (typeLength_at schema (Z.to_nat k))) b
            = fit (typeLength_at schema (Z.to_nat k)) (string_chars s).
Proof.
  intros Hwf Hdata Hlen Hk Hdt Hv.
  destruct (attribute_in_record schema k Hwf Hk) as (Hoff & Hsz & Hend).
  pose proof (typeLength_at_nonneg schema (Z.to_nat k) Hwf) as Htl.
  rewrite setAttr_in_range by done. rewrite Hdata. simpl.
  set (off := calculateAttributeOffset schema k) in *.
  assert (Hsrc : exists src,
    match v with
    | IntV i => Some (encode_int i)
    | FloatV f => Some (encode_float f)
    | BoolV b => Some (encode_bool b)
    | StringV s => strncpy s (typeLength_at schema (Z.to_nat k))
    end = Some src /\ len src = attrSize schema (Z.to_nat k)).
  { unfold attrSize. rewrite <- Hdt.
    destruct v as [i|f|b|s]; simpl; try (eexists; split; [done|done]).
    simpl in Hv. rewrite strncpy_terminated by done.
    eexists; split; [done|]. by apply len_fit. }
  destruct Hsrc as (src & Hsrc & Hsl). rewrite Hsrc. simpl.
  destruct (store buf off src) as [buf'|] eqn:Hst;
    [|by rewrite store_eq in Hst by lia].
  simpl. eexists. split; [done|].
  split.
  - rewrite getAttr_in_range by done. cbn [data mbind option_bind].
    fold off. pose proof (load_store_same _ _ _ _ Hst) as Hld.
    rewrite <- Hdt. destruct v as [i|f|b|s]; cbn [dt stored_value] in *.
    + injection Hsrc as <-. rewrite len_encode_int in Hld. rewrite Hld.
      cbn [mbind option_bind]. by rewrite decode_encode_int.
    + injection Hsrc as <-.
      change (len (encode_float f)) with sizeof_float in Hld. rewrite Hld.
      cbn [mbind option_bind]. by rewrite decode_encode_float.
    + injection Hsrc as <-.
      change (len (encode_bool b)) with sizeof_bool in Hld. rewrite Hld.
      cbn [mbind option_bind]. by rewrite decode_encode_bool.
    + rewrite strncpy_terminated in Hsrc by done. injection Hsrc as <-.
      rewrite (store_drop _ _ _ _ Hst).
      by rewrite strncpy_fit.
  - intros s b -> Hb. simpl in Hb. injection Hb as <-.
    pose proof (len_fit (typeLength_at schema (Z.to_nat k)) (string_chars s)
                  Htl) as Hfit.
    split; [rewrite len_app, Hfit; done|].
    split; [apply last_snoc|].
    apply take_app_length'. unfold len in Hfit. lia.
Qed.

(** ** Page directory under the record operations *)

(** Peels the first binding, pair or test off a hypothesis in the option
    monad. *)
Ltac bind_step H :=
  match type of H with
  | mbind _ ?x = Some _ =>
      let E := fresh "E" in
      destruct x eqn:E; [cbn [mbind option_bind] in H | discriminate H]
  | (let '(_, _) := ?x in _) = Some _ =>
      let E := fresh "E" in destruct x eqn:E
  | (if ?b then _ else _) = Some _ =>
      let E := fresh "E" in destruct b eqn:E
  | (match ?x with _ => _ end) = Some _ =>
      let E := fresh "E" in destruct x eqn:E
  end.

Lemma dir_get_range (d : list PageDirectoryEntry) (i : Z)
    (e : PageDirectoryEntry) :
  dir_get d i = Some e -> 0 <= i < len_list d.
Proof.
  unfold dir_get, len_list. destruct (Z.ltb_spec i 0) as [|Hi]; [done|].
  intros Hlt%lookup_lt_Some. lia.
Qed.

Lemma dir_get_dir_set (d d' : list PageDirectoryEntry) (i j : Z)
    (e : PageDirectoryEntry) :
  dir_set d i e = Some d' ->
  dir_get d' j = if decide (j = i) then Some e else dir_get d j.
Proof.
  unfold dir_set, dir_get, len_list. intros H.
  destruct (Z.leb_spec 0 i); [|done].
  destruct (Z.ltb_spec i (Z.of_nat (length d))); [|done].
  simpl in H. injection H as <-.
  destruct (decide (j = i)) as [->|Hne].
  - destruct (Z.ltb_spec i 0); [lia|].
    apply list_lookup_insert_eq. lia.
  - destruct (Z.ltb_spec j 0); [done|].
    apply list_lookup_insert_ne. lia.
Qed.

Lemma updatePageStatistics_entries (m m' : RM_managementData) (sch : Schema)
    (i c : Z) (b : bool) :
  updatePageStatistics m sch i c b = Some m' ->
  numPages m' = numPages m /\ numPageDP m' = numPageDP m /\ bm m' = bm m
  /\ forall p e, dir_get (pageDirectory m) p = Some e ->
       exists e', dir_get (pageDirectory m') p = Some e'
                  /\ recordCount e' = recordCount e /\ pageID e' = pageID e.
Proof.
  unfold updatePageStatistics. intros H.
  destruct (dir_get (pageDirectory m) i) as [e0|] eqn:He0; [|done].
  cbn [mbind option_bind] in H.
  match type of H with context [dir_set ?d ?i ?e] =>
    destruct (dir_set d i e) as [d'|] eqn:Hset; [|done] end.
  cbn [mbind option_bind] in H. injection H as <-.
  repeat split; try done.
  intros p e Hp. cbn [pageDirectory with_directory].
  rewrite (dir_get_dir_set _ _ _ p _ Hset).
  destruct (decide (p = i)) as [->|_]; [|by exists e].
  rewrite He0 in Hp. injection Hp as ->. by eexists.
Qed.

Lemma savePageDirectoryToDisk_rc (m : RM_managementData) (f f' : PageFile)
    (rc : RC) :
  savePageDirectoryToDisk m f = Some (rc, f') -> rc = RC_OK.
Proof.
  unfold savePageDirectoryToDisk. intros H. cbv zeta in H.
  bind_step H; [done|]. bind_step H. by injection H as <- _.
Qed.

Lemma deleteRecord_entries (db db' : DB) (rid : RID) (rc : RC)
    (m : RM_managementData) (p : Z) (e : PageDirectoryEntry) :
  deleteRecord db rid = Some (rc, db') ->
  managementData (rel db) = Ptr m ->
  0 <= p < numDataPages m ->
  dir_get (pageDirectory m) p = Some e ->
  entry_after db' p e (fun e' => recordCount e' = recordCount e).
Proof.
  intros H Hm Hp He. unfold deleteRecord in H. rewrite Hm in H.
  cbn [isNull deref mbind option_bind] in H.
  bind_step H. { injection H as <- <-. exists m, e. by rewrite Hm. }
  do 3 bind_step H.
  { injection H as <- <-. by exists (with_bm m (unpinPage b)), e. }
  do 6 bind_step H. bind_step H. injection H as <- <-.
  apply updatePageStatistics_entries in E7 as (HnP & HnDP & _ & Hent).
  destruct (Hent p e He) as (e' & He' & Hrc & Hid).
  exists (with_bm r (unpinPage (markDirty (bm r)))), e'.
  unfold numDataPages in *. cbn. rewrite HnP, HnDP. cbn. done.
Qed.

Lemma getRecord_entries (db db' : DB) (rid : RID) (r r' : RM_Record) (rc : RC)
    (m : RM_managementData) (p : Z) (e : PageDirectoryEntry) :
  getRecord db rid r = Some (rc, db', r') ->
  managementData (rel db) = Ptr m ->
  0 <= p < numDataPages m ->
  dir_get (pageDirectory m) p = Some e ->
  entry_after db' p e (fun e' => recordCount e' = recordCount e).
Proof.
  intros H Hm Hp He. unfold getRecord in H. rewrite Hm in H.
  cbn [isNull deref mbind option_bind] in H.
  bind_step H. { injection H as <- <- <-. exists m, e. by rewrite Hm. }
  do 3 bind_step H.
  { injection H as <- <- <-. by exists (with_bm m (unpinPage b)), e. }
  do 4 bind_step H. injection H as <- <- <-.
  by exists (with_bm m (unpinPage b)), e.
Qed.

Lemma growDirectoryChain_entries (m m' : RM_managementData) (f f' : PageFile) :
  growDirectoryChain m f = (m', f') ->
  numDataPages m' = numDataPages m /\ pageDirectory m' = pageDirectory m.
Proof.
  unfold growDirectoryChain, numDataPages. intros H.
  destruct (numPages m >? maxEntriesPerPage * numPageDP m);
    injection H as <- <-; cbn; split; [lia|done|done|done].
Qed.

Lemma dir_get_resize (d : list PageDirectoryEntry) (n : nat) (p : Z)
    (e x : PageDirectoryEntry) :
  dir_get d p = Some e -> p < Z.of_nat n -> dir_get (resize n x d) p = Some e.
Proof.
  unfold dir_get. destruct (Z.ltb_spec p 0); [done|]. intros He Hp.
  rewrite lookup_resize; [done|lia|]. apply lookup_lt_Some in He. lia.
Qed.

Lemma choosePage_entries (m m' : RM_managementData) (f f' : PageFile)
    (pageIndex : Z) :
  choosePage m f = Some (pageIndex, m', f') ->
  numDataPages m <= numDataPages m'
  /\ numPageDP m' = numPageDP m
  /\ forall p e, 0 <= p < numDataPages m ->
       dir_get (pageDirectory m) p = Some e ->
       dir_get (pageDirectory m') p = Some e.
Proof.
  unfold choosePage. intros H. bind_step H. bind_step H.
  - bind_step H. injection H as <- <- <-. unfold numDataPages in *. cbn in *.
    split; [lia|]. split; [done|]. intros p e Hp He.
    rewrite (dir_get_dir_set _ _ _ p _ E1).
    destruct (decide (p = numPages m - numPageDP m + 1)); [lia|].
    apply dir_get_resize; [done|lia].
  - injection H as <- <- <-. split; [lia|]. done.
Qed.

Lemma insertRecord_entries (db db' : DB) (r r' : RM_Record) (rc : RC)
    (m : RM_managementData) (p : Z) (e : PageDirectoryEntry) :
  insertRecord db r = Some (rc, db', r') ->
  managementData (rel db) = Ptr m ->
  0 <= p < numDataPages m ->
  dir_get (pageDirectory m) p = Some e ->
  entry_after db' p e (grown_by_insert e rc (id r')).
Proof.
  intros H Hm Hp He. unfold insertRecord in H. rewrite Hm in H.
  cbn [isNull deref mbind option_bind] in H.
  bind_step H. bind_step H.
  apply growDirectoryChain_entries in E0 as (Hn1 & Hd1).
  bind_step H. destruct p1 as [[pageIndex m2] f2].
  apply choosePage_entries in E0 as (Hn2 & HDP2 & Hd2).
  bind_step H. bind_step H. bind_step H.
  set (found := z) in *.
  bind_step H. do 5 bind_step H. bind_step H. bind_step H.
  destruct p3 as [? f4]. injection H as <- <- <-.
  apply updatePageStatistics_entries in E9 as (HnP & HnDP & _ & Hent).
  assert (Hp2 : dir_get (pageDirectory m2) p = Some e).
  { apply Hd2; [lia|]. by rewrite Hd1. }
  pose proof (dir_get_dir_set _ _ _ p _ E3) as Hp3.
  cbn [pageDirectory with_bm with_directory] in Hent.
  destruct (decide (p = pageIndex)) as [->|Hne].
  - rewrite E0 in Hp2. injection Hp2 as ->.
    destruct (Hent pageIndex _ Hp3) as (e' & He' & Hrc & Hid).
    exists (with_bm r1 (unpinPage (markDirty (bm r1)))), e'.
    unfold numDataPages in *. cbn in *. rewrite HnP, HnDP.
    split; [done|]. split; [lia|]. split; [done|].
    unfold grown_by_insert. rewrite Hrc, Hid.
    destruct (found =? -1); cbn; [|by split; [|left]].
    split; [done|]. by right.
  - rewrite Hp2 in Hp3.
    destruct (Hent p e Hp3) as (e' & He' & Hrc & Hid).
    exists (with_bm r1 (unpinPage (markDirty (bm r1)))), e'.
    unfold numDataPages in *. cbn in *. rewrite HnP, HnDP.
    split; [done|]. split; [lia|]. split; [done|]. split; [done|by left].
Qed.

Lemma entry_after_weaken (db : DB) (p : Z) (e : PageDirectoryEntry)
    (P Q : PageDirectoryEntry -> Prop) :
  (forall e', P e' -> Q e') -> entry_after db p e P -> entry_after db p e Q.
Proof.
  intros HPQ (m' & e' & Hm & Hp & He & Hid & HP).
  exists m', e'. auto 6.
Qed.

Lemma updateRecord_entries (db db' : DB) (r r' : RM_Record) (rc : RC)
    (m : RM_managementData) (p : Z) (e : PageDirectoryEntry) :
  updateRecord db r = Some (rc, db', r') ->
  managementData (rel db) = Ptr m ->
  0 <= p < numDataPages m ->
  dir_get (pageDirectory m) p = Some e ->
  entry_after db' p e (fun e' => recordCount e <= recordCount e').
Proof.
  intros H Hm Hp He. unfold updateRecord in H. rewrite Hm in H.
  cbn [isNull deref mbind option_bind] in H.
  bind_step H. { injection H as <- <- <-. exists m, e. by rewrite Hm. }
  do 3 bind_step H.
  { injection H as <- <- <-. by exists (with_bm m (unpinPage b)), e. }
  do 4 bind_step H.
  - bind_step H. destruct p2 as [rc1 db1].
    match goal with Hd : deleteRecord _ _ = Some _ |- _ =>
      eapply deleteRecord_entries in Hd
        as (m1 & e1 & Hm1 & Hp1 & He1 & Hid1 & Hrc1);
        [|reflexivity|exact Hp|exact He]
    end.
    bind_step H.
    + injection H as <- <- <-. exists m1, e1. repeat split; try done; lia.
    + eapply insertRecord_entries in H
        as (m2 & e2 & Hm2 & Hp2 & He2 & Hid2 & Hrc2);
        [|exact Hm1|exact Hp1|exact He1].
      exists m2, e2. repeat split; try done; try lia; try congruence.
      destruct Hrc2 as [Hrc2|(Hrc2 & _)]; lia.
  - do 3 bind_step H. injection H as <- <- <-.
    eexists _, e. split; [reflexivity|]. split; [exact Hp|].
    split; [exact He|]. split; [done|lia].
Qed.

(** C9. Let [p] be a data page of an open table and [e] its directory
    entry.  After any record operation [p] is still a data page, its entry
    keeps its page id, and its record count has not gone down.  A delete and
    a get leave the count as it was; an insert leaves it as it was or adds
    one, and adds one only when it succeeded on this page and handed out the
    slot just past the slots allocated so far, not a tombstoned one. *)
Theorem recordCount_never_decreases (db db' : DB) (op : RecordOp) (rc : RC)
    (r' : option RM_Record) (m : RM_managementData) (p : Z)
    (e : PageDirectoryEntry) :
  runOp db op = Some (rc, db', r') ->
  managementData (rel db) = Ptr m ->
  0 <= p < numDataPages m ->
  dir_get (pageDirectory m) p = Some e ->
  entry_after db' p e
    (fun e' => recordCount e <= recordCount e' /\ count_after op e rc r' e').
Proof.
  intros H Hm Hp He. destruct op as [r|rid|r|rid r]; cbn [runOp] in H;
    bind_step H.
  - destruct p0 as [[rc0 db0] r0]. injection H as <- <- <-.
    eapply entry_after_weaken; [|by eapply insertRecord_entries].
    intros e' Hg. cbv beta in Hg |- *.
    split; [destruct Hg as [Hg|(Hg & _)]; lia|]. by exists r0.
  - destruct p0 as [rc0 db0]. injection H as <- <- <-.
    eapply entry_after_weaken; [|by eapply deleteRecord_entries].
    intros e' Hg. cbv beta in Hg |- *. split; [lia|done].
  - destruct p0 as [[rc0 db0] r0]. injection H as <- <- <-.
    eapply entry_after_weaken; [|by eapply updateRecord_entries].
    intros e' Hg. cbv beta in Hg |- *. done.
  - destruct p0 as [[rc0 db0] r0]. injection H as <- <- <-.
    eapply entry_after_weaken; [|by eapply getRecord_entries].
    intros e' Hg. cbv beta in Hg |- *. split; [lia|done].
Qed.


(** ** Deletes and getNumTuples *)

Lemma deleteRecord_counters (db db' : DB) (rid : RID) (rc : RC)
    (m : RM_managementData) :
  deleteRecord db rid = Some (rc, db') ->
  managementData (rel db) = Ptr m ->
  exists m', managementData (rel db') = Ptr m'
             /\ numPages m' = numPages m /\ numPageDP m' = numPageDP m.
Proof.
  intros H Hm. unfold deleteRecord in H. rewrite Hm in H.
  cbn [isNull deref mbind option_bind] in H.
  bind_step H. { injection H as <- <-. by exists m. }
  do 3 bind_step H. { injection H as <- <-. by eexists. }
  do 6 bind_step H. bind_step H. injection H as <- <-.
  match goal with Hu : updatePageStatistics _ _ _ _ _ = Some _ |- _ =>
    apply updatePageStatistics_entries in Hu as (HnP & HnDP & _) end.
  eexists. split; [reflexivity|]. by cbn.
Qed.

Lemma sumRecordCount_preserved (n : nat) (d d' : list PageDirectoryEntry)
    (i acc total : Z) :
  sumRecordCount n d i acc = Some total ->
  (forall j e, i <= j < i + Z.of_nat n -> dir_get d j = Some e ->
     exists e', dir_get d' j = Some e' /\ recordCount e' = recordCount e) ->
  sumRecordCount n d' i acc = Some total.
Proof.
  revert i acc. induction n as [|n IH]; intros i acc H Hent; [done|].
  cbn [sumRecordCount] in *. bind_step H.
  destruct (Hent i p) as (e' & He' & Hrc); [lia|done|].
  rewrite He'. cbn [mbind option_bind]. rewrite Hrc. apply IH; [done|].
  intros j e Hj. apply Hent. lia.
Qed.

(** X1. A successful [deleteRecord] leaves [getNumTuples] as it was. *)
Lemma deleteRecord_keeps_getNumTuples (db db' : DB) (rid : RID) (rc : RC)
    (m : RM_managementData) (total : Z) :
  deleteRecord db rid = Some (rc, db') ->
  managementData (rel db) = Ptr m ->
  getNumTuples db = Some total ->
  getNumTuples db' = Some total.
Proof.
  intros H Hm Hn.
  destruct (deleteRecord_counters _ _ _ _ _ H Hm) as (m' & Hm' & HnP & HnDP).
  unfold getNumTuples in *. rewrite Hm in Hn. rewrite Hm'.
  cbn [isNull deref mbind option_bind] in *.
  assert (Hdp : numDataPages m' = numDataPages m).
  { unfold numDataPages. by rewrite HnP, HnDP. }
  rewrite Hdp. eapply sumRecordCount_preserved; [exact Hn|].
  intros j e Hj He.
  destruct (deleteRecord_entries _ _ _ _ _ j e H Hm)
    as (m2 & e' & Hm2 & _ & He' & _ & Hrc); [lia|done|].
  rewrite Hm' in Hm2. injection Hm2 as <-. by exists e'.
Qed.

(** ** The evaluator in a scan *)

Section ScanProperties.

Variable Expr : Type.
Variable evalExpr : RM_Record -> Schema -> option Expr -> option Value.

Lemma boolV_of_Some (v : Value) (b : bool) :
  boolV_of v = Some b -> v = BoolV b.
Proof. destruct v; try done. by intros [= ->]. Qed.

Lemma nextSlot_match (n : nat) (pageData : bytes) (sch : Schema)
    (cond : option Expr) (curPage curSlot slot' : Z)
    (record record' : RM_Record) :
  nextSlot evalExpr n pageData sch cond curPage curSlot record
  = Some (true, slot', record') ->
  exists b, evalExpr record' sch cond = Some (BoolV b).
Proof.
  revert curSlot record.
  induction n as [|n IH]; intros curSlot record H; [done|].
  cbn [nextSlot] in H.
  bind_step H. bind_step H; [by eapply IH|].
  do 5 bind_step H. bind_step H; [|by eapply IH].
  injection H as _ <-. apply boolV_of_Some in E5 as ->. by eexists.
Qed.

Lemma nextPage_match (n : nat) (d : list PageDirectoryEntry) (sch : Schema)
    (cond : option Expr) (b b' : BM_BufferPool) (f f' : PageFile)
    (curPage curSlot page' slot' : Z) (record record' : RM_Record) :
  nextPage evalExpr n d sch cond b f curPage curSlot record
  = Some (RC_OK, b', f', page', slot', record') ->
  exists v, evalExpr record' sch cond = Some (BoolV v).
Proof.
  revert b f curPage curSlot record.
  induction n as [|n IH]; intros b f curPage curSlot record H; [done|].
  cbn [nextPage] in H.
  bind_step H. bind_step H. bind_step H. destruct p1 as [[[|] s1] r1].
  - injection H as _ _ _ _ <-. by eapply nextSlot_match.
  - by eapply IH.
Qed.

(** A non-free slot is handed to the evaluator before the NULL test: when
    the evaluator leaves no value behind, the slot loop has no result. *)
Lemma nextSlot_needs_value (n : nat) (pageData src buf : bytes) (sch : Schema)
    (curPage curSlot o : Z) (record : RM_Record) :
  slot_isFree pageData curSlot = Some false ->
  slot_offset pageData curSlot = Some o ->
  load pageData o (computeRecordSize sch) = Some src ->
  fillRecordData (data record) src = Some buf ->
  evalExpr {| id := {| page := curPage; slot := curSlot |}; data := Some buf |}
    sch None = None ->
  nextSlot evalExpr (S n) pageData sch None curPage curSlot record = None.
Proof.
  intros Hfree Hoff Hload Hfill Heval. cbn [nextSlot].
  rewrite Hfree. cbn [mbind option_bind]. rewrite Hoff. cbn [mbind option_bind].
  rewrite Hload. cbn [mbind option_bind].
  rewrite Hfill. cbn [mbind option_bind].
  by rewrite Heval.
Qed.

(** C10. When [next], on a scan started with a NULL predicate, returns
    [RC_OK], the evaluator has been run on the returned record with the NULL
    expression and has produced a boolean [Value]: the NULL test comes after
    the result has been read. *)
Theorem next_null_predicate_needs_evaluator (db db' : DB)
    (scan scan' : RM_ScanHandle Expr) (scanInfo : ScanInfo Expr)
    (record record' : RM_Record) :
  mgmtData scan = Ptr scanInfo ->
  condition scanInfo = None ->
  next evalExpr db scan record = Some (RC_OK, db', scan', record') ->
  exists sch v,
    schema (rel db) = Ptr sch
    /\ evalExpr record' sch None = Some (BoolV v).
Proof.
  intros Hscan Hcond H. unfold next in H. rewrite Hscan in H.
  cbn [isNull deref mbind option_bind] in H.
  bind_step H. bind_step H. bind_step H.
  destruct p as [[[[[rc b] f] curPage] curSlot] r1].
  injection H as -> _ _ <-.
  rewrite Hcond in E1. apply nextPage_match in E1 as [v Hv].
  exists s, v. split; [|done].
  destruct (schema (rel db)); try done. by injection E0 as ->.
Qed.

End ScanProperties.


(** ** The two page formulas *)

Lemma maxEntriesPerPage_value : maxEntriesPerPage = 255.
Proof. reflexivity. Qed.

Lemma scanPageNum_first_chain (p : Z) :
  0 <= p < maxEntriesPerPage -> scanPageNum p = p + 2.
Proof.
  rewrite maxEntriesPerPage_value. intros Hp. unfold scanPageNum, ceilDivision.
  rewrite maxEntriesPerPage_value.
  assert ((p + 1 + 255 - 1) ÷ 255 = 1); [|lia].
  rewrite Z.quot_div_nonneg by lia. symmetry.
  apply Z.div_unique with (r := p); lia.
Qed.

(** X2. With one directory page the formulas agree on the first
    [maxEntriesPerPage] data pages; with more directory pages they differ
    on every one of them. *)
Lemma scanPageNum_recordPageNum (m : RM_managementData) (p : Z) :
  0 <= p < maxEntriesPerPage ->
  (scanPageNum p = recordPageNum m p <-> numPageDP m = 1).
Proof.
  intros Hp. rewrite scanPageNum_first_chain by done.
  unfold recordPageNum. lia.
Qed.

(** ** Record identifiers *)

(** The pages accepted by [isValidRecordID] when it is given [numPages]:
    the data pages and [numPageDP - 1] page indices past them. *)
Lemma isValidRecordID_numPages (m : RM_managementData) (rid : RID) :
  isValidRecordID rid (numPages m) = true
  <-> 0 <= page rid < numDataPages m + (numPageDP m - 1) /\ 0 <= slot rid.
Proof.
  unfold isValidRecordID, numDataPages.
  rewrite !andb_true_iff, !Z.geb_le, Z.ltb_lt. lia.
Qed.

(** On an open table [getRecord] answers [RC_RM_INVALID_RID] exactly when
    [isValidRecordID] rejects the RID against [numPages]. *)
Lemma getRecord_invalid_rid (db db' : DB) (rid : RID) (r r' : RM_Record)
    (rc : RC) (m : RM_managementData) :
  managementData (rel db) = Ptr m ->
  getRecord db rid r = Some (rc, db', r') ->
  (rc = RC_RM_INVALID_RID <-> isValidRecordID rid (numPages m) = false).
Proof.
  intros Hm H. unfold getRecord in H. rewrite Hm in H.
  cbn [isNull deref mbind option_bind] in H.
  destruct (isValidRecordID rid (numPages m)); cbn [negb] in H.
  - do 3 bind_step H; [by injection H as <- _ _|].
    do 4 bind_step H. by injection H as <- _ _.
  - by injection H as <- _ _.
Qed.

(** ** Closing a handle twice *)

Lemma closeTable_twice (db : DB) (sch : Schema) (m : RM_managementData) :
  schema (rel db) = Ptr sch ->
  managementData (rel db) = Ptr m ->
  exists db', closeTable db = Some (RC_OK, db') /\ closeTable db' = None.
Proof.
  intros Hs Hm. unfold closeTable. rewrite Hs, Hm. cbn. by eexists.
Qed.

Lemma closeScan_twice (Expr : Type) (scan : RM_ScanHandle Expr)
    (scanInfo : ScanInfo Expr) :
  mgmtData scan = Ptr scanInfo ->
  exists scan', closeScan scan = Some (RC_OK, scan')
                /\ closeScan scan' = Some (RC_OK, scan').
Proof. intros Hs. unfold closeScan. rewrite Hs. cbn. by eexists. Qed.

(** ** Runs

    The runs of the example tables, evaluated. *)

(** C1. Insert alice, bob and carol, delete bob, insert dave: dave reuses
    slot 1 of data page 0, yet his payload is written at the offset of slot
    2, so that [getRecord] for carol's RID, which returned carol's bytes
    before, now returns dave's. *)
Theorem reuse_overwrites_live_record :
  reuseRun
  = Some ({| page := 0; slot := 2 |}, {| page := 0; slot := 1 |},
          (RC_OK, Some (person 3 "carol")),
          (RC_OK, Some (person 4 "dave")))
  /\ person 3 "carol" <> person 4 "dave".
Proof. split; [by vm_compute|]. vm_compute. congruence. Qed.

(** C2. After one insert [getNumTuples] is 1 and one record is live; after
    the record is deleted no record is live and [getNumTuples] is still
    1. *)
Theorem getNumTuples_ignores_delete : countRun = Some (1, 1, 1, 0).
Proof. by vm_compute. Qed.

(** C4. After 255 page-filling inserts [getNumTuples] is 255; the directory
    has last been written to block 256 instead of block 1, and after
    [closeTable] and [openTable] [getNumTuples] is 254. *)
Theorem reopen_loses_directory_entries : reopenRun = Some (255, 254).
Proof. by vm_compute. Qed.

(** C6. [getRecord] rejects a page that is not there and a negative slot,
    but no other slot: for slot 5 of data page 0, which holds no record and
    was never handed out, it returns [RC_OK] with twelve bytes of the slot
    directory, and [deleteRecord] returns [RC_OK] as well; for a slot whose
    entry lies behind the end of the page both read outside the page frame
    and have no defined result. *)
Theorem getRecord_accepts_slot_out_of_range :
  slotRangeRun
  = Some (RC_RM_INVALID_RID, RC_RM_INVALID_RID,
          (RC_OK, Some [244; 15; 0; 0; 0; 0; 0; 0; 0; 0; 0; 0]), RC_OK,
          None, None).
Proof. by vm_compute. Qed.

(** C7. One record of 4093 bytes is inserted into an empty table and gets
    RID (0, 0); its payload, written at offset 3, runs over the slot entry.
    The slot is not free, so the table holds one live record, but the
    offset in the slot entry now is 2130706435: the first [next] of a scan
    with a NULL predicate, like [getRecord], copies the record from outside
    the page and has no defined result. *)
Theorem scan_of_oversized_record_is_undefined :
  oversizeRun
  = Some ({| page := 0; slot := 0 |}, 1, Some 2130706435, None, None).
Proof. by vm_compute. Qed.

(** C8. The first [closeTable] returns [RC_OK] and leaves the handle with
    dangling pointers; the second passes the NULL checks and releases them
    again, which has no defined result.  [closeScan] resets its pointer and
    returns [RC_OK] both times. *)
Theorem closeTable_twice_is_undefined :
  closeTwiceRun = Some (RC_OK, None)
  /\ closeScanTwiceRun = Some (RC_OK, RC_OK).
Proof. split; by vm_compute. Qed.


(** * Further properties of the code *)

Lemma take_len_list {A : Type} (l : list A) (n : Z) :
  len_list l = n -> take (Z.to_nat n) l = l.
Proof. intros <-. unfold len_list. apply take_ge. lia. Qed.

Lemma load_app (pre b post : bytes) :
  load (pre ++ b ++ post) (len pre) (len b) = Some b.
Proof.
  rewrite load_eq.
  - f_equal. unfold len, bytes in *. rewrite !Nat2Z.id, drop_app_length.
    apply take_app_length.
  - apply len_nonneg.
  - apply len_nonneg.
  - rewrite !len_app. pose proof (len_nonneg post). lia.
Qed.

Lemma put_full (pre rest src : bytes) :
  len (pre ++ rest) = PAGE_SIZE ->
  put (pre ++ rest, len pre) src
  = if len pre + len src >? PAGE_SIZE then inl RC_PAGE_FULL
    else inr ((pre ++ src) ++ drop (length src) rest, len (pre ++ src)).
Proof.
  intros Hlen. unfold put.
  destruct (Z.gtb_spec (len pre + len src) PAGE_SIZE); [done|].
  rewrite store_eq by (pose proof (len_nonneg pre); lia).
  rewrite len_app. f_equal. f_equal. unfold len, bytes in *.
  rewrite Nat2Z.id, take_app_length, <- app_assoc. do 2 f_equal.
  by rewrite drop_app_add'.
Qed.

Lemma put_full_len (pre rest src : bytes) :
  len (pre ++ rest) = PAGE_SIZE ->
  len pre + len src <= PAGE_SIZE ->
  len ((pre ++ src) ++ drop (length src) rest) = PAGE_SIZE.
Proof.
  rewrite !len_app. unfold len. rewrite length_drop. lia.
Qed.

Lemma put_all_full (srcs : list bytes) (pre rest : bytes) :
  len (pre ++ rest) = PAGE_SIZE ->
  put_all (pre ++ rest, len pre) srcs
  = if len pre + len (concat srcs) >? PAGE_SIZE then inl RC_PAGE_FULL
    else inr ((pre ++ concat srcs) ++ drop (length (concat srcs)) rest,
              len (pre ++ concat srcs)).
Proof.
  revert pre rest. induction srcs as [|src srcs IH]; intros pre rest Hlen.
  - simpl. rewrite app_nil_r. change (len []) with 0.
    destruct (Z.gtb_spec (len pre + 0) PAGE_SIZE); [|done].
    rewrite len_app in Hlen. pose proof (len_nonneg rest). lia.
  - cbn [put_all concat]. rewrite put_full by done.
    pose proof (len_nonneg (concat srcs)) as Hc.
    rewrite (len_app src).
    destruct (Z.gtb_spec (len pre + len src) PAGE_SIZE) as [Hgt|Hle].
    + destruct (Z.gtb_spec (len pre + (len src + len (concat srcs)))
                  PAGE_SIZE); [done|lia].
    + rewrite IH by (by apply put_full_len).
      rewrite (len_app pre src).
      destruct (Z.gtb_spec (len pre + len src + len (concat srcs))
                  PAGE_SIZE);
        destruct (Z.gtb_spec (len pre + (len src + len (concat srcs)))
                    PAGE_SIZE); try lia; [done|].
      by rewrite drop_drop, length_app, <- !app_assoc.
Qed.

Lemma len_concat_ints {A : Type} (enc : A -> bytes) (xs : list A) :
  (forall x, len (enc x) = sizeof_int) ->
  len (concat (map enc xs)) = len_list xs * sizeof_int.
Proof.
  intros Henc. induction xs as [|x xs IH]; [done|].
  cbn [map concat]. rewrite len_app, Henc, IH. unfold len_list.
  cbn [length]. lia.
Qed.

Lemma string_of_bytes_of_string (s : string) :
  string_of_bytes (bytes_of_string s) = s.
Proof.
  unfold string_of_bytes, bytes_of_string. rewrite map_map.
  rewrite <- (string_of_list_ascii_of_string s) at 2. f_equal.
  induction (list_ascii_of_string s) as [|a l IH]; [done|].
  cbn [map]. rewrite IH. f_equal. by rewrite N2Z.id, ascii_N_embedding.
Qed.

Lemma parse_names_image (names : list string) (pre post : bytes) :
  Forall c_string names ->
  let img := concat (map (fun nm => bytes_of_string nm ++ [0]) names) in
  parse_names (length names) (pre ++ img ++ post) (len pre)
  = Some (names, len pre + len img).
Proof.
  intros Hnames. revert pre.
  induction Hnames as [|nm names Hnm Hnames IH]; intros pre; cbn zeta.
  - simpl. change (len []) with 0. do 2 f_equal. lia.
  - cbn [parse_names length map concat].
    pose proof (len_nonneg pre) as Hpre.
    destruct (Z.ltb_spec (len pre) 0); [lia|].
    set (img := concat (map (fun nm => bytes_of_string nm ++ [0]) names)).
    assert (Hdrop : drop (Z.to_nat (len pre))
                      (pre ++ ((bytes_of_string nm ++ [0]) ++ img) ++ post)
                    = bytes_of_string nm ++ 0 :: img ++ post).
    { unfold len, bytes in *. rewrite Nat2Z.id, drop_app_length.
      by rewrite <- !app_assoc. }
    unfold bytes in *. rewrite Hdrop.
    rewrite cstr_prefix; [|done|right; by eexists|rewrite length_app; lia].
    destruct (Z.eqb_spec (len (bytes_of_string nm))
                (len (bytes_of_string nm ++ 0 :: img ++ post))) as [He|_].
    { rewrite len_app in He. unfold len in He. cbn [length] in He. lia. }
    specialize (IH (pre ++ bytes_of_string nm ++ [0])). cbn zeta in IH.
    fold img in IH.
    replace (pre ++ ((bytes_of_string nm ++ [0]) ++ img) ++ post)
      with ((pre ++ bytes_of_string nm ++ [0]) ++ img ++ post)
      by (by rewrite <- !app_assoc).
    replace (len pre + len (bytes_of_string nm) + 1)
      with (len (pre ++ bytes_of_string nm ++ [0]))
      by (rewrite !len_app; change (len [0]) with 1; lia).
    unfold bytes in *. rewrite IH. cbn [mbind option_bind].
    rewrite string_of_bytes_of_string. do 2 f_equal.
    rewrite !len_app. change (len [0]) with 1. lia.
Qed.

Lemma parse_array_image {A : Type} (enc : A -> bytes)
    (dec : bytes -> option A) (xs : list A) (pre post : bytes) :
  (forall x, len (enc x) = sizeof_int) ->
  Forall (fun x => dec (enc x) = Some x) xs ->
  parse_array dec (length xs) (pre ++ concat (map enc xs) ++ post) (len pre)
  = Some xs.
Proof.
  intros Henc Hxs. revert pre.
  induction Hxs as [|x xs Hx Hxs IH]; intros pre; [done|].
  cbn [parse_array length map concat].
  rewrite <- (Henc x) at 1. rewrite <- app_assoc, load_app.
  cbn [mbind option_bind]. rewrite Hx. cbn [mbind option_bind].
  specialize (IH (pre ++ enc x)). rewrite len_app, Henc in IH.
  rewrite <- app_assoc in IH. by rewrite IH.
Qed.

Lemma len_zeroPage : len zeroPage = PAGE_SIZE.
Proof. reflexivity. Qed.

Lemma len_encode_DataType (d : DataType) :
  len (encode_DataType d) = sizeof_int.
Proof. reflexivity. Qed.

Lemma put_chain (a : bytes) (bs : list bytes) (c d e : bytes) :
  match put (zeroPage, 0) a with
  | inl rc => inl rc
  | inr st1 =>
    match put_all st1 bs with
    | inl rc => inl rc
    | inr st2 =>
      match put st2 c with
      | inl rc => inl rc
      | inr st3 =>
        match put st3 d with
        | inl rc => inl rc
        | inr st4 =>
          match put st4 e with
          | inl rc => inl rc
          | inr (pg, _) => inr pg
          end
        end
      end
    end
  end
  = let image := a ++ concat bs ++ c ++ d ++ e in
    if len image >? PAGE_SIZE then inl RC_PAGE_FULL
    else inr (image ++ drop (length image) zeroPage).
Proof.
  cbv zeta. set (b := concat bs).
  pose proof (len_nonneg a). pose proof (len_nonneg b).
  pose proof (len_nonneg c). pose proof (len_nonneg d).
  pose proof (len_nonneg e).
  rewrite !len_app.
  assert (Hfull : PAGE_SIZE < len a + (len b + (len c + (len d + len e))) ->
    @inl RC bytes RC_PAGE_FULL
    = if len a + (len b + (len c + (len d + len e))) >? PAGE_SIZE
      then inl RC_PAGE_FULL
      else inr ((a ++ b ++ c ++ d ++ e)
                ++ drop (length (a ++ b ++ c ++ d ++ e)) zeroPage)).
  { intros Hgt.
    by destruct (Z.gtb_spec (len a + (len b + (len c + (len d + len e))))
                  PAGE_SIZE); [|lia]. }
  change (put (zeroPage, 0) a) with (put ([] ++ zeroPage, len []) a).
  rewrite put_full by done. change (len []) with 0.
  destruct (Z.gtb_spec (0 + len a) PAGE_SIZE) as [?|Ha];
    [apply Hfull; lia|].
  assert (HL1 : len (([] ++ a) ++ drop (length a) zeroPage) = PAGE_SIZE).
  { by apply put_full_len. }
  rewrite put_all_full by done. fold b. cbn [app] in *.
  destruct (Z.gtb_spec (len a + len b) PAGE_SIZE) as [?|Hb];
    [apply Hfull; lia|].
  assert (HL2 : len ((a ++ b) ++ drop (length b) (drop (length a) zeroPage))
                = PAGE_SIZE).
  { by apply put_full_len. }
  rewrite put_full by done.
  destruct (Z.gtb_spec (len (a ++ b) + len c) PAGE_SIZE) as [?|Hc];
    [apply Hfull; rewrite len_app in *; lia|].
  match goal with
  | |- context [put (?pre ++ ?rest, _) d] =>
      assert (HL3 : len (pre ++ rest) = PAGE_SIZE);
      [by apply put_full_len|]
  end.
  rewrite put_full by done.
  destruct (Z.gtb_spec (len ((a ++ b) ++ c) + len d) PAGE_SIZE) as [?|Hd];
    [apply Hfull; rewrite !len_app in *; lia|].
  match goal with
  | |- context [put (?pre ++ ?rest, _) e] =>
      assert (HL4 : len (pre ++ rest) = PAGE_SIZE);
      [by apply put_full_len|]
  end.
  rewrite put_full by done.
  destruct (Z.gtb_spec (len (((a ++ b) ++ c) ++ d) + len e) PAGE_SIZE)
    as [?|He]; [apply Hfull; rewrite !len_app in *; lia|].
  destruct (Z.gtb_spec (len a + (len b + (len c + (len d + len e))))
              PAGE_SIZE); [rewrite !len_app in *; lia|].
  f_equal. rewrite <- !app_assoc. do 5 f_equal.
  rewrite !drop_drop, !length_app. f_equal; lia.
Qed.

(** [serializeSchema] succeeds exactly when the image fits a page, and then
    the page is the image followed by the zeros of [calloc]. *)
Lemma serializeSchema_spec (s : Schema) :
  storable_schema s ->
  serializeSchema s
  = if len (schemaImage s) >? PAGE_SIZE then inl RC_PAGE_FULL
    else inr (schemaImage s ++ drop (length (schemaImage s)) zeroPage).
Proof.
  intros (Hn & Hnames & Hdts & Htls & Hk & Hkeys & _).
  unfold serializeSchema, schemaImage. cbv zeta.
  rewrite !take_len_list by done. by rewrite put_chain.
Qed.

Lemma load_int_image (pre post : bytes) (z : Z) :
  is_int z -> load_int (pre ++ encode_int z ++ post) (len pre) = Some z.
Proof.
  intros Hz. unfold load_int.
  rewrite <- (len_encode_int z), load_app. cbn [fmap option_fmap option_map].
  by rewrite decode_encode_int.
Qed.

Lemma decode_encode_DataType (d : DataType) :
  decode_DataType (encode_DataType d) = Some d.
Proof. by destruct d. Qed.

(** Parsing the image gives the schema back, whatever follows the image. *)
Lemma parseSchema_image (s : Schema) (tail : bytes) :
  storable_schema s -> parseSchema (schemaImage s ++ tail) = Some s.
Proof.
  intros (Hn & Hnames & Hdts & Htls & Hk & Hkeys & Hcs & Hti & Hki).
  destruct s as [nA names dts tls kS kAs]. cbn [numAttr attrNames dataTypes
    typeLength keySize keyAttrs] in *.
  unfold parseSchema, schemaImage. cbn [numAttr attrNames dataTypes
    typeLength keySize keyAttrs].
  set (a := encode_int nA).
  set (b := concat (map (fun nm => bytes_of_string nm ++ [0]) names)).
  set (c := concat (map encode_DataType dts)).
  set (d := concat (map encode_int tls)).
  set (k := concat (map encode_int kAs)).
  assert (Hc : len c = nA * sizeof_int).
  { unfold c. rewrite len_concat_ints by apply len_encode_DataType.
    by rewrite Hdts. }
  assert (Hd : len d = nA * sizeof_int).
  { unfold d. rewrite len_concat_ints by apply len_encode_int.
    by rewrite Htls. }
  unfold len_list in *.
  rewrite <- !app_assoc.
  (* attribute count *)
  pose proof (load_int_image [] (b ++ c ++ d ++ encode_int kS ++ k ++ tail)
                nA) as H0.
  cbn [app] in H0. change (len []) with 0 in H0. fold a in H0.
  rewrite H0 by (unfold is_int; lia). clear H0.
  cbn [mbind option_bind].
  (* names *)
  pose proof (parse_names_image names a
                (c ++ d ++ encode_int kS ++ k ++ tail) Hcs) as H1.
  cbn zeta in H1. fold b in H1.
  replace (length names) with (Z.to_nat nA) in H1 by lia.
  change (len a) with sizeof_int in H1.
  unfold bytes in *. rewrite H1. clear H1. cbn [mbind option_bind].
  (* data types *)
  pose proof (parse_array_image encode_DataType decode_DataType dts (a ++ b)
                (d ++ encode_int kS ++ k ++ tail) len_encode_DataType) as H2.
  change (concat (map encode_DataType dts)) with c in H2.
  rewrite <- !app_assoc, len_app in H2.
  replace (length dts) with (Z.to_nat nA) in H2 by lia.
  change (len a) with sizeof_int in H2.
  unfold bytes in *. rewrite H2
    by (apply Forall_forall; intros; apply decode_encode_DataType).
  clear H2. cbn [mbind option_bind].
  (* type lengths *)
  pose proof (parse_array_image encode_int (fun b => Some (decode_int b)) tls
                ((a ++ b) ++ c) (encode_int kS ++ k ++ tail) len_encode_int)
    as H3.
  change (concat (map encode_int tls)) with d in H3.
  rewrite <- !app_assoc, !len_app, Hc, !Z.add_assoc in H3.
  replace (length tls) with (Z.to_nat nA) in H3 by lia.
  change (len a) with sizeof_int in H3.
  unfold bytes in *. rewrite H3
    by (eapply Forall_impl; [exact Hti|]; intros z Hz; cbn beta;
        by rewrite decode_encode_int).
  clear H3. cbn [mbind option_bind].
  (* key *)
  pose proof (load_int_image (((a ++ b) ++ c) ++ d) (k ++ tail) kS) as H4.
  rewrite <- !app_assoc, !len_app, Hc, Hd, !Z.add_assoc in H4.
  change (len a) with sizeof_int in H4.
  unfold bytes in *. rewrite H4 by (unfold is_int; lia). clear H4.
  cbn [mbind option_bind].
  pose proof (parse_array_image encode_int (fun b => Some (decode_int b)) kAs
                ((((a ++ b) ++ c) ++ d) ++ encode_int kS) tail len_encode_int)
    as H5.
  change (concat (map encode_int kAs)) with k in H5.
  rewrite <- !app_assoc, !len_app, Hc, Hd in H5.
  change (len (encode_int kS)) with sizeof_int in H5.
  rewrite !Z.add_assoc in H5.
  replace (length kAs) with (Z.to_nat kS) in H5 by lia.
  change (len a) with sizeof_int in H5.
  change (len (encode_int kS)) with sizeof_int in H5.
  unfold bytes in *.
  rewrite H5
    by (eapply Forall_impl; [exact Hki|]; intros z Hz; cbn beta;
        by rewrite decode_encode_int).
  done.
Qed.

Lemma len_padded (img : bytes) :
  len img <= PAGE_SIZE -> len (img ++ drop (length img) zeroPage) = PAGE_SIZE.
Proof.
  intros H. rewrite len_app. unfold len in *. rewrite length_drop.
  change (length zeroPage) with (Z.to_nat PAGE_SIZE). lia.
Qed.

Lemma serializeSchema_len (s : Schema) (pg : bytes) :
  storable_schema s -> serializeSchema s = inr pg ->
  len (schemaImage s) <= PAGE_SIZE
  /\ pg = schemaImage s ++ drop (length (schemaImage s)) zeroPage
  /\ len pg = PAGE_SIZE.
Proof.
  intros Hs H. rewrite serializeSchema_spec in H by done.
  destruct (Z.gtb_spec (len (schemaImage s)) PAGE_SIZE); [done|].
  assert (Hpg : pg = schemaImage s ++ drop (length (schemaImage s)) zeroPage)
    by congruence.
  split; [done|]. split; [done|]. rewrite Hpg. by apply len_padded.
Qed.

Lemma take_page (pg : bytes) :
  len pg = PAGE_SIZE -> take (Z.to_nat PAGE_SIZE) pg = pg.
Proof. intros H. apply take_ge. unfold len in H. lia. Qed.

Lemma len_initialDirectoryPage (padding : Padding) :
  len (initialDirectoryPage padding) = PAGE_SIZE.
Proof. destruct padding as [[p0 p1] p2]. reflexivity. Qed.

Lemma initialDirectory_numPages (padding : Padding) :
  load_int (initialDirectoryPage padding) 0 = Some 1.
Proof. destruct padding as [[p0 p1] p2]. by vm_compute. Qed.

Lemma initialDirectory_numPageDP (padding : Padding) :
  load_int (initialDirectoryPage padding) sizeof_int = Some 1.
Proof. destruct padding as [[p0 p1] p2]. by vm_compute. Qed.

(** The entry comes back whatever the padding holds. *)
Lemma initialDirectory_entries (padding : Padding) :
  decode_entries 1 <$> load (initialDirectoryPage padding) (2 * sizeof_int)
                         (1 * sizeof_PageDirectoryEntry)
  = Some [initPageDirectoryEntry 0].
Proof. destruct padding as [[p0 p1] p2]. by vm_compute. Qed.

(** X3. [createTable] reports [RC_PAGE_FULL] exactly when the schema image is
    larger than a page, and leaves the one-page file of [createPageFile]
    then; otherwise the file holds the schema page and the initial
    directory page, whose entry carries the padding of the stack
    variable it was copied from. *)
Theorem createTable_page_full (tableName : string) (s : Schema)
    (padding : Padding) :
  storable_schema s ->
  createTable tableName s padding
  = if len (schemaImage s) >? PAGE_SIZE
    then (RC_PAGE_FULL, createPageFile)
    else (RC_OK,
          [schemaImage s ++ drop (length (schemaImage s)) zeroPage;
           initialDirectoryPage padding]).
Proof.
  intros Hs. unfold createTable.
  destruct (serializeSchema s) as [rc|pg] eqn:Hser.
  - rewrite serializeSchema_spec in Hser by done.
    destruct (len (schemaImage s) >? PAGE_SIZE); congruence.
  - destruct (serializeSchema_len _ _ Hs Hser) as (Hle & Hpg & Hlen).
    destruct (Z.gtb_spec (len (schemaImage s)) PAGE_SIZE); [lia|].
    f_equal. unfold writeBlock.
    rewrite (take_page pg) by done.
    rewrite (take_page (initialDirectoryPage padding))
      by apply len_initialDirectoryPage.
    by rewrite <- Hpg.
Qed.

Lemma pinPage_empty (f : PageFile) (n : Z) :
  pinPage initBufferPool f n
  = ([{| pageNum := n; frameData := readBlock n f; dirty := false |}], f).
Proof. reflexivity. Qed.

Lemma pinPage_second (fr : Frame) (f : PageFile) (n : Z) :
  pageNum fr <> n ->
  pinPage [fr] f n
  = ([{| pageNum := n; frameData := readBlock n f; dirty := false |}; fr], f).
Proof.
  intros Hne. unfold pinPage, findFrame, isFrameOf, BM_BufferPool in *.
  rewrite filter_cons_False; [done|]. by destruct (Z.eqb_spec (pageNum fr) n).
Qed.

(** A directory of one entry for data page 0 is well formed. *)
Lemma dir_wf_single (m : RM_managementData) (e0 : PageDirectoryEntry) :
  numPages m = numPageDP m ->
  1 <= numPageDP m ->
  pageDirectory m = [e0] ->
  pageID e0 = 0 ->
  0 <= recordCount e0 ->
  dir_wf m.
Proof.
  intros HnP HDP Hd Hid Hrc. unfold dir_wf, numDataPages. rewrite Hd.
  split; [done|]. split; [unfold len_list; cbn [length]; lia|].
  intros i e He. pose proof (dir_get_range _ _ _ He) as Hi.
  unfold len_list in Hi. cbn [length] in Hi.
  assert (i = 0) as -> by lia.
  assert (e = e0) as -> by (by injection He).
  done.
Qed.

(** X4. Opening the file that [createTable] wrote gives the schema back, and a
    well-formed directory of one directory page and one empty data page,
    whatever the padding of the initial entry. *)
Theorem createTable_then_openTable (tableName : string) (s : Schema)
    (padding : Padding) (f : PageFile) :
  storable_schema s ->
  createTable tableName s padding = (RC_OK, f) ->
  exists m,
    openTable f tableName
    = Some (RC_OK,
            {| file := f;
               rel := {| name := tableName; schema := Ptr s;
                         managementData := Ptr m |} |})
    /\ numPages m = 1
    /\ numPageDP m = 1
    /\ pageDirectory m = [initPageDirectoryEntry 0]
    /\ dir_wf m.
Proof.
  intros Hs H. unfold createTable in H.
  destruct (serializeSchema s) as [rc|pg] eqn:Hser.
  { rewrite serializeSchema_spec in Hser by done.
    destruct (len (schemaImage s) >? PAGE_SIZE); congruence. }
  destruct (serializeSchema_len _ _ Hs Hser) as (Hle & Hpg & Hlen).
  assert (Hf : f = [pg; initialDirectoryPage padding]).
  { unfold writeBlock in H. rewrite (take_page pg) in H by done.
    rewrite (take_page (initialDirectoryPage padding)) in H
      by apply len_initialDirectoryPage.
    apply (f_equal snd) in H. cbn [snd] in H. by rewrite <- H. }
  clear H. subst f. rewrite Hpg.
  exists {| numPages := 1; numPageDP := 1;
            pageDirectory := [initPageDirectoryEntry 0];
            bm := [{| pageNum := 1;
                      frameData := initialDirectoryPage padding;
                      dirty := false |};
                   {| pageNum := 0;
                      frameData :=
                        schemaImage s
                        ++ drop (length (schemaImage s)) zeroPage;
                      dirty := false |}] |}.
  split; [|split; [done|split; [done|split; [done|]]];
           by apply dir_wf_single with (initPageDirectoryEntry 0)].
  unfold openTable. rewrite pinPage_empty.
  cbn [pinnedData frameData]. unfold unpinPage.
  change (readBlock 0 [?a; ?b]) with a.
  rewrite parseSchema_image by done. cbn [mbind option_bind].
  unfold loadPageDirectoryFromDisk. rewrite pinPage_second by done.
  cbn [pinnedData frameData]. unfold unpinPage.
  change (readBlock 1 [?a; ?b]) with b.
  rewrite initialDirectory_numPages. cbn [mbind option_bind].
  rewrite initialDirectory_numPageDP. cbn [mbind option_bind].
  change (1 - 1 + 1) with 1.
  pose proof (initialDirectory_entries padding) as He.
  destruct (load (initialDirectoryPage padding) (2 * sizeof_int)
              (1 * sizeof_PageDirectoryEntry)) as [body|]; [|done].
  cbn [fmap option_fmap option_map] in He.
  assert (He' : decode_entries 1 body = [initPageDirectoryEntry 0])
    by congruence.
  cbn [mbind option_bind]. change (Z.to_nat 1) with 1%nat. rewrite He'.
  reflexivity.
Qed.

Lemma decode_encode_entry_padded (padding : Padding)
    (e : PageDirectoryEntry) (rest : bytes) :
  entry_ints e ->
  decode_entry (take 16 (encode_entry_padded padding e ++ rest)) = e.
Proof.
  intros (Hp & Hf & Hr). destruct e as [p h fs rc].
  destruct padding as [[p0 p1] p2].
  cbn [pageID freeSpace recordCount] in *.
  unfold decode_entry, encode_entry_padded, padding_bytes.
  cbn [pageID hasFreeSlot freeSpace recordCount].
  change (take 4 (take 16 ((encode_int p ++ encode_bool h ++ [p0; p1; p2]
            ++ encode_int fs ++ encode_int rc) ++ rest)))
    with (encode_int p).
  change (take 1 (drop 4 (take 16 ((encode_int p ++ encode_bool h
            ++ [p0; p1; p2] ++ encode_int fs ++ encode_int rc) ++ rest))))
    with (encode_bool h).
  change (take 4 (drop 8 (take 16 ((encode_int p ++ encode_bool h
            ++ [p0; p1; p2] ++ encode_int fs ++ encode_int rc) ++ rest))))
    with (encode_int fs).
  change (take 4 (drop 12 (take 16 ((encode_int p ++ encode_bool h
            ++ [p0; p1; p2] ++ encode_int fs ++ encode_int rc) ++ rest))))
    with (encode_int rc).
  by rewrite !decode_encode_int, decode_encode_bool.
Qed.

Lemma decode_encode_entry (e : PageDirectoryEntry) (rest : bytes) :
  entry_ints e ->
  decode_entry (take 16 (encode_entry e ++ rest)) = e.
Proof. apply decode_encode_entry_padded. Qed.

Lemma len_encode_entry (e : PageDirectoryEntry) :
  len (encode_entry e) = sizeof_PageDirectoryEntry.
Proof. reflexivity. Qed.

Lemma decode_entries_image (d : list PageDirectoryEntry) (rest : bytes) :
  Forall entry_ints d ->
  decode_entries (length d) (concat (map encode_entry d) ++ rest) = d.
Proof.
  induction 1 as [|e d He Hd IH]; [done|].
  cbn [length decode_entries map concat]. rewrite <- app_assoc.
  rewrite decode_encode_entry by done. f_equal.
  change 16%nat with (length (encode_entry e)).
  unfold bytes in *. by rewrite drop_app_length.
Qed.

Lemma readBlock_writeBlock (pos : Z) (f : PageFile) (pg : bytes) :
  0 <= pos -> len pg = PAGE_SIZE -> readBlock pos (writeBlock pos f pg) = pg.
Proof.
  intros Hpos Hlen. unfold readBlock, writeBlock.
  rewrite take_page by done. apply nth_lookup_Some.
  apply list_lookup_insert_eq. unfold ensureBlocks.
  rewrite length_app, length_replicate. lia.
Qed.

Lemma pinPage_miss (bm0 : BM_BufferPool) (f : PageFile) (n : Z) :
  findFrame bm0 n = None ->
  len_list bm0 < BUFFER_PAGE_LIMIT ->
  pinPage bm0 f n
  = ({| pageNum := n; frameData := readBlock n f; dirty := false |} :: bm0,
     f).
Proof.
  intros Hf Hl. unfold pinPage. rewrite Hf.
  by destruct (Z.ltb_spec (len_list bm0) BUFFER_PAGE_LIMIT); [|lia].
Qed.

(** X5. The directory page that [savePageDirectoryToDisk] writes is read back by
    [loadPageDirectoryFromDisk] as the same directory, for a table with one
    directory page and fewer than [maxEntriesPerPage] data pages, whose
    directory goes to block 1. *)
Theorem savePageDirectory_then_load (m : RM_managementData)
    (f f' : PageFile) (rc : RC) (bm0 : BM_BufferPool) :
  numPageDP m = 1 ->
  1 <= numPages m < maxEntriesPerPage ->
  len_list (pageDirectory m) = numPages m ->
  Forall entry_ints (pageDirectory m) ->
  savePageDirectoryToDisk m f = Some (rc, f') ->
  findFrame bm0 1 = None ->
  len_list bm0 < BUFFER_PAGE_LIMIT ->
  loadPageDirectoryFromDisk bm0 f'
  = Some (RC_OK,
          {| numPages := numPages m; numPageDP := 1;
             pageDirectory := pageDirectory m;
             bm := {| pageNum := 1; frameData := readBlock 1 f';
                      dirty := false |} :: bm0 |},
          f').
Proof.
  intros HDP HnP Hlen Hints Hsave Hmiss Hpool.
  unfold savePageDirectoryToDisk, numDataPages in Hsave. cbv zeta in Hsave.
  rewrite HDP in Hsave.
  replace (numPages m - 1 + 1) with (numPages m) in Hsave by lia.
  destruct (Z.ltb_spec (numPages m) 0); [lia|].
  destruct (Z.ltb_spec (len_list (pageDirectory m)) (numPages m)); [lia|].
  cbn [orb] in Hsave.
  rewrite (take_len_list (pageDirectory m)) in Hsave by done.
  replace (numPages m ÷ maxEntriesPerPage * maxEntriesPerPage + 1) with 1
    in Hsave.
  2:{ rewrite Z.quot_small by lia. lia. }
  pose proof maxEntriesPerPage_value as Hmax.
  set (body := concat (map encode_entry (pageDirectory m))) in *.
  assert (Hbody : len body = numPages m * sizeof_PageDirectoryEntry).
  { unfold body. rewrite <- Hlen. clear.
    induction (pageDirectory m) as [|e d IH]; [done|].
    cbn [map concat]. rewrite len_app, IH, len_encode_entry.
    unfold len_list. cbn [length]. lia. }
  set (image := encode_int (numPages m) ++ encode_int 1 ++ body) in *.
  assert (Himg : len image <= PAGE_SIZE).
  { unfold image. rewrite !len_app, Hbody, !len_encode_int.
    rewrite maxEntriesPerPage_value in HnP.
    unfold sizeof_PageDirectoryEntry, sizeof_int, PAGE_SIZE. lia. }
  destruct (store zeroPage 0 image) as [pg|] eqn:Hst;
    cbn [mbind option_bind] in Hsave; [|done].
  assert (Hpg : exists tail, pg = image ++ tail /\ len pg = PAGE_SIZE).
  { pose proof (store_len _ _ _ _ Hst) as Hl.
    apply store_inv in Hst as (_ & _ & ->). by eexists. }
  destruct Hpg as (tail & Hpg & Hpglen).
  assert (Hf' : f' = writeBlock 1 f pg) by congruence. clear Hsave.
  unfold loadPageDirectoryFromDisk. rewrite pinPage_miss by done.
  cbn [pinnedData frameData]. unfold unpinPage.
  assert (Hread : readBlock 1 f' = pg).
  { rewrite Hf'. by apply readBlock_writeBlock. }
  cbv zeta. rewrite !Hread, Hpg. unfold image.
  pose proof (load_int_image [] (encode_int 1 ++ body ++ tail) (numPages m))
    as HL0.
  cbn [app] in HL0. change (len []) with 0 in HL0. rewrite <- !app_assoc.
  unfold bytes in *.
  rewrite HL0 by (unfold is_int; rewrite maxEntriesPerPage_value in HnP; lia).
  cbn [mbind option_bind].
  pose proof (load_int_image (encode_int (numPages m)) (body ++ tail) 1)
    as HL1.
  change (len (encode_int (numPages m))) with sizeof_int in HL1.
  unfold bytes in *. rewrite HL1 by (by vm_compute).
  cbn [mbind option_bind].
  replace (numPages m - 1 + 1) with (numPages m) by lia.
  pose proof (load_app (encode_int (numPages m) ++ encode_int 1) body tail)
    as HL2.
  rewrite <- app_assoc, Hbody in HL2.
  change (len (encode_int (numPages m) ++ encode_int 1))
    with (2 * sizeof_int) in HL2.
  unfold bytes in *. rewrite HL2. cbn [mbind option_bind].
  do 3 f_equal. f_equal.
  replace (Z.to_nat (numPages m)) with (length (pageDirectory m))
    by (unfold len_list in Hlen; lia).
  rewrite <- (app_nil_r body). by apply decode_entries_image.
Qed.

Lemma dir_set_length (d d' : list PageDirectoryEntry) (i : Z)
    (e : PageDirectoryEntry) :
  dir_set d i e = Some d' -> len_list d' = len_list d.
Proof.
  unfold dir_set, len_list. intros H. bind_step H; [|done].
  injection H as <-. by rewrite length_insert.
Qed.

Lemma dir_set_range (d d' : list PageDirectoryEntry) (i : Z)
    (e : PageDirectoryEntry) :
  dir_set d i e = Some d' -> 0 <= i < len_list d.
Proof.
  unfold dir_set. intros H. bind_step H; [|done].
  apply andb_true_iff in E as [H1 H2]. apply Z.leb_le in H1.
  apply Z.ltb_lt in H2. lia.
Qed.

Lemma updatePageStatistics_length (m m' : RM_managementData) (sch : Schema)
    (i c : Z) (b : bool) :
  updatePageStatistics m sch i c b = Some m' ->
  len_list (pageDirectory m') = len_list (pageDirectory m).
Proof.
  unfold updatePageStatistics. intros H. do 2 bind_step H.
  injection H as <-. cbn [pageDirectory with_directory].
  by eapply dir_set_length.
Qed.

(** [updatePageStatistics] keeps a well-formed directory well-formed. *)
Lemma updatePageStatistics_wf (m m' : RM_managementData) (sch : Schema)
    (i c : Z) (b : bool) :
  updatePageStatistics m sch i c b = Some m' -> dir_wf m -> dir_wf m'.
Proof.
  intros H (HDP & Hlen & Hent).
  pose proof (updatePageStatistics_length _ _ _ _ _ _ H) as Hl.
  unfold updatePageStatistics in H. do 2 bind_step H. injection H as <-.
  unfold dir_wf, numDataPages in *. cbn in *.
  split; [done|]. split; [lia|]. intros j e Hj.
  rewrite (dir_get_dir_set _ _ _ j _ E0) in Hj.
  destruct (decide (j = i)) as [->|_]; [|by apply Hent].
  injection Hj as <-. cbn. by apply Hent.
Qed.

Lemma growDirectoryChain_wf (m m' : RM_managementData) (f f' : PageFile) :
  growDirectoryChain m f = (m', f') -> dir_wf m -> dir_wf m'.
Proof.
  unfold growDirectoryChain, dir_wf, numDataPages. intros H (HDP & Hlen & Hent).
  destruct (numPages m >? maxEntriesPerPage * numPageDP m);
    injection H as <- <-; cbn; [|done].
  split; [lia|]. split; [lia|done].
Qed.

Lemma findFreePageIndex_from_range (n : nat) (d : list PageDirectoryEntry)
    (i k : Z) :
  findFreePageIndex_from n d i = Some k ->
  k = -1 \/ (i <= k < i + Z.of_nat n
             /\ exists e, dir_get d k = Some e /\ hasFreeSlot e = true).
Proof.
  revert i. induction n as [|n IH]; intros i H; cbn in H.
  - injection H as <-. by left.
  - bind_step H. bind_step H.
    + injection H as <-. right. split; [lia|]. by exists p.
    + apply IH in H as [->|(Hk & He)]; [by left|right]. split; [lia|done].
Qed.

Lemma choosePage_wf (m m' : RM_managementData) (f f' : PageFile)
    (pageIndex : Z) :
  choosePage m f = Some (pageIndex, m', f') ->
  dir_wf m ->
  dir_wf m' /\ 0 <= pageIndex < numDataPages m'.
Proof.
  unfold choosePage. intros H (HDP & Hlen & Hent). bind_step H.
  bind_step H.
  - bind_step H. injection H as <- <- <-.
    pose proof (dir_set_length _ _ _ _ E1) as Hl.
    unfold dir_wf, numDataPages, len_list in *. cbn in *.
    rewrite length_resize in Hl.
    split; [|lia]. split; [done|]. split; [lia|]. intros j e Hj.
    rewrite (dir_get_dir_set _ _ _ j _ E1) in Hj.
    destruct (decide (j = numPages m - numPageDP m + 1)) as [->|Hne].
    + injection Hj as <-. cbn. split; lia.
    + apply Hent. unfold dir_get in *.
      destruct (Z.ltb_spec j 0); [done|].
      pose proof (lookup_lt_Some _ _ _ Hj) as Hlt.
      rewrite length_resize in Hlt.
      rewrite lookup_resize in Hj; [done|lia|lia].
  - injection H as <- <- <-.
    split; [done|].
    unfold findFreePageIndex in E.
    apply findFreePageIndex_from_range in E as [->|(Hk & _)]; [done|]. lia.
Qed.

(** ** Memory blocks, byte by byte *)

Lemma store_lookup (mem mem' src : bytes) (off : Z) (i : nat) :
  store mem off src = Some mem' ->
  mem' !! i
  = if decide (off <= Z.of_nat i < off + len src)
    then src !! (i - Z.to_nat off)%nat
    else mem !! i.
Proof.
  intros (Ho & Hl & ->)%store_inv. unfold len, bytes in *.
  assert (Ht : length (take (Z.to_nat off) mem) = Z.to_nat off).
  { rewrite length_take. lia. }
  destruct (decide (off <= Z.of_nat i < off + Z.of_nat (length src))).
  - rewrite lookup_app_r; rewrite Ht; [|lia].
    by rewrite lookup_app_l by lia.
  - destruct (decide (Z.of_nat i < off)).
    + rewrite lookup_app_l; [|rewrite Ht; lia]. apply lookup_take_lt. lia.
    + rewrite lookup_app_r; rewrite Ht; [|lia].
      rewrite lookup_app_r by lia. rewrite lookup_drop. f_equal. lia.
Qed.

Lemma load_lookup (mem b : bytes) (off n : Z) (i : nat) :
  load mem off n = Some b ->
  b !! i = if decide (Z.of_nat i < n) then mem !! (Z.to_nat off + i)%nat
           else None.
Proof.
  intros (Ho & Hn & Hl & ->)%load_inv. unfold bytes in *.
  destruct (decide (Z.of_nat i < n)).
  - rewrite lookup_take_lt by lia. apply lookup_drop.
  - apply lookup_take_ge. lia.
Qed.

Lemma load_length (mem b : bytes) (off n : Z) :
  load mem off n = Some b -> len b = n.
Proof.
  intros (Ho & Hn & Hl & ->)%load_inv. unfold len in *.
  rewrite length_take, length_drop. lia.
Qed.

(** A [store] does not change what a [load] of a disjoint range sees. *)
Lemma load_store_other (mem mem' src : bytes) (off off' n : Z) :
  store mem off src = Some mem' ->
  off' + n <= off \/ off + len src <= off' ->
  load mem' off' n = load mem off' n.
Proof.
  intros Hst Hdis. pose proof (store_len _ _ _ _ Hst) as Hlen.
  unfold load. rewrite Hlen.
  destruct ((0 <=? off') && (0 <=? n) && (off' + n <=? len mem)) eqn:Hin;
    [|done].
  apply andb_true_iff in Hin as [Hin Hl]. apply andb_true_iff in Hin as [Ho Hn].
  apply Z.leb_le in Hl, Ho, Hn. f_equal. unfold bytes in *.
  apply list_eq. intros i.
  destruct (decide (Z.of_nat i < n)).
  - rewrite !lookup_take_lt by lia. rewrite !lookup_drop.
    rewrite (store_lookup _ _ _ _ _ Hst).
    destruct (decide (off <= Z.of_nat (Z.to_nat off' + i)%nat
                      < off + len src)); [lia|done].
  - rewrite !lookup_take_ge by lia. done.
Qed.

(** ** The pinned page *)

Lemma findFrame_head (fr : Frame) (rest : BM_BufferPool) (n : Z) :
  pageNum fr = n -> findFrame (fr :: rest) n = Some fr.
Proof.
  intros Hn. unfold findFrame, BM_BufferPool in *.
  rewrite filter_cons_True; [done|].
  unfold isFrameOf. by apply Z.eqb_eq.
Qed.

Lemma findFrame_pageNum (b : BM_BufferPool) (n : Z) (fr : Frame) :
  findFrame b n = Some fr -> pageNum fr = n.
Proof.
  unfold findFrame, BM_BufferPool in *. intros H.
  assert (Hin : fr ∈ filter (fun fr => isFrameOf n fr = true) b).
  { destruct (filter _ b); [done|]. injection H as ->. apply list_elem_of_here. }
  apply list_elem_of_filter in Hin as [Hn _]. by apply Z.eqb_eq in Hn.
Qed.

(** After [pinPage] the pool starts with the frame of the page, and the
    frame holds what a reader of the page would have found. *)
Lemma pinPage_pinned (b b' : BM_BufferPool) (f f' : PageFile) (n : Z) :
  pinPage b f n = (b', f') ->
  exists fr rest, b' = fr :: rest /\ pageNum fr = n
                  /\ frameData fr = peekPage b f n.
Proof.
  unfold pinPage, peekPage. intros H.
  destruct (findFrame b n) as [fr|] eqn:Hfind.
  - injection H as <- <-. exists fr, (dropFrame b n).
    by rewrite (findFrame_pageNum _ _ _ Hfind).
  - destruct (len_list b <? BUFFER_PAGE_LIMIT).
    + injection H as <- <-. by eexists _, _.
    + destruct (last b); injection H as <- <-; by eexists _, _.
Qed.

(** Pinning the page that is already at the head of the pool returns the
    frame as it stands. *)
Lemma pinPage_again (fr : Frame) (rest : BM_BufferPool) (f : PageFile) (n : Z) :
  pageNum fr = n ->
  pinnedData (fst (pinPage (fr :: rest) f n)) = frameData fr
  /\ snd (pinPage (fr :: rest) f n) = f.
Proof.
  intros Hn. unfold pinPage. by rewrite (findFrame_head _ _ _ Hn).
Qed.

Lemma peekPage_head (fr : Frame) (rest : BM_BufferPool) (f : PageFile) (n : Z) :
  pageNum fr = n -> peekPage (fr :: rest) f n = frameData fr.
Proof. intros Hn. unfold peekPage. by rewrite (findFrame_head _ _ _ Hn). Qed.

(** ** Deleting a record *)

(** What a successful [deleteRecord] has done, step by step. *)
Lemma deleteRecord_OK_inv (db db' : DB) (rid : RID) (m : RM_managementData) :
  managementData (rel db) = Ptr m ->
  deleteRecord db rid = Some (RC_OK, db') ->
  exists b1 f1 pd1 o pd2 sch m1 f2,
    isValidRecordID rid (numPages m) = true
    /\ pinPage (bm m) (file db) (recordPageNum m (page rid)) = (b1, f1)
    /\ slot_isFree (pinnedData b1) (slot rid) = Some false
    /\ set_slot_isFree (pinnedData b1) (slot rid) true = Some pd1
    /\ slot_offset pd1 (slot rid) = Some o
    /\ store pd1 o [DELETED_RECORD_MARKER] = Some pd2
    /\ schema (rel db) = Ptr sch
    /\ updatePageStatistics (with_bm m (setPinnedData b1 pd2)) sch (page rid)
         (computeRecordSize sch) false = Some m1
    /\ savePageDirectoryToDisk m1 f1 = Some (RC_OK, f2)
    /\ db' = with_mgmt db (with_bm m1 (unpinPage (markDirty (bm m1)))) f2.
Proof.
  intros Hm H. unfold deleteRecord in H. rewrite Hm in H.
  cbn [isNull deref mbind option_bind] in H.
  bind_step H; [done|]. do 3 bind_step H; [done|].
  do 6 bind_step H. bind_step H. injection H as <-.
  match goal with Hs : savePageDirectoryToDisk _ _ = Some (?r, _) |- _ =>
    pose proof (savePageDirectoryToDisk_rc _ _ _ _ Hs) as -> end.
  match goal with Hv : negb _ = false |- _ =>
    apply negb_false_iff in Hv end.
  match goal with Hd : deref (schema (rel db)) = Some _ |- _ =>
    destruct (schema (rel db)) eqn:Hsch; try done; injection Hd as -> end.
  by eexists _, _, _, _, _, _, _, _.
Qed.

(** The marker byte cannot clear the free flag: where it lands on the flag
    it leaves a non-zero byte. *)
Lemma tombstone_keeps_free (pd pd1 pd2 : bytes) (s o : Z) :
  set_slot_isFree pd s true = Some pd1 ->
  store pd1 o [DELETED_RECORD_MARKER] = Some pd2 ->
  slot_isFree pd2 s = Some true.
Proof.
  unfold set_slot_isFree, slot_isFree, load_bool. intros H1 H2.
  set (a := s * sizeof_SlotDirectoryEntry + sizeof_int) in *.
  pose proof (load_store_same _ _ _ _ H1) as Hflag.
  pose proof (load_store_same _ _ _ _ H2) as Hmark.
  change (len _) with sizeof_bool in Hflag, Hmark.
  destruct (decide (o = a)) as [->|Hne].
  - by rewrite Hmark.
  - rewrite (load_store_other _ _ _ _ _ _ H2); [by rewrite Hflag|].
    change (len [DELETED_RECORD_MARKER]) with 1. unfold sizeof_bool. lia.
Qed.

Lemma with_mgmt_managementData (db : DB) (m : RM_managementData) (f : PageFile) :
  managementData (rel (with_mgmt db m f)) = Ptr m.
Proof. reflexivity. Qed.

(** The table after a successful delete: the counters are those of before
    and the pool starts with the page of the record, whose slot is free and
    whose payload starts with the marker. *)
Lemma deleteRecord_OK_state (db db' : DB) (rid : RID) (m : RM_managementData) :
  managementData (rel db) = Ptr m ->
  deleteRecord db rid = Some (RC_OK, db') ->
  exists m' fr rest o,
    managementData (rel db') = Ptr m'
    /\ schema (rel db') = schema (rel db)
    /\ numPages m' = numPages m /\ numPageDP m' = numPageDP m
    /\ isValidRecordID rid (numPages m) = true
    /\ bm m' = fr :: rest
    /\ pageNum fr = recordPageNum m (page rid)
    /\ slot_isFree (frameData fr) (slot rid) = Some true
    /\ slot_offset (peekPage (bm m) (file db) (recordPageNum m (page rid)))
         (slot rid) = Some o
    /\ load (frameData fr) o 1 = Some [DELETED_RECORD_MARKER].
Proof.
  intros Hm H.
  destruct (deleteRecord_OK_inv _ _ _ _ Hm H)
    as (b1 & f1 & pd1 & o & pd2 & sch & m1 & f2 & Hv & Hpin & Hfr & Hset & Hoff
        & Hmark & Hsch & Hupd & Hsave & ->).
  apply updatePageStatistics_entries in Hupd as (HnP & HnDP & Hbm & _).
  destruct (pinPage_pinned _ _ _ _ _ Hpin) as (fr & rest & -> & Hnum & Hdata).
  cbn [bm with_bm setPinnedData pinnedData numPages numPageDP] in *.
  eexists _, _, _, o. split; [reflexivity|].
  cbn [bm with_bm unpinPage numPages numPageDP]. rewrite Hbm.
  cbn [markDirty pageNum frameData].
  split; [done|]. split; [done|]. split; [done|]. split; [done|].
  split; [reflexivity|]. split; [done|].
  split; [by eapply tombstone_keeps_free|].
  split; [|exact (load_store_same _ _ _ _ Hmark)].
  rewrite <- Hdata, <- Hoff. unfold slot_offset, load_int. f_equal.
  symmetry. apply (load_store_other _ _ _ _ _ _ Hset).
  left. unfold sizeof_int. lia.
Qed.

(** X6. After a successful [deleteRecord] the record is gone: [getRecord], a
    second [deleteRecord] and [updateRecord] all report it as not found. *)
Theorem deleteRecord_hides (db db' : DB) (rid : RID) (m : RM_managementData)
    (record : RM_Record) :
  managementData (rel db) = Ptr m ->
  deleteRecord db rid = Some (RC_OK, db') ->
  (exists db'', getRecord db' rid record
                = Some (RC_RM_RECORD_NOT_FOUND, db'', record))
  /\ (exists db'', deleteRecord db' rid = Some (RC_RM_RECORD_NOT_FOUND, db''))
  /\ (id record = rid ->
      exists db'', updateRecord db' record
                   = Some (RC_RM_RECORD_NOT_FOUND, db'', record)).
Proof.
  intros Hm H.
  destruct (deleteRecord_OK_state _ _ _ _ Hm H)
    as (m' & fr & rest & o & Hm' & _ & HnP & HnDP & Hv & Hbm & Hnum & Hfree & _).
  assert (Hn : recordPageNum m' (page rid) = pageNum fr).
  { unfold recordPageNum in *. by rewrite HnDP. }
  destruct (pinPage_again fr rest (file db') _ (eq_sym Hn)) as [Hdata Hfile].
  split.
  - unfold getRecord. rewrite Hm'. cbn [isNull deref mbind option_bind].
    rewrite HnP, Hv. cbn [negb]. rewrite Hbm.
    destruct (pinPage (fr :: rest) (file db') (recordPageNum m' (page rid)))
      as [b' f'] eqn:Hpin.
    cbn [fst snd] in *. rewrite Hdata, Hfree. cbn [mbind option_bind].
    by eexists.
  - split.
    + unfold deleteRecord. rewrite Hm'. cbn [isNull deref mbind option_bind].
      rewrite HnP, Hv. cbn [negb]. rewrite Hbm.
      destruct (pinPage (fr :: rest) (file db') (recordPageNum m' (page rid)))
        as [b' f'] eqn:Hpin.
      cbn [fst snd] in *. rewrite Hdata, Hfree. cbn [mbind option_bind].
      by eexists.
    + intros Hid. unfold updateRecord. rewrite Hm', Hid.
      cbn [isNull deref mbind option_bind]. cbv zeta.
      rewrite HnP, Hv. cbn [negb]. rewrite Hbm.
      destruct (pinPage (fr :: rest) (file db') (recordPageNum m' (page rid)))
        as [b' f'] eqn:Hpin.
      cbn [fst snd] in *. rewrite Hdata, Hfree. cbn [mbind option_bind].
      by eexists.
Qed.

(** X7. After a successful [deleteRecord] the payload of the record, at the
    offset its slot gave before, starts with the marker byte 0xFD. *)
Theorem deleteRecord_writes_marker (db db' : DB) (rid : RID)
    (m : RM_managementData) :
  managementData (rel db) = Ptr m ->
  deleteRecord db rid = Some (RC_OK, db') ->
  exists m' o,
    managementData (rel db') = Ptr m'
    /\ slot_offset (peekPage (bm m) (file db) (recordPageNum m (page rid)))
         (slot rid) = Some o
    /\ load (peekPage (bm m') (file db') (recordPageNum m' (page rid))) o 1
       = Some [DELETED_RECORD_MARKER].
Proof.
  intros Hm H.
  destruct (deleteRecord_OK_state _ _ _ _ Hm H)
    as (m' & fr & rest & o & Hm' & _ & HnP & HnDP & Hv & Hbm & Hnum & _ & Hoff
        & Hmark).
  exists m', o. split; [done|]. split; [done|].
  rewrite Hbm, peekPage_head; [done|].
  unfold recordPageNum in *. by rewrite HnDP.
Qed.

(** What a successful [insertRecord] has done, step by step. *)
Lemma insertRecord_OK_inv (db db' : DB) (record record' : RM_Record) (rc : RC)
    (m : RM_managementData) :
  managementData (rel db) = Ptr m ->
  insertRecord db record = Some (rc, db', record') ->
  exists sch m1 f1 pageIndex m2 f2 e b1 f3 found d1 pd1 pd2 buf src pd3 m3 f4,
    rc = RC_OK
    /\ schema (rel db) = Ptr sch
    /\ growDirectoryChain m (file db) = (m1, f1)
    /\ choosePage m1 f1 = Some (pageIndex, m2, f2)
    /\ dir_get (pageDirectory m2) pageIndex = Some e
    /\ pinPage (bm m2) f2 (pageID e + numPageDP m2 + 1) = (b1, f3)
    /\ locateFreeSlot (pinnedData b1) (recordCount e) = Some found
    /\ dir_set (pageDirectory m2) pageIndex
         {| pageID := pageID e; hasFreeSlot := hasFreeSlot e;
            freeSpace := freeSpace e; recordCount := insertCount e found |}
       = Some d1
    /\ set_slot_offset (pinnedData b1) (insertSlot e found)
         (PAGE_SIZE - insertCount e found * computeRecordSize sch) = Some pd1
    /\ set_slot_isFree pd1 (insertSlot e found) false = Some pd2
    /\ data record = Some buf
    /\ load buf 0 (computeRecordSize sch) = Some src
    /\ store pd2 (PAGE_SIZE - insertCount e found * computeRecordSize sch) src
       = Some pd3
    /\ updatePageStatistics
         (with_bm (with_directory m2 d1) (setPinnedData b1 pd3)) sch pageIndex
         (- (computeRecordSize sch + sizeof_SlotDirectoryEntry)) true = Some m3
    /\ savePageDirectoryToDisk m3 f3 = Some (RC_OK, f4)
    /\ db' = with_mgmt db (with_bm m3 (unpinPage (markDirty (bm m3)))) f4
    /\ record' = {| id := {| page := pageID e; slot := insertSlot e found |};
                    data := data record |}.
Proof.
  intros Hm H. unfold insertRecord in H. rewrite Hm in H.
  cbn [isNull deref mbind option_bind] in H.
  bind_step H. bind_step H. bind_step H. destruct p0 as [[pageIndex m2] f2].
  do 3 bind_step H. do 6 bind_step H. bind_step H. bind_step H.
  destruct p2 as [rc' f4]. injection H as <- <- <-.
  match goal with Hs : savePageDirectoryToDisk _ _ = Some (?r, _) |- _ =>
    pose proof (savePageDirectoryToDisk_rc _ _ _ _ Hs) as -> end.
  match goal with Hd : deref (schema (rel db)) = Some _ |- _ =>
    destruct (schema (rel db)) eqn:Hsch; try done; injection Hd as -> end.
  match goal with
  | He : dir_get (pageDirectory m2) pageIndex = Some ?e,
    Hl : locateFreeSlot _ _ = Some ?z |- _ =>
      eexists _, _, _, _, _, _, e, _, _, z;
      unfold insertSlot, insertCount;
      destruct e as [pid hfs fs cnt];
      cbn [recordCount pageID hasFreeSlot freeSpace] in *;
      destruct (z =? -1)
  end;
    repeat (first [eassumption | reflexivity | esplit]);
    match goal with Hd : data record = Some _ |- _ => by rewrite Hd end.
Qed.

(** ** The directory stays well-formed *)

Lemma insertRecord_wf (db db' : DB) (record record' : RM_Record) (rc : RC)
    (m : RM_managementData) :
  managementData (rel db) = Ptr m ->
  insertRecord db record = Some (rc, db', record') ->
  dir_wf m ->
  exists m', managementData (rel db') = Ptr m' /\ dir_wf m'.
Proof.
  intros Hm H Hwf.
  destruct (insertRecord_OK_inv _ _ _ _ _ _ Hm H)
    as (sch & m1 & f1 & pageIndex & m2 & f2 & e & b1 & f3 & found & d1 & pd1
        & pd2 & buf & src & pd3 & m3 & f4 & -> & Hsch & Hgrow & Hchoose & He
        & Hpin & Hfound & Hset & Hoff & Hfree & Hdata & Hload & Hstore & Hupd
        & Hsave & -> & ->).
  eexists. split; [reflexivity|].
  apply (growDirectoryChain_wf _ _ _ _ Hgrow) in Hwf.
  apply (choosePage_wf _ _ _ _ _ Hchoose) in Hwf as [Hwf Hidx].
  assert (Hwf3 : dir_wf m3).
  { apply (updatePageStatistics_wf _ _ _ _ _ _ Hupd).
    destruct Hwf as (HDP & Hlen & Hent).
    pose proof (dir_set_length _ _ _ _ Hset) as Hl.
    unfold dir_wf, numDataPages in *. cbn in *.
    split; [done|]. split; [lia|]. intros j e' Hj.
    rewrite (dir_get_dir_set _ _ _ j _ Hset) in Hj.
    destruct (decide (j = pageIndex)) as [->|_]; [|by apply Hent].
    injection Hj as <-. cbn. destruct (Hent _ _ He) as [Hid Hcnt].
    split; [done|]. unfold insertCount. destruct (found =? -1); lia. }
  destruct Hwf3 as (HDP & Hlen & Hent). by split.
Qed.

Lemma deleteRecord_wf (db db' : DB) (rid : RID) (rc : RC)
    (m : RM_managementData) :
  managementData (rel db) = Ptr m ->
  deleteRecord db rid = Some (rc, db') ->
  dir_wf m ->
  exists m', managementData (rel db') = Ptr m' /\ dir_wf m'.
Proof.
  intros Hm H Hwf. unfold deleteRecord in H. rewrite Hm in H.
  cbn [isNull deref mbind option_bind] in H.
  bind_step H. { injection H as <- <-. by exists m. }
  do 3 bind_step H. { injection H as <- <-. by eexists. }
  do 6 bind_step H. bind_step H. injection H as <- <-.
  eexists. split; [reflexivity|].
  match goal with Hu : updatePageStatistics _ _ _ _ _ = Some _ |- _ =>
    apply updatePageStatistics_wf in Hu as (HDP & Hlen & Hent); [by split|]
  end.
  done.
Qed.


(** ** First fit *)

Lemma findFreePageIndex_from_spec (n : nat) (d : list PageDirectoryEntry)
    (i k : Z) :
  findFreePageIndex_from n d i = Some k ->
  (forall j, i <= j < (if k =? -1 then i + Z.of_nat n else k) ->
     exists e, dir_get d j = Some e /\ hasFreeSlot e = false)
  /\ (k = -1
      \/ (i <= k < i + Z.of_nat n
          /\ exists e, dir_get d k = Some e /\ hasFreeSlot e = true)).
Proof.
  revert i. induction n as [|n IH]; intros i H; cbn [findFreePageIndex_from] in H.
  - injection H as <-. split; [|by left]. cbn. lia.
  - bind_step H. bind_step H.
    + injection H as <-. split; [|right; split; [lia|by eexists]].
      match goal with Hg : dir_get d i = Some _ |- _ =>
        apply dir_get_range in Hg end.
      intros j Hj. destruct (Z.eqb_spec i (-1)); lia.
    + apply IH in H as [Hbefore Hk]. split.
      * intros j Hj. destruct (decide (j = i)) as [->|Hne]; [by eexists|].
        apply Hbefore. destruct (k =? -1); lia.
      * destruct Hk as [->|(Hk & He)]; [by left|right]. split; [lia|done].
Qed.

Lemma locateFreeSlot_from_spec (n : nat) (pageData : bytes) (i k : Z) :
  locateFreeSlot_from n pageData i = Some k ->
  (forall j, i <= j < (if k =? -1 then i + Z.of_nat n else k) ->
     slot_isFree pageData j = Some false)
  /\ (k = -1
      \/ (i <= k < i + Z.of_nat n /\ slot_isFree pageData k = Some true)).
Proof.
  revert i. induction n as [|n IH]; intros i H; cbn [locateFreeSlot_from] in H.
  - injection H as <-. split; [|by left]. cbn. lia.
  - bind_step H. bind_step H.
    + injection H as <-. split; [|right; split; [lia|done]].
      assert (0 <= i).
      { unfold slot_isFree, load_bool in *.
        destruct (load pageData _ _) eqn:Hl; [|done].
        apply load_inv in Hl as (Hl & _).
        unfold sizeof_SlotDirectoryEntry, sizeof_int in Hl. lia. }
      intros j Hj. destruct (Z.eqb_spec i (-1)); lia.
    + apply IH in H as [Hbefore Hk]. split.
      * intros j Hj. destruct (decide (j = i)) as [->|Hne]; [done|].
        apply Hbefore. destruct (k =? -1); lia.
      * destruct Hk as [->|(Hk & He)]; [by left|right]. split; [lia|done].
Qed.

(** X9. [findFreePageIndex] is first fit over the data pages: it returns the
    least index whose entry has a free slot, and -1 only when no entry has
    one. *)
Theorem findFreePageIndex_first_fit (m : RM_managementData) (k : Z) :
  findFreePageIndex m = Some k ->
  (k = -1 /\ forall j, 0 <= j < numDataPages m ->
      exists e, dir_get (pageDirectory m) j = Some e /\ hasFreeSlot e = false)
  \/ (0 <= k < numDataPages m
      /\ (exists e, dir_get (pageDirectory m) k = Some e
                    /\ hasFreeSlot e = true)
      /\ forall j, 0 <= j < k ->
           exists e, dir_get (pageDirectory m) j = Some e
                     /\ hasFreeSlot e = false).
Proof.
  unfold findFreePageIndex. intros H.
  apply findFreePageIndex_from_spec in H as [Hbefore [->|(Hk & He)]].
  - left. split; [done|]. intros j Hj. apply Hbefore. cbn. lia.
  - right. split; [lia|]. split; [done|]. intros j Hj. apply Hbefore.
    destruct (Z.eqb_spec k (-1)); lia.
Qed.

(** X10. [locateFreeSlot] returns the least free slot among the first
    [recordCount] slots of the page, and -1 only when none of them is
    free. *)
Theorem locateFreeSlot_lowest (pageData : bytes) (count k : Z) :
  locateFreeSlot pageData count = Some k ->
  (k = -1 /\ forall j, 0 <= j < count -> slot_isFree pageData j = Some false)
  \/ (0 <= k < count
      /\ slot_isFree pageData k = Some true
      /\ forall j, 0 <= j < k -> slot_isFree pageData j = Some false).
Proof.
  unfold locateFreeSlot. intros H.
  apply locateFreeSlot_from_spec in H as [Hbefore [->|(Hk & He)]].
  - left. split; [done|]. intros j Hj. apply Hbefore. cbn. lia.
  - right. split; [lia|]. split; [done|]. intros j Hj. apply Hbefore.
    destruct (Z.eqb_spec k (-1)); lia.
Qed.

(** ** Insert, then get *)

Lemma insertSlot_nonneg (pageData : bytes) (e : PageDirectoryEntry) (found : Z) :
  locateFreeSlot pageData (recordCount e) = Some found ->
  0 <= recordCount e ->
  0 <= insertSlot e found < insertCount e found.
Proof.
  intros H Hcnt. unfold insertSlot, insertCount.
  unfold locateFreeSlot in H.
  apply locateFreeSlot_from_spec in H as [_ [->|(Hk & _)]].
  - cbn. lia.
  - destruct (Z.eqb_spec found (-1)); lia.
Qed.

(** The data page after a successful insert: the RID handed out names a
    data page of the table, whose frame is at the head of the pool and
    holds the slot entry and the payload as they were written. *)
Lemma insertRecord_OK_state (db db' : DB) (record record' : RM_Record)
    (rc : RC) (m : RM_managementData) :
  managementData (rel db) = Ptr m ->
  dir_wf m ->
  insertRecord db record = Some (rc, db', record') ->
  exists m' sch e' fr rest pd0 pd1 pd2 buf src,
    rc = RC_OK
    /\ managementData (rel db') = Ptr m'
    /\ schema (rel db') = Ptr sch /\ schema (rel db) = Ptr sch
    /\ isValidRecordID (id record') (numPages m') = true
    /\ 0 <= page (id record') < numDataPages m'
    /\ dir_get (pageDirectory m') (page (id record')) = Some e'
    /\ 0 <= slot (id record') < recordCount e'
    /\ bm m' = fr :: rest
    /\ pageNum fr = recordPageNum m' (page (id record'))
    /\ set_slot_offset pd0 (slot (id record'))
         (PAGE_SIZE - recordCount e' * computeRecordSize sch) = Some pd1
    /\ set_slot_isFree pd1 (slot (id record')) false = Some pd2
    /\ data record = Some buf
    /\ load buf 0 (computeRecordSize sch) = Some src
    /\ store pd2 (PAGE_SIZE - recordCount e' * computeRecordSize sch) src
       = Some (frameData fr).
Proof.
  intros Hm Hwf H.
  destruct (insertRecord_OK_inv _ _ _ _ _ _ Hm H)
    as (sch & m1 & f1 & pageIndex & m2 & f2 & e & b1 & f3 & found & d1 & pd1
        & pd2 & buf & src & pd3 & m3 & f4 & -> & Hsch & Hgrow & Hchoose & He
        & Hpin & Hfound & Hset & Hoff & Hfree & Hdata & Hload & Hstore & Hupd
        & Hsave & -> & ->).
  apply (growDirectoryChain_wf _ _ _ _ Hgrow) in Hwf.
  apply (choosePage_wf _ _ _ _ _ Hchoose) in Hwf as [Hwf Hidx].
  destruct Hwf as (HDP & Hlen & Hent).
  destruct (Hent _ _ He) as [Hid Hcnt].
  pose proof (insertSlot_nonneg _ _ _ Hfound Hcnt) as Hslot.
  destruct (updatePageStatistics_entries _ _ _ _ _ _ Hupd)
    as (HnP & HnDP & Hbm & Hentries).
  cbn [numPages numPageDP bm pageDirectory with_bm with_directory] in *.
  destruct (Hentries pageIndex _
              (eq_trans (dir_get_dir_set _ _ _ pageIndex _ Hset)
                 ltac:(by rewrite decide_True)))
    as (e' & He' & Hrc' & Hid').
  cbn [recordCount pageID] in Hrc', Hid'.
  destruct (pinPage_pinned _ _ _ _ _ Hpin) as (fr & rest & -> & Hnum & _).
  cbn [setPinnedData pinnedData] in *.
  exists (with_bm m3 (unpinPage (markDirty (bm m3)))), sch, e'.
  rewrite Hbm. cbn [markDirty unpinPage].
  eexists _, rest, (frameData fr), pd1, pd2, buf, src.
  cbn [id page slot managementData rel with_mgmt schema numPages numPageDP
       with_bm bm pageDirectory frameData pageNum].
  unfold numDataPages, recordPageNum in *.
  cbn [numPages numPageDP with_bm]. rewrite HnP, HnDP, Hid, Hrc'.
  split; [done|]. split; [done|]. split; [done|]. split; [done|].
  split.
  { unfold isValidRecordID. cbn [page slot].
    rewrite !andb_true_iff, !Z.geb_le, Z.ltb_lt. lia. }
  split; [lia|]. split; [done|]. split; [exact Hslot|].
  split; [reflexivity|]. split; [cbn [pageNum]; lia|]. done.
Qed.

(** X11. A record that [insertRecord] has stored is what [getRecord] returns for
    the RID handed out, provided the payload was written past the slot
    entry and inside the page. *)
Theorem insertRecord_then_getRecord (db db' : DB) (record record' : RM_Record)
    (rc : RC) (m m' : RM_managementData) (sch : Schema) (buf : bytes)
    (e' : PageDirectoryEntry) :
  managementData (rel db) = Ptr m ->
  dir_wf m ->
  schema (rel db) = Ptr sch ->
  data record = Some buf ->
  insertRecord db record = Some (rc, db', record') ->
  managementData (rel db') = Ptr m' ->
  dir_get (pageDirectory m') (page (id record')) = Some e' ->
  (slot (id record') + 1) * sizeof_SlotDirectoryEntry
  <= PAGE_SIZE - recordCount e' * computeRecordSize sch <= PAGE_SIZE ->
  exists db'',
    getRecord db' (id record') emptyRecord
    = Some (RC_OK, db'',
            {| id := id record';
               data := load buf 0 (computeRecordSize sch) |}).
Proof.
  intros Hm Hwf Hsch Hbuf H Hm' He' Hclear.
  destruct (insertRecord_OK_state _ _ _ _ _ _ Hm Hwf H)
    as (m0 & sch0 & e0 & fr & rest & pd0 & pd1 & pd2 & buf0 & src & -> & Hm0
        & Hsch' & Hsch0 & Hvalid & Hpage & He0 & Hslot & Hbm & Hnum & Hoff
        & Hfree & Hdata & Hload & Hstore).
  rewrite Hm' in Hm0. injection Hm0 as <-.
  rewrite Hsch in Hsch0. injection Hsch0 as <-.
  rewrite He' in He0. injection He0 as <-.
  rewrite Hbuf in Hdata. injection Hdata as <-.
  set (off := PAGE_SIZE - recordCount e' * computeRecordSize sch) in *.
  assert (Hfreeflag : slot_isFree (frameData fr) (slot (id record'))
                      = Some false).
  { unfold slot_isFree, load_bool.
    rewrite (load_store_other _ _ _ _ _ _ Hstore)
      by (unfold sizeof_SlotDirectoryEntry, sizeof_int, sizeof_bool in *; lia).
    pose proof (load_store_same _ _ _ _ Hfree) as Hl.
    change (len _) with sizeof_bool in Hl. by rewrite Hl. }
  assert (Hoffset : slot_offset (frameData fr) (slot (id record')) = Some off).
  { unfold slot_offset, load_int.
    rewrite (load_store_other _ _ _ _ _ _ Hstore)
      by (unfold sizeof_SlotDirectoryEntry, sizeof_int in *; lia).
    rewrite (load_store_other _ _ _ _ _ _ Hfree)
      by (unfold sizeof_SlotDirectoryEntry, sizeof_int in *; lia).
    pose proof (load_store_same _ _ _ _ Hoff) as Hl.
    rewrite len_encode_int in Hl. rewrite Hl. cbn [fmap option_fmap option_map].
    f_equal. apply decode_encode_int.
    unfold sizeof_SlotDirectoryEntry, PAGE_SIZE in *. lia. }
  assert (Hpayload : load (frameData fr) off (computeRecordSize sch) = Some src).
  { pose proof (load_store_same _ _ _ _ Hstore) as Hl.
    by rewrite (load_length _ _ _ _ Hload) in Hl. }
  destruct (pinPage_again fr rest (file db') _ Hnum) as [Hpd Hfile].
  unfold getRecord. rewrite Hm'. cbn [isNull deref mbind option_bind].
  rewrite Hvalid. cbn [negb]. rewrite Hbm.
  destruct (pinPage (fr :: rest) (file db')
              (recordPageNum m' (page (id record')))) as [b' f'] eqn:Hpin.
  cbn [fst snd] in *. rewrite Hpd, Hfreeflag. cbn [mbind option_bind].
  rewrite Hsch'. cbn [deref mbind option_bind].
  rewrite Hoffset. cbn [mbind option_bind]. fold off.
  rewrite Hpayload. cbn [mbind option_bind emptyRecord data fillRecordData].
  rewrite Hload. by eexists.
Qed.

(** ** Free-space accounting *)


Lemma updatePageStatistics_exact (m m' : RM_managementData) (sch : Schema)
    (i c : Z) (b : bool) :
  updatePageStatistics m sch i c b = Some m' ->
  exists e,
    dir_get (pageDirectory m) i = Some e
    /\ dir_get (pageDirectory m') i
       = Some {| pageID := pageID e;
                 hasFreeSlot := freeSlotHint sch (freeSpace e + c);
                 freeSpace := freeSpace e + c;
                 recordCount := recordCount e |}
    /\ forall j, j <> i ->
         dir_get (pageDirectory m') j = dir_get (pageDirectory m) j.
Proof.
  unfold updatePageStatistics. intros H. do 2 bind_step H. injection H as <-.
  cbn [pageDirectory with_directory]. eexists. split; [done|]. split.
  - rewrite (dir_get_dir_set _ _ _ i _ E0). by rewrite decide_True.
  - intros j Hj. rewrite (dir_get_dir_set _ _ _ j _ E0).
    by rewrite decide_False.
Qed.

(** The hint says "free slot" when the free space covers a record and its
    slot entry, and also when the free space is negative, which the
    conversion to [size_t] turns into a large number. *)
Lemma freeSlotHint_spec (sch : Schema) (fs : Z) :
  0 <= computeRecordSize sch < 2147483648 ->
  -2147483648 <= fs < 2147483648 ->
  (freeSlotHint sch fs = true
   <-> fs < 0 \/ computeRecordSize sch + sizeof_SlotDirectoryEntry <= fs).
Proof.
  intros Hrs Hfs. unfold freeSlotHint, to_size_t, sizeof_SlotDirectoryEntry.
  rewrite Z.geb_le.
  rewrite (Z.mod_small (computeRecordSize sch)) by lia.
  rewrite (Z.mod_small (computeRecordSize sch + 8)) by lia.
  destruct (decide (fs < 0)).
  - rewrite <- (Z.mod_add fs 1 18446744073709551616) by lia.
    rewrite Z.mod_small by lia. lia.
  - rewrite Z.mod_small by lia. lia.
Qed.

(** X12. A successful [deleteRecord] credits the page of the record with
    [recordSize] bytes, not with the bytes of the slot entry, recomputes
    the hint, and leaves the other entries as they were. *)
Theorem deleteRecord_credits_recordSize (db db' : DB) (rid : RID)
    (m m' : RM_managementData) (sch : Schema) :
  managementData (rel db) = Ptr m ->
  schema (rel db) = Ptr sch ->
  deleteRecord db rid = Some (RC_OK, db') ->
  managementData (rel db') = Ptr m' ->
  exists e,
    dir_get (pageDirectory m) (page rid) = Some e
    /\ dir_get (pageDirectory m') (page rid)
       = Some {| pageID := pageID e;
                 hasFreeSlot :=
                   freeSlotHint sch (freeSpace e + computeRecordSize sch);
                 freeSpace := freeSpace e + computeRecordSize sch;
                 recordCount := recordCount e |}
    /\ forall p, p <> page rid ->
         dir_get (pageDirectory m') p = dir_get (pageDirectory m) p.
Proof.
  intros Hm Hsch H Hm'.
  destruct (deleteRecord_OK_inv _ _ _ _ Hm H)
    as (b1 & f1 & pd1 & o & pd2 & sch0 & m1 & f2 & Hv & Hpin & Hfr & Hset & Hoff
        & Hmark & Hsch0 & Hupd & Hsave & ->).
  rewrite Hsch in Hsch0. injection Hsch0 as <-.
  cbn in Hm'. injection Hm' as <-.
  destruct (updatePageStatistics_exact _ _ _ _ _ _ Hupd) as (e & He & He' & Hother).
  by exists e.
Qed.

Lemma choosePage_target (m m' : RM_managementData) (f f' : PageFile)
    (k : Z) :
  choosePage m f = Some (k, m', f') ->
  dir_wf m ->
  (exists e, dir_get (pageDirectory m) k = Some e
             /\ dir_get (pageDirectory m') k = Some e
             /\ hasFreeSlot e = true)
  \/ (dir_get (pageDirectory m) k = None
      /\ k = numDataPages m
      /\ dir_get (pageDirectory m') k = Some (initPageDirectoryEntry k)).
Proof.
  unfold choosePage. intros H (HDP & Hlen & Hent). bind_step H. bind_step H.
  - bind_step H. injection H as <- <- <-. right.
    cbn [numPages numPageDP pageDirectory with_counts with_directory] in *.
    unfold numDataPages, len_list in *. split.
    + unfold dir_get. destruct (Z.ltb_spec (numPages m - numPageDP m + 1) 0);
        [done|]. apply lookup_ge_None. lia.
    + split; [done|]. rewrite (dir_get_dir_set _ _ _ _ _ E1).
      rewrite decide_True by done. do 2 f_equal. lia.
  - injection H as <- <- <-. left.
    unfold findFreePageIndex in E.
    apply findFreePageIndex_from_spec in E as [_ [->|(_ & e & He & Hf)]];
      [done|]. by exists e.
Qed.

(** X13. A successful [insertRecord] debits the page it chose with [recordSize]
    plus the size of a slot entry, whether the slot is new or reused,
    recomputes the hint, and leaves the entries of the other data pages as
    they were.  A page that did not exist before starts from [PAGE_SIZE]. *)
Theorem insertRecord_debits_record_and_slot (db db' : DB)
    (record record' : RM_Record) (rc : RC) (m m' : RM_managementData)
    (sch : Schema) :
  managementData (rel db) = Ptr m ->
  dir_wf m ->
  schema (rel db) = Ptr sch ->
  insertRecord db record = Some (rc, db', record') ->
  managementData (rel db') = Ptr m' ->
  let before :=
    match dir_get (pageDirectory m) (page (id record')) with
    | Some e => freeSpace e
    | None => PAGE_SIZE
    end in
  let after :=
    before - (computeRecordSize sch + sizeof_SlotDirectoryEntry) in
  (exists e', dir_get (pageDirectory m') (page (id record')) = Some e'
              /\ freeSpace e' = after
              /\ hasFreeSlot e' = freeSlotHint sch after)
  /\ forall p, 0 <= p < numDataPages m -> p <> page (id record') ->
       dir_get (pageDirectory m') p = dir_get (pageDirectory m) p.
Proof.
  intros Hm Hwf Hsch H Hm'.
  destruct (insertRecord_OK_inv _ _ _ _ _ _ Hm H)
    as (sch0 & m1 & f1 & pageIndex & m2 & f2 & e & b1 & f3 & found & d1 & pd1
        & pd2 & buf & src & pd3 & m3 & f4 & -> & Hsch0 & Hgrow & Hchoose & He
        & Hpin & Hfound & Hset & Hoff & Hfree & Hdata & Hload & Hstore & Hupd
        & Hsave & -> & ->).
  rewrite Hsch in Hsch0. injection Hsch0 as <-.
  cbn in Hm'. injection Hm' as <-.
  pose proof (growDirectoryChain_wf _ _ _ _ Hgrow Hwf) as Hwf1.
  destruct (growDirectoryChain_entries _ _ _ _ Hgrow) as [Hn1 Hd1].
  destruct (choosePage_wf _ _ _ _ _ Hchoose Hwf1) as [Hwf2 Hidx].
  destruct (choosePage_entries _ _ _ _ _ Hchoose) as (Hn2 & _ & Hkeep).
  destruct Hwf2 as (_ & _ & Hent). destruct (Hent _ _ He) as [Hid _].
  cbn [id page]. rewrite Hid.
  destruct (updatePageStatistics_exact _ _ _ _ _ _ Hupd)
    as (e1 & He1 & He' & Hother).
  cbn [pageDirectory with_bm with_directory] in *.
  rewrite (dir_get_dir_set _ _ _ pageIndex _ Hset) in He1.
  rewrite decide_True in He1 by done. injection He1 as <-.
  cbn [freeSpace pageID recordCount] in He'.
  split.
  - eexists. split; [exact He'|]. cbn [freeSpace hasFreeSlot].
    replace (freeSpace e) with
      (match dir_get (pageDirectory m) pageIndex with
       | Some e0 => freeSpace e0
       | None => PAGE_SIZE
       end).
    + split; f_equal; lia.
    + rewrite <- Hd1.
      destruct (choosePage_target _ _ _ _ _ Hchoose Hwf1)
        as [(e0 & He0 & He0' & _)|(Hnone & _ & Hinit)].
      * rewrite He0. rewrite He in He0'. by injection He0' as ->.
      * rewrite Hnone. rewrite He in Hinit. by injection Hinit as ->.
  - intros p Hp Hne. rewrite (Hother p Hne).
    rewrite (dir_get_dir_set _ _ _ p _ Hset), decide_False by done.
    destruct (dir_get (pageDirectory m) p) as [e0|] eqn:He0.
    + apply Hkeep; [lia|]. by rewrite Hd1.
    + destruct Hwf as (_ & Hlen & _). unfold dir_get in He0.
      unfold len_list in Hlen.
      destruct (Z.ltb_spec p 0); [lia|].
      apply lookup_ge_None in He0. lia.
Qed.

(** X14. The hint that [updatePageStatistics] leaves says "free slot" when the
    new free space covers a record and its slot entry, and also when the
    new free space is negative: the comparison is made in [size_t]. *)
Theorem updatePageStatistics_hint (m m' : RM_managementData) (sch : Schema)
    (i c : Z) (b : bool) (e : PageDirectoryEntry) :
  updatePageStatistics m sch i c b = Some m' ->
  dir_get (pageDirectory m) i = Some e ->
  0 <= computeRecordSize sch < 2147483648 ->
  -2147483648 <= freeSpace e + c < 2147483648 ->
  exists e',
    dir_get (pageDirectory m') i = Some e'
    /\ freeSpace e' = freeSpace e + c
    /\ recordCount e' = recordCount e
    /\ (hasFreeSlot e' = true
        <-> freeSpace e' < 0
            \/ computeRecordSize sch + sizeof_SlotDirectoryEntry
               <= freeSpace e').
Proof.
  intros H He Hrs Hfs.
  destruct (updatePageStatistics_exact _ _ _ _ _ _ H) as (e0 & He0 & He' & _).
  rewrite He in He0. injection He0 as <-.
  eexists. split; [exact He'|]. cbn [freeSpace recordCount hasFreeSlot].
  split; [done|]. split; [done|]. by apply freeSlotHint_spec.
Qed.

(** ** Updating a record *)

(** X15. An update that fits is made in place: the record keeps its RID and
    [getRecord] returns the new bytes, provided the payload lies past the
    slot entry of the record. *)
Theorem updateRecord_then_getRecord (db db' : DB) (record record' : RM_Record)
    (m : RM_managementData) (sch : Schema) (buf : bytes)
    (e : PageDirectoryEntry) (o : Z) :
  managementData (rel db) = Ptr m ->
  schema (rel db) = Ptr sch ->
  data record = Some buf ->
  dir_get (pageDirectory m) (page (id record)) = Some e ->
  slot_offset (peekPage (bm m) (file db)
                 (recordPageNum m (page (id record)))) (slot (id record))
  = Some o ->
  computeRecordSize sch
  <= to_int (freeSpace e
             + (o - slot (id record) * sizeof_SlotDirectoryEntry)) ->
  (slot (id record) + 1) * sizeof_SlotDirectoryEntry <= o ->
  updateRecord db record = Some (RC_OK, db', record') ->
  record' = record
  /\ exists db'',
       getRecord db' (id record) emptyRecord
       = Some (RC_OK, db'',
               {| id := id record;
                  data := load buf 0 (computeRecordSize sch) |}).
Proof.
  intros Hm Hsch Hbuf He Ho Hfits Hclear H.
  unfold updateRecord in H. rewrite Hm in H.
  cbn [isNull deref mbind option_bind] in H. cbv zeta in H.
  destruct (isValidRecordID (id record) (numPages m)) eqn:Hvalid;
    cbn [negb] in H; [|done].
  destruct (pinPage (bm m) (file db) (recordPageNum m (page (id record))))
    as [bm1 f1] eqn:Hpin.
  destruct (pinPage_pinned _ _ _ _ _ Hpin) as (fr & rest & -> & Hnum & Hdata).
  cbn [pinnedData] in H. rewrite Hdata in H.
  destruct (slot_isFree _ _) as [[|]|] eqn:Hfree;
    cbn [mbind option_bind] in H; [done| |done].
  rewrite Hsch, He, Ho in H. cbn [deref mbind option_bind] in H.
  destruct (Z.gtb_spec (computeRecordSize sch)
              (to_int (freeSpace e
                       + (o - slot (id record) * sizeof_SlotDirectoryEntry))));
    [lia|].
  rewrite Hbuf in H. cbn [mbind option_bind] in H.
  destruct (load buf 0 (computeRecordSize sch)) as [src|] eqn:Hload;
    cbn [mbind option_bind] in H; [|done].
  destruct (store _ o src) as [pd|] eqn:Hstore;
    cbn [mbind option_bind] in H; [|done].
  injection H as <- <-. split; [done|].
  assert (Hfree' : slot_isFree pd (slot (id record)) = Some false).
  { unfold slot_isFree, load_bool in *.
    rewrite (load_store_other _ _ _ _ _ _ Hstore); [done|].
    unfold sizeof_SlotDirectoryEntry, sizeof_int, sizeof_bool in *. lia. }
  assert (Ho' : slot_offset pd (slot (id record)) = Some o).
  { unfold slot_offset, load_int in *.
    rewrite (load_store_other _ _ _ _ _ _ Hstore); [done|].
    unfold sizeof_SlotDirectoryEntry, sizeof_int in *. lia. }
  assert (Hpayload : load pd o (computeRecordSize sch) = Some src).
  { pose proof (load_store_same _ _ _ _ Hstore) as Hl.
    by rewrite (load_length _ _ _ _ Hload) in Hl. }
  unfold getRecord.
  cbn [managementData rel with_mgmt isNull deref mbind option_bind numPages
       with_bm bm file setPinnedData markDirty unpinPage].
  rewrite Hvalid. cbn [negb].
  set (fr' := {| pageNum := pageNum fr; frameData := pd; dirty := true |}).
  assert (Hn : pageNum fr'
               = recordPageNum
                   (with_bm m (fr' :: rest)) (page (id record))).
  { done. }
  destruct (pinPage_again fr' rest f1 _ Hn) as [Hpd Hfile].
  unfold unpinPage.
  destruct (pinPage (fr' :: rest) f1 _) as [b' f'] eqn:Hpin'.
  cbn [fst snd] in *. rewrite Hpd. cbn [frameData fr'].
  rewrite Hfree'. cbn [mbind option_bind schema rel with_mgmt].
  rewrite Hsch. cbn [deref mbind option_bind].
  rewrite Ho'. cbn [mbind option_bind]. rewrite Hpayload.
  cbn [mbind option_bind emptyRecord data fillRecordData]. by eexists.
Qed.

(** ** Invalid record identifiers *)

(** X16. A RID whose page is negative or not below [numPages], or whose slot is
    negative, is rejected by [getRecord], [deleteRecord] and [updateRecord]
    alike, before any page is pinned: the table is returned as it was. *)
Theorem invalid_rid_leaves_table_alone (db : DB) (m : RM_managementData)
    (record : RM_Record) :
  managementData (rel db) = Ptr m ->
  page (id record) < 0 \/ numPages m <= page (id record)
    \/ slot (id record) < 0 ->
  getRecord db (id record) record = Some (RC_RM_INVALID_RID, db, record)
  /\ deleteRecord db (id record) = Some (RC_RM_INVALID_RID, db)
  /\ updateRecord db record = Some (RC_RM_INVALID_RID, db, record).
Proof.
  intros Hm Hbad.
  assert (Hv : isValidRecordID (id record) (numPages m) = false).
  { unfold isValidRecordID.
    destruct (Z.geb_spec (page (id record)) 0); [|done].
    destruct (Z.ltb_spec (page (id record)) (numPages m)); [|done].
    destruct (Z.geb_spec (slot (id record)) 0); [lia|done]. }
  unfold getRecord, deleteRecord, updateRecord. rewrite Hm.
  cbn [isNull deref mbind option_bind]. by rewrite Hv.
Qed.

(** ** Attributes next to each other *)

Lemma strncpy_len (s src : bytes) (n : Z) :
  strncpy s n = Some src -> len src = n.
Proof.
  unfold strncpy. intros H. destruct (Z.ltb_spec n 0); [done|].
  destruct (_ && _); [done|]. injection H as <-.
  pose proof (cstr_length (Z.to_nat n) s).
  rewrite len_app, len_zeros; unfold len; lia.
Qed.

Lemma cstr_window (n : nat) (s1 s2 : bytes) :
  take n s1 = take n s2 -> cstr n s1 = cstr n s2.
Proof.
  revert s1 s2. induction n as [|n IH]; intros s1 s2 H; [done|].
  destruct s1 as [|c1 r1], s2 as [|c2 r2]; try done.
  cbn [take] in H. injection H as -> H. cbn [cstr].
  destruct (c2 =? 0); [done|]. f_equal. by apply IH.
Qed.

Lemma strncpy_window (s1 s2 : bytes) (n : Z) :
  take (Z.to_nat n) s1 = take (Z.to_nat n) s2 ->
  length s1 = length s2 ->
  strncpy s1 n = strncpy s2 n.
Proof.
  intros Ht Hl. unfold strncpy, len.
  by rewrite (cstr_window _ _ _ Ht), Hl.
Qed.

Lemma store_window_other (mem mem' src : bytes) (off off' n : Z) :
  store mem off src = Some mem' ->
  0 <= off' -> 0 <= n ->
  off' + n <= off \/ off + len src <= off' ->
  take (Z.to_nat n) (drop (Z.to_nat off') mem')
  = take (Z.to_nat n) (drop (Z.to_nat off') mem).
Proof.
  intros Hst Ho Hn Hdis. unfold bytes in *. apply list_eq. intros i.
  destruct (decide (i < Z.to_nat n)%nat).
  - rewrite !lookup_take_lt, !lookup_drop by done.
    rewrite (store_lookup _ _ _ _ _ Hst).
    destruct (decide _) as [Hin|]; [|done]. lia.
  - by rewrite !lookup_take_ge by lia.
Qed.

Lemma setAttr_OK_inv (record record' : RM_Record) (schema : Schema) (k : Z)
    (v : Value) :
  setAttr record schema k v = Some (RC_OK, record') ->
  exists buf src buf',
    0 <= k < numAttr schema
    /\ data record = Some buf
    /\ len src = attrSize schema (Z.to_nat k)
    /\ store buf (calculateAttributeOffset schema k) src = Some buf'
    /\ record' = {| id := id record; data := Some buf' |}.
Proof.
  unfold setAttr. intros H.
  destruct (Z.ltb_spec k 0); [done|].
  destruct (Z.geb_spec k (numAttr schema)); [done|]. cbn [orb] in H.
  destruct (bool_decide (dt v = dataTypes_at schema (Z.to_nat k))) eqn:Hdt;
    cbn [negb] in H; [|done].
  apply bool_decide_eq_true_1 in Hdt. cbv zeta in H.
  destruct (data record) as [buf|]; cbn [mbind option_bind] in H; [|done].
  destruct (match v with
            | IntV i => Some (encode_int i)
            | FloatV f => Some (encode_float f)
            | BoolV b => Some (encode_bool b)
            | StringV s => strncpy s (typeLength_at schema (Z.to_nat k))
            end) as [src|] eqn:Hsrc; cbn [mbind option_bind] in H; [|done].
  destruct (store buf _ src) as [buf'|] eqn:Hst;
    cbn [mbind option_bind] in H; [|done].
  injection H as <-. exists buf, src, buf'.
  split; [lia|]. split; [done|]. split; [|done].
  unfold attrSize. rewrite <- Hdt.
  destruct v; cbn [dt]; try (by injection Hsrc as <-).
  by apply strncpy_len in Hsrc.
Qed.

(** X17. [setAttr] on attribute [k] leaves what [getAttr] returns for any other
    attribute as it was. *)
Theorem setAttr_keeps_other_attributes (record record' : RM_Record)
    (schema : Schema) (k j : Z) (v : Value) :
  wf_schema schema ->
  0 <= j < numAttr schema ->
  j <> k ->
  setAttr record schema k v = Some (RC_OK, record') ->
  getAttr record' schema j = getAttr record schema j.
Proof.
  intros Hwf Hj Hne H.
  destruct (setAttr_OK_inv _ _ _ _ _ H)
    as (buf & src & buf' & Hk & Hbuf & Hlen & Hst & ->).
  rewrite !getAttr_in_range by done. cbn [data]. rewrite Hbuf.
  cbn [mbind option_bind].
  destruct Hwf as (_ & _ & _ & Hall).
  pose proof (sumSizes_nonneg schema (Z.to_nat j) Hall) as Hoj.
  pose proof (attrSize_nonneg schema (Z.to_nat j) Hall) as Hsj.
  assert (Hdis : calculateAttributeOffset schema j
                 + attrSize schema (Z.to_nat j)
                 <= calculateAttributeOffset schema k
                 \/ calculateAttributeOffset schema k + len src
                    <= calculateAttributeOffset schema j).
  { unfold calculateAttributeOffset. rewrite Hlen, <- !sumSizes_S.
    destruct (decide (j < k)); [left|right];
      apply sumSizes_mono; try done; lia. }
  unfold calculateAttributeOffset in *. unfold attrSize in Hdis, Hsj.
  destruct (dataTypes_at schema (Z.to_nat j)).
  - by rewrite (load_store_other _ _ _ _ _ _ Hst).
  - rewrite (strncpy_window
               (drop (Z.to_nat (sumSizes schema (Z.to_nat j))) buf')
               (drop (Z.to_nat (sumSizes schema (Z.to_nat j))) buf)); [done| |].
    + by apply (store_window_other _ _ _ _ _ _ Hst).
    + by rewrite !length_drop, (store_length _ _ _ _ Hst).
  - by rewrite (load_store_other _ _ _ _ _ _ Hst).
  - by rewrite (load_store_other _ _ _ _ _ _ Hst).
Qed.

(** ** A fresh record *)

Lemma load_zeros (size off n : Z) :
  0 <= off -> 0 <= n -> off + n <= size ->
  load (zeros size) off n = Some (zeros n).
Proof.
  intros Ho Hn Hs. rewrite load_eq; [|done|done|rewrite len_zeros; lia].
  f_equal. unfold zeros. rewrite drop_replicate, take_replicate. f_equal. lia.
Qed.

Lemma strncpy_zeros (size n : Z) :
  0 <= n <= size -> strncpy (zeros size) n = Some (zeros n).
Proof.
  intros Hn. unfold strncpy. destruct (Z.ltb_spec n 0); [lia|].
  assert (Hc : cstr (Z.to_nat n) (zeros size) = []).
  { unfold zeros. destruct (Z.to_nat n), (Z.to_nat size); done. }
  rewrite Hc. change (len []) with 0. rewrite Z.sub_0_r.
  destruct (Z.ltb_spec 0 n); [|done].
  destruct (Z.eqb_spec 0 (len (zeros size))) as [He|]; [|done].
  rewrite len_zeros in He; lia.
Qed.

(** X18. The record that [createRecord] hands out reads as zero in every
    attribute: 0, 0.0, FALSE, and the empty string padded to the width of
    the attribute. *)
Theorem createRecord_reads_zero (s : Schema) (k : Z) :
  wf_schema s ->
  0 <= k < numAttr s ->
  getAttr (snd (createRecord s)) s k
  = Some (RC_OK,
          Some (zeroValue (dataTypes_at s (Z.to_nat k))
                  (typeLength_at s (Z.to_nat k)))).
Proof.
  intros Hwf Hk. rewrite getAttr_in_range by done.
  destruct (attribute_in_record s k Hwf Hk) as (Ho & Hs & Hin).
  cbn [createRecord snd data mbind option_bind]. unfold attrSize in *.
  destruct (dataTypes_at s (Z.to_nat k)); cbn [zeroValue].
  - by rewrite load_zeros.
  - unfold zeros at 1. rewrite drop_replicate.
    replace (replicate _ 0)
      with (zeros (computeRecordSize s - calculateAttributeOffset s k))
      by (unfold zeros; f_equal; lia).
    by rewrite strncpy_zeros by lia.
  - by rewrite load_zeros.
  - by rewrite load_zeros.
Qed.

Section ScanOrder.

Variable Expr : Type.
Variable evalExpr : RM_Record -> Schema -> option Expr -> option Value.

Lemma nextSlot_found (n : nat) (pageData : bytes) (sch : Schema)
    (cond : option Expr) (curPage curSlot slot' : Z)
    (record record' : RM_Record) :
  nextSlot evalExpr n pageData sch cond curPage curSlot record
  = Some (true, slot', record') ->
  id record' = {| page := curPage; slot := slot' - 1 |}
  /\ curSlot <= slot' - 1 < curSlot + Z.of_nat n
  /\ slot_isFree pageData (slot' - 1) = Some false
  /\ exists b, evalExpr record' sch cond = Some (BoolV b)
               /\ (b = true \/ cond = None).
Proof.
  revert curSlot record.
  induction n as [|n IH]; intros curSlot record H; [done|].
  cbn [nextSlot] in H. bind_step H. bind_step H.
  { apply IH in H as (Hid & Hs & Hrest). split; [done|]. split; [lia|done]. }
  do 5 bind_step H. bind_step H.
  - injection H as <- <-. replace (curSlot + 1 - 1) with curSlot by lia.
    split; [done|]. split; [lia|]. split; [done|].
    match goal with Hb : boolV_of _ = Some _ |- _ =>
      apply boolV_of_Some in Hb as -> end.
    eexists. split; [done|].
    match goal with Hc : ?b || _ = true |- _ =>
      destruct b; [by left|right]; cbn [orb] in Hc;
      by apply bool_decide_eq_true in Hc end.
  - apply IH in H as (Hid & Hs & Hrest). split; [done|]. split; [lia|done].
Qed.

Lemma nextPage_found (n : nat) (d : list PageDirectoryEntry) (sch : Schema)
    (cond : option Expr) (b b' : BM_BufferPool) (f f' : PageFile)
    (curPage curSlot page' slot' : Z) (record record' : RM_Record) :
  nextPage evalExpr n d sch cond b f curPage curSlot record
  = Some (RC_OK, b', f', page', slot', record') ->
  id record' = {| page := page'; slot := slot' - 1 |}
  /\ curPage <= page' < curPage + Z.of_nat n
  /\ (page' = curPage -> curSlot <= slot' - 1)
  /\ (curPage < page' -> 0 <= slot' - 1)
  /\ exists v, evalExpr record' sch cond = Some (BoolV v)
               /\ (v = true \/ cond = None).
Proof.
  revert b f curPage curSlot record.
  induction n as [|n IH]; intros b f curPage curSlot record H; [done|].
  cbn [nextPage] in H.
  bind_step H. bind_step H. bind_step H. destruct p1 as [[[|] s1] r1].
  - injection H as _ _ <- <- <-.
    match goal with Hs : nextSlot _ _ _ _ _ _ _ _ = Some _ |- _ =>
      apply nextSlot_found in Hs as (Hid & Hs & _ & Hv) end.
    split; [done|]. split; [lia|]. split; [lia|]. split; [lia|done].
  - apply IH in H as (Hid & Hp & Hsame & Hlater & Hv).
    split; [done|]. split; [lia|]. split; [lia|]. split; [lia|done].
Qed.

(** What a [next] that returns [RC_OK] has found: the page and the slot
    after the record, at or after the cursor, which become the cursor. *)
Lemma next_found (db db' : DB) (scan scan' : RM_ScanHandle Expr)
    (scanInfo : ScanInfo Expr) (record record' : RM_Record) :
  mgmtData scan = Ptr scanInfo ->
  next evalExpr db scan record = Some (RC_OK, db', scan', record') ->
  exists page' slot',
    id record' = {| page := page'; slot := slot' - 1 |}
    /\ currentPage scanInfo <= page'
    /\ (page' = currentPage scanInfo -> currentSlot scanInfo <= slot' - 1)
    /\ mgmtData scan'
       = Ptr {| condition := condition scanInfo; currentPage := page';
                currentSlot := slot' |}.
Proof.
  intros Hscan H. unfold next in H. rewrite Hscan in H.
  cbn [isNull deref mbind option_bind] in H.
  bind_step H. bind_step H. bind_step H.
  destruct p as [[[[[rc b] f] curPage] curSlot] r1].
  injection H as -> _ <- <-.
  match goal with Hn : nextPage _ _ _ _ _ _ _ _ _ _ = Some _ |- _ =>
    apply nextPage_found in Hn as (Hid & Hp & Hsame & _) end.
  exists curPage, curSlot. split; [done|]. split; [lia|]. by split.
Qed.

(** X19. When [next] returns [RC_OK], the record it returns lies at or after the
    cursor, the cursor moves to the slot after it, and the predicate is
    kept. *)
Theorem next_advances_cursor (db db' : DB) (scan scan' : RM_ScanHandle Expr)
    (scanInfo : ScanInfo Expr) (record record' : RM_Record) :
  mgmtData scan = Ptr scanInfo ->
  next evalExpr db scan record = Some (RC_OK, db', scan', record') ->
  cursor_le (currentPage scanInfo) (currentSlot scanInfo) (id record')
  /\ mgmtData scan'
     = Ptr {| condition := condition scanInfo;
              currentPage := page (id record');
              currentSlot := slot (id record') + 1 |}.
Proof.
  intros Hscan H.
  destruct (next_found _ _ _ _ _ _ _ Hscan H)
    as (page' & slot' & Hid & Hp & Hsame & Hscan').
  rewrite Hid, Hscan'. cbn [page slot]. split.
  - unfold cursor_le. cbn [page slot].
    destruct (decide (page' = currentPage scanInfo)) as [->|Hne].
    + right. split; [done|]. by apply Hsame.
    + left. lia.
  - do 2 f_equal. lia.
Qed.

(** X20. With a predicate, [next] returns only records on which the evaluator
    answered TRUE. *)
Theorem next_predicate_holds (db db' : DB) (scan scan' : RM_ScanHandle Expr)
    (scanInfo : ScanInfo Expr) (cond : Expr) (sch : Schema)
    (record record' : RM_Record) :
  mgmtData scan = Ptr scanInfo ->
  condition scanInfo = Some cond ->
  schema (rel db) = Ptr sch ->
  next evalExpr db scan record = Some (RC_OK, db', scan', record') ->
  evalExpr record' sch (Some cond) = Some (BoolV true).
Proof.
  intros Hscan Hcond Hsch H. unfold next in H. rewrite Hscan, Hsch in H.
  cbn [isNull deref mbind option_bind] in H. rewrite Hcond in H.
  bind_step H. bind_step H.
  destruct p as [[[[[rc b] f] curPage] curSlot] r1].
  injection H as -> _ _ <-.
  match goal with Hn : nextPage _ _ _ _ _ _ _ _ _ _ = Some _ |- _ =>
    apply nextPage_found in Hn as (_ & _ & _ & _ & v & Hv & [->|Hnone]) end;
    done.
Qed.

Lemma rid_lt_trans (a b c : RID) : rid_lt a b -> rid_lt b c -> rid_lt a c.
Proof. unfold rid_lt. lia. Qed.

Lemma rid_lt_irrefl (a : RID) : ~ rid_lt a a.
Proof. unfold rid_lt. lia. Qed.

Lemma scanAll_sorted (fuel : nat) (db : DB) (scan : RM_ScanHandle Expr)
    (scanInfo : ScanInfo Expr) (record : RM_Record) (rids : list RID)
    (final : RC) :
  mgmtData scan = Ptr scanInfo ->
  scanAll evalExpr fuel db scan record = Some (rids, final) ->
  StronglySorted rid_lt rids
  /\ Forall (cursor_le (currentPage scanInfo) (currentSlot scanInfo)) rids.
Proof.
  revert db scan scanInfo record rids final.
  induction fuel as [|fuel IH];
    intros db scan scanInfo record rids final Hscan H; [done|].
  cbn [scanAll] in H. bind_step H.
  destruct p as [[[rc db'] scan'] record'].
  destruct (bool_decide (rc = RC_OK)) eqn:Hrc.
  - apply bool_decide_eq_true in Hrc as ->.
    bind_step H. destruct p as [rest final']. injection H as <- <-.
    match goal with Hn : next _ _ _ _ = Some _ |- _ =>
      apply (next_found _ _ _ _ _ _ _ Hscan) in Hn
        as (page' & slot' & Hid & Hp & Hsame & Hscan')
    end.
    match goal with Hs : scanAll _ _ _ _ _ = Some _ |- _ =>
      apply (IH _ _ _ _ _ _ Hscan') in Hs as (Hsorted & Hall) end.
    cbn [currentPage currentSlot] in Hall.
    assert (Hle : cursor_le (currentPage scanInfo) (currentSlot scanInfo)
                    (id record')).
    { rewrite Hid. unfold cursor_le. cbn [page slot].
      destruct (decide (page' = currentPage scanInfo)) as [->|Hne].
      - right. split; [done|]. by apply Hsame.
      - left. lia. }
    assert (Hlt : Forall (rid_lt (id record')) rest).
    { eapply Forall_impl; [exact Hall|]. intros r. rewrite Hid.
      unfold cursor_le, rid_lt. cbn [page slot]. lia. }
    split; [by constructor|]. constructor; [done|].
    eapply Forall_impl; [exact Hlt|]. intros r.
    revert Hle. unfold cursor_le, rid_lt. lia.
  - injection H as <- <-. split; constructor.
Qed.

(** X21. A scan driven to its end returns its RIDs in strictly increasing order;
    no RID comes twice. *)
Theorem scanAll_no_duplicates (fuel : nat) (db : DB)
    (scan : RM_ScanHandle Expr) (scanInfo : ScanInfo Expr)
    (record : RM_Record) (rids : list RID) (final : RC) :
  mgmtData scan = Ptr scanInfo ->
  scanAll evalExpr fuel db scan record = Some (rids, final) ->
  StronglySorted rid_lt rids /\ NoDup rids.
Proof.
  intros Hscan H.
  destruct (scanAll_sorted _ _ _ _ _ _ _ Hscan H) as [Hsorted _].
  split; [done|]. clear H Hscan.
  induction Hsorted as [|r rest Hsorted IH Hall]; constructor; [|done].
  intros Hin. rewrite Forall_forall in Hall.
  by apply (rid_lt_irrefl r), Hall.
Qed.

Lemma nextPage_exhausted (n : nat) (d : list PageDirectoryEntry) (sch : Schema)
    (cond : option Expr) (b b' : BM_BufferPool) (f f' : PageFile)
    (curPage curSlot page' slot' : Z) (record record' : RM_Record) :
  nextPage evalExpr n d sch cond b f curPage curSlot record
  = Some (RC_RM_NO_MORE_TUPLES, b', f', page', slot', record') ->
  page' = curPage + Z.of_nat n.
Proof.
  revert b f curPage curSlot record.
  induction n as [|n IH]; intros b f curPage curSlot record H.
  - cbn [nextPage] in H. injection H as _ _ <- _ _. lia.
  - cbn [nextPage] in H.
    bind_step H. bind_step H. bind_step H. destruct p1 as [[[|] s1] r1];
      [done|].
    apply IH in H. lia.
Qed.

(** X22. Once [next] has returned [RC_RM_NO_MORE_TUPLES], it returns it again,
    moving nothing, as long as the table has the same number of pages. *)
Theorem next_stays_exhausted (db db' : DB) (scan scan' : RM_ScanHandle Expr)
    (scanInfo : ScanInfo Expr) (m : RM_managementData)
    (record record' record'' : RM_Record) :
  mgmtData scan = Ptr scanInfo ->
  managementData (rel db) = Ptr m ->
  next evalExpr db scan record
  = Some (RC_RM_NO_MORE_TUPLES, db', scan', record') ->
  next evalExpr db' scan' record''
  = Some (RC_RM_NO_MORE_TUPLES, db', scan', record'').
Proof.
  intros Hscan Hm H. unfold next in H. rewrite Hscan, Hm in H.
  cbn [isNull deref mbind option_bind] in H.
  bind_step H. bind_step H.
  destruct p as [[[[[rc b] f] curPage] curSlot] r1].
  injection H as -> <- <- <-.
  match goal with Hn : nextPage _ _ _ _ _ _ _ _ _ _ = Some _ |- _ =>
    apply nextPage_exhausted in Hn as -> end.
  unfold next. cbn [isNull deref mbind option_bind mgmtData rel with_mgmt
                    managementData schema currentPage].
  rewrite E. cbn [isNull deref mbind option_bind].
  match goal with |- context [nextPage _ ?k] =>
    assert (Hz : k = O) by (unfold numDataPages in *; cbn; lia) end.
  rewrite Hz. reflexivity.
Qed.

End ScanOrder.

(** ** Block 1 under writes to other blocks *)

Lemma readBlock_ensureBlocks (n : nat) (j : Z) (f : PageFile) :
  readBlock j (ensureBlocks n f) = readBlock j f.
Proof.
  unfold readBlock, ensureBlocks.
  destruct (decide (Z.to_nat j < length f)%nat).
  - by rewrite app_nth1.
  - rewrite app_nth2 by lia. rewrite (nth_overflow f) by lia.
    destruct (decide (Z.to_nat j - length f < n - length f)%nat).
    + apply nth_lookup_Some. by apply lookup_replicate_2.
    + apply nth_overflow. rewrite length_replicate. lia.
Qed.

Lemma readBlock_writeBlock_other (k j : Z) (f : PageFile) (pg : bytes) :
  0 <= k -> 0 <= j -> k <> j ->
  readBlock j (writeBlock k f pg) = readBlock j f.
Proof.
  intros Hk Hj Hne. unfold writeBlock.
  rewrite <- (readBlock_ensureBlocks (S (Z.to_nat k)) j f).
  unfold readBlock.
  set (g := ensureBlocks (S (Z.to_nat k)) f).
  destruct (decide (Z.to_nat j < length g)%nat).
  - destruct (lookup_lt_is_Some_2 g (Z.to_nat j) l) as [x Hx].
    rewrite (nth_lookup_Some _ _ _ _ Hx).
    apply nth_lookup_Some. unfold PageFile, bytes in *.
    by rewrite list_lookup_insert_ne by lia.
  - unfold PageFile, bytes in *.
    rewrite !nth_overflow; [done|lia|].
    rewrite length_insert. lia.
Qed.

Lemma readBlock_appendEmptyBlock (j : Z) (f : PageFile) :
  readBlock j (appendEmptyBlock f) = readBlock j f.
Proof.
  unfold appendEmptyBlock.
  change (f ++ [zeroPage]) with (f ++ replicate 1 zeroPage).
  unfold readBlock.
  destruct (decide (Z.to_nat j < length f)%nat).
  - by rewrite app_nth1.
  - rewrite app_nth2 by lia. rewrite (nth_overflow f) by lia.
    destruct (Z.to_nat j - length f)%nat as [|[|k]]; done.
Qed.

Lemma writeBack_block1 (fr : Frame) (f : PageFile) :
  (dirty fr = true -> 2 <= pageNum fr) ->
  readBlock 1 (writeBack fr f) = readBlock 1 f.
Proof.
  intros H. unfold writeBack. destruct (dirty fr); [|done].
  apply readBlock_writeBlock_other; lia.
Qed.

Lemma shutdownBufferPool_block1 (b : BM_BufferPool) (f : PageFile) :
  pool_ok b -> readBlock 1 (shutdownBufferPool b f) = readBlock 1 f.
Proof.
  unfold shutdownBufferPool, pool_ok.
  induction 1 as [|fr b Hfr Hb IH]; [done|].
  cbn [fold_right]. by rewrite writeBack_block1.
Qed.

(** ** The pool under [pinPage] *)

Lemma pinPage_ok (b b' : BM_BufferPool) (f f' : PageFile) (n : Z) :
  pool_ok b ->
  pinPage b f n = (b', f') ->
  pool_ok b' /\ readBlock 1 f' = readBlock 1 f.
Proof.
  unfold pinPage, pool_ok. intros Hb H.
  destruct (findFrame b n) as [fr|] eqn:Hfind.
  - injection H as <- <-. split; [|done].
    rewrite Forall_forall in Hb. unfold findFrame, dropFrame in *.
    unfold BM_BufferPool in *. constructor.
    + assert (Hin : fr ∈ filter (fun fr => isFrameOf n fr = true) b).
      { destruct (filter _ b); [done|]. injection Hfind as ->.
        apply list_elem_of_here. }
      apply list_elem_of_filter in Hin as [_ Hin]. by apply Hb.
    + apply Forall_forall. intros x Hx.
      apply list_elem_of_filter in Hx as [_ Hx]. by apply Hb.
  - destruct (len_list b <? BUFFER_PAGE_LIMIT).
    + injection H as <- <-. split; [|done]. by constructor.
    + destruct (last b) as [victim|] eqn:Hlast.
      * injection H as <- <-. split.
        -- constructor; [done|].
           rewrite Forall_forall in *. intros x Hx. apply Hb.
           apply list_elem_of_In. apply list_elem_of_In in Hx.
           clear -Hx. induction b as [|a [|a' b] IH]; [done|done|].
           cbn [removelast] in Hx. destruct Hx as [->|Hx]; [by left|].
           right. by apply IH.
        -- apply writeBack_block1. rewrite Forall_forall in Hb. apply Hb.
           apply last_Some in Hlast as [l' ->].
           apply elem_of_app. right. apply list_elem_of_here.
      * injection H as <- <-. split; [|done]. by constructor.
Qed.

Lemma pool_ok_dirty (fr : Frame) (rest : BM_BufferPool) (pd : bytes) :
  pool_ok (fr :: rest) -> 2 <= pageNum fr ->
  pool_ok (unpinPage (markDirty (setPinnedData (fr :: rest) pd))).
Proof.
  unfold pool_ok, unpinPage. cbn [setPinnedData markDirty].
  intros H Hn. inversion H; subst. by constructor.
Qed.

Lemma pool_ok_set (b : BM_BufferPool) (pd : bytes) :
  pool_ok b -> pool_ok (setPinnedData b pd).
Proof.
  unfold pool_ok. destruct b as [|fr rest]; [done|]. cbn [setPinnedData].
  intros H. inversion H; subst. by constructor.
Qed.

(** ** Page ids of the directory *)

Lemma dir_get_ids (d : list PageDirectoryEntry) (i : Z)
    (e : PageDirectoryEntry) :
  ids_ok d -> dir_get d i = Some e -> 0 <= pageID e < 2147483648.
Proof.
  unfold ids_ok, dir_get. intros Hd H. destruct (i <? 0); [done|].
  by apply (Forall_lookup_1 _ _ _ _ Hd H).
Qed.

Lemma dir_set_ids (d d' : list PageDirectoryEntry) (i : Z)
    (e : PageDirectoryEntry) :
  dir_set d i e = Some d' -> ids_ok d -> 0 <= pageID e < 2147483648 ->
  ids_ok d'.
Proof.
  unfold dir_set, ids_ok. intros H Hd He. bind_step H; [|done].
  injection H as <-. by apply Forall_insert.
Qed.

Lemma updatePageStatistics_ids (m m' : RM_managementData) (sch : Schema)
    (i c : Z) (b : bool) :
  updatePageStatistics m sch i c b = Some m' ->
  ids_ok (pageDirectory m) -> ids_ok (pageDirectory m').
Proof.
  unfold updatePageStatistics. intros H Hd. do 2 bind_step H.
  injection H as <-. cbn [pageDirectory with_directory].
  eapply dir_set_ids; [eassumption|done|]. cbn [pageID].
  by eapply dir_get_ids.
Qed.

Lemma growDirectoryChain_single (m : RM_managementData) (f : PageFile) :
  numPageDP m = 1 -> numPages m <= maxEntriesPerPage ->
  growDirectoryChain m f = (m, f).
Proof.
  intros HDP HnP. unfold growDirectoryChain. rewrite HDP.
  by destruct (Z.gtb_spec (numPages m) (maxEntriesPerPage * 1)); [lia|].
Qed.

Lemma choosePage_ok (m m' : RM_managementData) (f f' : PageFile)
    (k : Z) :
  choosePage m f = Some (k, m', f') ->
  numPageDP m = 1 -> 1 <= numPages m <= maxEntriesPerPage ->
  ids_ok (pageDirectory m) ->
  numPageDP m' = 1
  /\ 1 <= numPages m'
  /\ ids_ok (pageDirectory m')
  /\ bm m' = bm m
  /\ readBlock 1 f' = readBlock 1 f.
Proof.
  unfold choosePage. intros H HDP HnP Hd. bind_step H. bind_step H.
  - bind_step H. injection H as <- <- <-.
    cbn [numPages numPageDP pageDirectory bm with_counts with_directory]
      in *.
    rewrite maxEntriesPerPage_value in HnP.
    split; [done|]. split; [lia|]. split; [|split; [done|]].
    + eapply dir_set_ids; [eassumption| |cbn [initPageDirectoryEntry pageID]; rewrite ?HDP; lia].
      unfold ids_ok. apply Forall_resize; [|done].
      unfold uninitializedEntry. cbn [pageID]. lia.
    + rewrite readBlock_writeBlock_other by lia.
      apply readBlock_appendEmptyBlock.
  - injection H as <- <- <-. repeat split; try done; lia.
Qed.

(** ** The directory page on disk *)

Lemma pageID_decode_entry (e : PageDirectoryEntry) (rest : bytes) :
  0 <= pageID e < 2147483648 ->
  pageID (decode_entry (take 16 (encode_entry e ++ rest))) = pageID e.
Proof.
  intros He. destruct e as [p h fs rc]. cbn [pageID] in *.
  unfold decode_entry, encode_entry, encode_entry_padded, zeroPadding,
    padding_bytes. cbn [pageID hasFreeSlot freeSpace recordCount].
  change (take 4 (take 16 ((encode_int p ++ encode_bool h ++ [0; 0; 0]
            ++ encode_int fs ++ encode_int rc) ++ rest)))
    with (encode_int p).
  apply decode_encode_int. lia.
Qed.

Lemma decode_entries_ids (d : list PageDirectoryEntry) (rest : bytes) :
  ids_ok d ->
  ids_ok (decode_entries (length d) (concat (map encode_entry d) ++ rest)).
Proof.
  unfold ids_ok. induction 1 as [|e d He Hd IH]; [constructor|].
  cbn [length decode_entries map concat]. rewrite <- app_assoc.
  constructor.
  - by rewrite pageID_decode_entry.
  - change 16%nat with (length (encode_entry e)).
    unfold bytes in *. by rewrite drop_app_length.
Qed.

Lemma len_encoded_entries (d : list PageDirectoryEntry) :
  len (concat (map encode_entry d))
  = len_list d * sizeof_PageDirectoryEntry.
Proof.
  induction d as [|e d IH]; [done|].
  cbn [map concat]. rewrite len_app, IH, len_encode_entry.
  unfold len_list. cbn [length]. lia.
Qed.

(** A directory save that has a defined result was given at most
    [maxEntriesPerPage] entries, and leaves a proper directory page in
    block 1: the one it has written, or the one that was there. *)
Lemma savePageDirectoryToDisk_ok (m : RM_managementData) (f f' : PageFile)
    (rc : RC) :
  numPageDP m = 1 -> 1 <= numPages m ->
  ids_ok (pageDirectory m) ->
  directoryPage_ok (readBlock 1 f) ->
  savePageDirectoryToDisk m f = Some (rc, f') ->
  numPages m <= maxEntriesPerPage /\ directoryPage_ok (readBlock 1 f').
Proof.
  intros HDP HnP Hids Hpage Hsave.
  unfold savePageDirectoryToDisk, numDataPages in Hsave. cbv zeta in Hsave.
  rewrite HDP in Hsave.
  replace (numPages m - 1 + 1) with (numPages m) in Hsave by lia.
  destruct (Z.ltb_spec (numPages m) 0); [lia|].
  destruct (Z.ltb_spec (len_list (pageDirectory m)) (numPages m)) as [|Hlen];
    [done|]. cbn [orb] in Hsave.
  set (d := take (Z.to_nat (numPages m)) (pageDirectory m)) in *.
  assert (Hd : len_list d = numPages m).
  { unfold d, len_list in *. rewrite length_take. lia. }
  assert (Hdids : ids_ok d).
  { unfold d, ids_ok in *. by apply Forall_take. }
  set (body := concat (map encode_entry d)) in *.
  assert (Hbody : len body = numPages m * sizeof_PageDirectoryEntry).
  { unfold body. by rewrite len_encoded_entries, Hd. }
  set (image := encode_int (numPages m) ++ encode_int 1 ++ body) in *.
  destruct (store zeroPage 0 image) as [pg|] eqn:Hst;
    cbn [mbind option_bind] in Hsave; [|done].
  pose proof (store_len _ _ _ _ Hst) as Hpglen.
  apply store_inv in Hst as (_ & Himg & Hpg). cbn [Z.to_nat take app] in Hpg.
  assert (HnP255 : numPages m <= 255).
  { unfold image in Himg. rewrite !len_app, Hbody, !len_encode_int in Himg.
    change (len zeroPage) with 4096 in Himg.
    unfold sizeof_PageDirectoryEntry, sizeof_int in Himg. lia. }
  rewrite maxEntriesPerPage_value. split; [done|].
  assert (Hf' : f' = writeBlock
                       (numPages m ÷ maxEntriesPerPage * maxEntriesPerPage + 1)
                       f pg) by congruence.
  clear Hsave. rewrite Hf', maxEntriesPerPage_value.
  destruct (decide (numPages m = 255)) as [->|Hne].
  { by rewrite readBlock_writeBlock_other. }
  rewrite Z.quot_small by lia. cbn [Z.mul Z.add].
  rewrite readBlock_writeBlock by done.
  exists (numPages m). rewrite maxEntriesPerPage_value.
  set (tail := drop (0 + length image) zeroPage) in *.
  rewrite Hpg. unfold image. rewrite <- !app_assoc.
  split.
  { pose proof (load_int_image [] (encode_int 1 ++ body ++ tail)
                  (numPages m)) as HL. cbn [app] in HL.
    change (len []) with 0 in HL. unfold bytes in *. apply HL.
    unfold is_int. lia. }
  split; [lia|]. split.
  { pose proof (load_int_image (encode_int (numPages m)) (body ++ tail) 1)
      as HL.
    change (len (encode_int (numPages m))) with sizeof_int in HL.
    unfold bytes in *. apply HL. by vm_compute. }
  intros body' Hload.
  pose proof (load_app (encode_int (numPages m) ++ encode_int 1) body tail)
    as HL.
  rewrite <- app_assoc, Hbody in HL.
  change (len (encode_int (numPages m) ++ encode_int 1))
    with (2 * sizeof_int) in HL.
  assert (Heq : Some body = Some body') by exact (eq_trans (eq_sym HL) Hload).
  injection Heq as <-.
  replace (Z.to_nat (numPages m)) with (length d)
    by (unfold len_list in Hd; lia).
  rewrite <- (app_nil_r body). by apply decode_entries_ids.
Qed.

(** ** The record operations keep the table in shape *)

Lemma table_ok_intro (db : DB) (m : RM_managementData) (b : BM_BufferPool)
    (f : PageFile) :
  numPageDP m = 1 -> 1 <= numPages m <= maxEntriesPerPage ->
  ids_ok (pageDirectory m) -> pool_ok b ->
  directoryPage_ok (readBlock 1 f) ->
  table_ok (with_mgmt db (with_bm m b) f).
Proof. intros. by exists (with_bm m b). Qed.

Lemma isValidRecordID_page (rid : RID) (n : Z) :
  negb (isValidRecordID rid n) = false -> 0 <= page rid.
Proof.
  unfold isValidRecordID. intros H%negb_false_iff.
  apply andb_prop in H as [H _]. apply andb_prop in H as [H _]. lia.
Qed.

Lemma pinned_data_page (m : RM_managementData) (rid : RID)
    (b1 : BM_BufferPool) (f f1 : PageFile) (pd : bytes) :
  numPageDP m = 1 -> pool_ok (bm m) ->
  negb (isValidRecordID rid (numPages m)) = false ->
  pinPage (bm m) f (recordPageNum m (page rid)) = (b1, f1) ->
  pool_ok b1
  /\ pool_ok (unpinPage (markDirty (setPinnedData b1 pd)))
  /\ readBlock 1 f1 = readBlock 1 f.
Proof.
  intros HDP Hpool Hvalid Hpin.
  destruct (pinPage_ok _ _ _ _ _ Hpool Hpin) as [Hb1 Hf1].
  destruct (pinPage_pinned _ _ _ _ _ Hpin) as (fr & rest & -> & Hn & _).
  pose proof (isValidRecordID_page _ _ Hvalid) as Hpage.
  repeat split; try done.
  apply pool_ok_dirty; [done|]. unfold recordPageNum in Hn. lia.
Qed.

Lemma deleteRecord_table_ok (db db' : DB) (rid : RID) (rc : RC) :
  table_ok db -> deleteRecord db rid = Some (rc, db') -> table_ok db'.
Proof.
  intros Hdb H. pose proof Hdb as (m & Hm & HDP & HnP & Hids & Hpool & Hpage).
  unfold deleteRecord in H. rewrite Hm in H.
  cbn [isNull deref mbind option_bind] in H.
  destruct (negb (isValidRecordID rid (numPages m))) eqn:Hvalid.
  { by injection H as <- <-. }
  destruct (pinPage (bm m) (file db) (recordPageNum m (page rid)))
    as [b1 f1] eqn:Hpin.
  bind_step H. bind_step H.
  { injection H as <- <-.
    destruct (pinned_data_page m rid b1 _ _ [] HDP Hpool Hvalid Hpin)
      as (Hb1 & _ & Hf1).
    apply table_ok_intro; try done. by rewrite Hf1. }
  do 3 bind_step H. bind_step H.
  destruct (updatePageStatistics _ _ _ _ _) as [m1|] eqn:Hups;
    cbn [mbind option_bind] in H; [|done].
  destruct (savePageDirectoryToDisk m1 f1) as [[rc' f2]|] eqn:Hsave;
    cbn [mbind option_bind] in H; [|done].
  injection H as <- <-.
  pose proof (updatePageStatistics_ids _ _ _ _ _ _ Hups) as Hids1.
  destruct (updatePageStatistics_entries _ _ _ _ _ _ Hups)
    as (HnP1 & HDP1 & Hbm1 & _).
  cbn [numPages numPageDP pageDirectory bm with_bm] in Hids1, HnP1, HDP1, Hbm1.
  match type of Hbm1 with _ = setPinnedData _ ?pd =>
    destruct (pinned_data_page m rid b1 _ _ pd HDP Hpool Hvalid Hpin)
      as (Hb1 & Hdirty & Hf1) end.
  specialize (Hids1 Hids).
  assert (Hpage1 : directoryPage_ok (readBlock 1 f1)) by (by rewrite Hf1).
  destruct (savePageDirectoryToDisk_ok m1 f1 f2 rc') as [Hle Hpage2];
    [congruence|lia|done|done|done|].
  apply table_ok_intro; [congruence|lia|done|by rewrite Hbm1|done].
Qed.

Lemma getRecord_table_ok (db db' : DB) (rid : RID) (r r' : RM_Record)
    (rc : RC) :
  table_ok db -> getRecord db rid r = Some (rc, db', r') -> table_ok db'.
Proof.
  intros Hdb H. pose proof Hdb as (m & Hm & HDP & HnP & Hids & Hpool & Hpage).
  unfold getRecord in H. rewrite Hm in H.
  cbn [isNull deref mbind option_bind] in H.
  destruct (negb (isValidRecordID rid (numPages m))) eqn:Hvalid.
  { by injection H as <- <- <-. }
  destruct (pinPage (bm m) (file db) (recordPageNum m (page rid)))
    as [b1 f1] eqn:Hpin.
  destruct (pinned_data_page m rid b1 _ _ [] HDP Hpool Hvalid Hpin)
    as (Hb1 & _ & Hf1).
  assert (Hok : table_ok (with_mgmt db (with_bm m (unpinPage b1)) f1)).
  { apply table_ok_intro; try done. by rewrite Hf1. }
  bind_step H. bind_step H.
  { by injection H as <- <- <-. }
  do 4 bind_step H. by injection H as <- <- <-.
Qed.

Lemma insertRecord_table_ok (db db' : DB) (r r' : RM_Record) (rc : RC) :
  table_ok db -> insertRecord db r = Some (rc, db', r') -> table_ok db'.
Proof.
  intros (m & Hm & HDP & HnP & Hids & Hpool & Hpage) H.
  destruct (insertRecord_OK_inv _ _ _ _ _ _ Hm H)
    as (sch & m1 & f1 & pageIndex & m2 & f2 & e & b1 & f3 & found & d1
        & pd1 & pd2 & buf & src & pd3 & m3 & f4 & _ & _ & Hgrow & Hchoose
        & He & Hpin & _ & Hd1 & _ & _ & _ & _ & _ & Hups & Hsave & -> & _).
  rewrite growDirectoryChain_single in Hgrow by (done || lia).
  injection Hgrow as <- <-.
  destruct (choosePage_ok _ _ _ _ _ Hchoose HDP HnP Hids)
    as (HDP2 & HnP2 & Hids2 & Hbm2 & Hf2).
  pose proof (dir_get_ids _ _ _ Hids2 He) as Hid.
  rewrite Hbm2 in Hpin.
  destruct (pinPage_ok _ _ _ _ _ Hpool Hpin) as [Hb1 Hf3].
  destruct (pinPage_pinned _ _ _ _ _ Hpin) as (fr & rest & -> & Hn & _).
  pose proof (dir_set_ids _ _ _ _ Hd1 Hids2 Hid) as Hidsd1.
  pose proof (updatePageStatistics_ids _ _ _ _ _ _ Hups) as Hids3.
  destruct (updatePageStatistics_entries _ _ _ _ _ _ Hups)
    as (HnP3 & HDP3 & Hbm3 & _).
  cbn [numPages numPageDP pageDirectory bm with_bm with_directory]
    in Hids3, HnP3, HDP3, Hbm3.
  specialize (Hids3 Hidsd1).
  assert (Hpage3 : directoryPage_ok (readBlock 1 f3))
    by (by rewrite Hf3, Hf2).
  destruct (savePageDirectoryToDisk_ok m3 f3 f4 RC_OK) as [Hle Hpage4];
    [congruence|lia|done|done|done|].
  apply table_ok_intro; [congruence|lia|done| |done].
  rewrite Hbm3. apply pool_ok_dirty; [done|lia].
Qed.

Lemma updateRecord_table_ok (db db' : DB) (r r' : RM_Record) (rc : RC) :
  table_ok db -> updateRecord db r = Some (rc, db', r') -> table_ok db'.
Proof.
  intros Hdb H. pose proof Hdb as (m & Hm & HDP & HnP & Hids & Hpool & Hpage).
  unfold updateRecord in H. rewrite Hm in H.
  cbn [isNull deref mbind option_bind] in H. cbv zeta in H.
  destruct (negb (isValidRecordID (id r) (numPages m))) eqn:Hvalid.
  { by injection H as <- <- <-. }
  destruct (pinPage (bm m) (file db) (recordPageNum m (page (id r))))
    as [b1 f1] eqn:Hpin.
  assert (Hok : table_ok (with_mgmt db (with_bm m (unpinPage b1)) f1)).
  { destruct (pinned_data_page m (id r) b1 _ _ [] HDP Hpool Hvalid Hpin)
      as (Hb1 & _ & Hf1).
    apply table_ok_intro; try done. by rewrite Hf1. }
  bind_step H. bind_step H.
  { by injection H as <- <- <-. }
  do 3 bind_step H. bind_step H.
  - destruct (deleteRecord _ _) as [[rc1 db2]|] eqn:Hdel;
      cbn [mbind option_bind] in H; [|done].
    pose proof (deleteRecord_table_ok _ _ _ _ Hok Hdel) as Hok2.
    bind_step H.
    + by injection H as <- <- <-.
    + by eapply insertRecord_table_ok.
  - do 3 bind_step H. injection H as <- <- <-.
    match goal with |- context [setPinnedData b1 ?pd] =>
      destruct (pinned_data_page m (id r) b1 _ _ pd HDP Hpool Hvalid Hpin)
        as (Hb1 & Hdirty & Hf1) end.
    apply table_ok_intro; try done. by rewrite Hf1.
Qed.

Lemma runOp_table_ok (db db' : DB) (op : RecordOp) (rc : RC)
    (r' : option RM_Record) :
  table_ok db -> runOp db op = Some (rc, db', r') -> table_ok db'.
Proof.
  intros Hdb H. destruct op as [r|rid|r|rid r]; cbn [runOp] in H.
  - destruct (insertRecord db r) as [[[rc1 db1] r1]|] eqn:Hop; [|done].
    cbn [mbind option_bind] in H. injection H as <- <- <-.
    by eapply insertRecord_table_ok.
  - destruct (deleteRecord db rid) as [[rc1 db1]|] eqn:Hop; [|done].
    cbn [mbind option_bind] in H. injection H as <- <- <-.
    by eapply deleteRecord_table_ok.
  - destruct (updateRecord db r) as [[[rc1 db1] r1]|] eqn:Hop; [|done].
    cbn [mbind option_bind] in H. injection H as <- <- <-.
    by eapply updateRecord_table_ok.
  - destruct (getRecord db rid r) as [[[rc1 db1] r1]|] eqn:Hop; [|done].
    cbn [mbind option_bind] in H. injection H as <- <- <-.
    by eapply getRecord_table_ok.
Qed.

(** ** Scans keep the table in shape *)

Lemma nextPage_pool_ok (Expr : Type)
    (evalExpr : RM_Record -> Schema -> option Expr -> option Value)
    (n : nat) (d : list PageDirectoryEntry) (sch : Schema)
    (cond : option Expr) (b b' : BM_BufferPool) (f f' : PageFile)
    (curPage curSlot curPage' curSlot' : Z) (r r' : RM_Record) (rc : RC) :
  pool_ok b ->
  nextPage evalExpr n d sch cond b f curPage curSlot r
  = Some (rc, b', f', curPage', curSlot', r') ->
  pool_ok b' /\ readBlock 1 f' = readBlock 1 f.
Proof.
  revert b f curPage curSlot r.
  induction n as [|n IH]; intros b f curPage curSlot r Hb H;
    cbn [nextPage] in H.
  - injection H as _ <- <- _ _ _. done.
  - cbv zeta in H.
    destruct (pinPage b f (scanPageNum curPage)) as [b1 f1] eqn:Hpin.
    destruct (pinPage_ok _ _ _ _ _ Hb Hpin) as [Hb1 Hf1].
    bind_step H.
    destruct (nextSlot _ _ _ _ _ _ _ _) as [[[found slot'] r1]|];
      cbn [mbind option_bind] in H; [|done].
    destruct found.
    + injection H as _ <- <- _ _ _. done.
    + destruct (IH _ _ _ _ _ Hb1 H) as [Hb' Hf']. split; [done|congruence].
Qed.

Lemma next_table_ok (Expr : Type)
    (evalExpr : RM_Record -> Schema -> option Expr -> option Value)
    (db db' : DB) (scan scan' : RM_ScanHandle Expr) (r r' : RM_Record)
    (rc : RC) :
  table_ok db -> next evalExpr db scan r = Some (rc, db', scan', r') ->
  table_ok db'.
Proof.
  intros Hdb H. pose proof Hdb as (m & Hm & HDP & HnP & Hids & Hpool & Hpage).
  unfold next in H. bind_step H.
  { by injection H as _ <- _ _. }
  bind_step H. rewrite Hm in H. cbn [deref mbind option_bind] in H.
  bind_step H.
  destruct (nextPage _ _ _ _ _ _ _ _ _ _)
    as [[[[[[rc1 b1] f1] cp] cs] r1]|] eqn:Hnext;
    cbn [mbind option_bind] in H; [|done].
  injection H as _ <- _ _.
  destruct (nextPage_pool_ok _ _ _ _ _ _ _ _ _ _ _ _ _ _ _ _ _ Hpool Hnext)
    as [Hb1 Hf1].
  apply table_ok_intro; try done. by rewrite Hf1.
Qed.

(** ** Opening a table *)

Lemma directoryPage_ok_initial (padding : Padding) :
  directoryPage_ok (initialDirectoryPage padding).
Proof.
  exists 1. split; [apply initialDirectory_numPages|].
  split; [by rewrite maxEntriesPerPage_value|].
  split; [apply initialDirectory_numPageDP|].
  intros body Hbody. pose proof (initialDirectory_entries padding) as He.
  rewrite Hbody in He. cbn [fmap option_fmap option_map] in He.
  assert (Hd : decode_entries 1 body = [initPageDirectoryEntry 0])
    by congruence.
  change (Z.to_nat 1) with 1%nat. rewrite Hd.
  repeat constructor; done.
Qed.

Lemma put_inl (st : bytes * Z) (src : bytes) (rc : RC) :
  put st src = inl rc -> rc = RC_PAGE_FULL.
Proof.
  unfold put. destruct st as [pg position].
  destruct (position + len src >? PAGE_SIZE); [congruence|].
  destruct (store pg position src); congruence.
Qed.

Lemma put_all_inl (srcs : list bytes) (st : bytes * Z) (rc : RC) :
  put_all st srcs = inl rc -> rc = RC_PAGE_FULL.
Proof.
  revert st. induction srcs as [|src rest IH]; intros st H; [done|].
  cbn [put_all] in H. destruct (put st src) as [rc'|st'] eqn:Hput.
  - apply put_inl in Hput. congruence.
  - by eapply IH.
Qed.

Lemma serializeSchema_inl (s : Schema) (rc : RC) :
  serializeSchema s = inl rc -> rc = RC_PAGE_FULL.
Proof.
  unfold serializeSchema. cbv zeta. intros H.
  repeat match type of H with
  | match put ?st ?src with _ => _ end = _ =>
      let E := fresh "E" in
      destruct (put st src) as [?|[? ?]] eqn:E;
        [apply put_inl in E; congruence|]
  | match put_all ?st ?srcs with _ => _ end = _ =>
      let E := fresh "E" in
      destruct (put_all st srcs) as [?|?] eqn:E;
        [apply put_all_inl in E; congruence|]
  end.
  done.
Qed.

Lemma createTable_block1 (tableName : string) (s : Schema)
    (padding : Padding) (f : PageFile) :
  createTable tableName s padding = (RC_OK, f) ->
  readBlock 1 f = initialDirectoryPage padding.
Proof.
  unfold createTable. intros H.
  destruct (serializeSchema s) as [rc|pg] eqn:Hser.
  { apply serializeSchema_inl in Hser. congruence. }
  apply (f_equal snd) in H. cbn [snd] in H. rewrite <- H.
  apply readBlock_writeBlock; [done|apply len_initialDirectoryPage].
Qed.

(** [openTable] takes the counters and the directory of the table from
    block 1. *)
Lemma openTable_table_ok (f : PageFile) (tableName : string) (rc : RC)
    (db : DB) :
  directoryPage_ok (readBlock 1 f) ->
  openTable f tableName = Some (rc, db) -> table_ok db.
Proof.
  intros (nP & HnP & Hrange & HDP & Hbody) H. unfold openTable in H.
  rewrite pinPage_empty in H. unfold unpinPage in H.
  bind_step H. unfold loadPageDirectoryFromDisk in H.
  rewrite pinPage_second in H by done.
  cbn [pinnedData frameData] in H. unfold unpinPage in H.
  rewrite HnP, HDP in H. cbn [mbind option_bind] in H.
  replace (nP - 1 + 1) with nP in H by lia.
  destruct (load (readBlock 1 f) (2 * sizeof_int)
              (nP * sizeof_PageDirectoryEntry)) as [body|] eqn:Hload;
    cbn [mbind option_bind] in H; [|done].
  injection H as _ <-. eexists. split; [reflexivity|].
  cbn [numPageDP numPages pageDirectory bm file].
  split; [done|]. split; [lia|]. split; [by apply Hbody|].
  split; [by repeat constructor|].
  exists nP. by rewrite Hload.
Qed.

Lemma closeTable_block1 (db db1 : DB) (rc : RC) :
  table_ok db -> closeTable db = Some (rc, db1) ->
  directoryPage_ok (readBlock 1 (file db1)).
Proof.
  intros (m & Hm & _ & _ & _ & Hpool & Hpage) H. unfold closeTable in H.
  rewrite Hm in H. cbn [isNull orb deref mbind option_bind] in H.
  bind_step H.
  { by injection H as _ <-. }
  bind_step H. injection H as _ <-. cbn [file].
  by rewrite shutdownBufferPool_block1.
Qed.

(** Every table of the interface has one directory page, at most
    [maxEntriesPerPage] data pages, and is in shape. *)
Lemma reachable_table_ok (db : DB) : reachable db -> table_ok db.
Proof.
  induction 1 as [tableName s padding f db Hcreate Hopen
                 |db db' op rc r' _ IH Hop
                 |Expr evalExpr db db' scan scan' r r' rc _ IH Hnext
                 |db db1 db2 tableName _ IH Hclose Hopen].
  - eapply openTable_table_ok; [|exact Hopen].
    rewrite (createTable_block1 _ _ _ _ Hcreate).
    apply directoryPage_ok_initial.
  - by eapply runOp_table_ok.
  - by eapply next_table_ok.
  - eapply openTable_table_ok; [|exact Hopen].
    by eapply closeTable_block1.
Qed.

(** ** The directory cannot outgrow its page *)

Lemma insertRecord_new_page (db db' : DB) (r r' : RM_Record) (rc : RC)
    (m : RM_managementData) :
  managementData (rel db) = Ptr m ->
  numPageDP m = 1 -> numPages m <= maxEntriesPerPage ->
  findFreePageIndex m = Some (-1) ->
  insertRecord db r = Some (rc, db', r') ->
  exists m', managementData (rel db') = Ptr m'
             /\ numPages m' = numPages m + 1.
Proof.
  intros Hm HDP HnP Hfind H.
  destruct (insertRecord_OK_inv _ _ _ _ _ _ Hm H)
    as (sch & m1 & f1 & pageIndex & m2 & f2 & e & b1 & f3 & found & d1
        & pd1 & pd2 & buf & src & pd3 & m3 & f4 & _ & _ & Hgrow & Hchoose
        & _ & _ & _ & _ & _ & _ & _ & _ & _ & Hups & _ & -> & _).
  rewrite growDirectoryChain_single in Hgrow by done.
  injection Hgrow as <- <-.
  unfold choosePage in Hchoose. rewrite Hfind in Hchoose.
  cbn [mbind option_bind Z.eqb Pos.eqb] in Hchoose. cbv zeta in Hchoose.
  bind_step Hchoose. injection Hchoose as _ <- _.
  destruct (updatePageStatistics_entries _ _ _ _ _ _ Hups) as (HnP3 & _).
  exists (with_bm m3 (unpinPage (markDirty (bm m3)))).
  split; [reflexivity|]. cbn [numPages with_bm]. by rewrite HnP3.
Qed.

(** With [maxEntriesPerPage] data pages and none of them free,
    [insertRecord] has no defined result: the directory it would save is
    one entry longer than the page buffer holds. *)
Lemma insertRecord_directory_full (db : DB) (r : RM_Record)
    (m : RM_managementData) :
  table_ok db ->
  managementData (rel db) = Ptr m ->
  numPages m = maxEntriesPerPage ->
  findFreePageIndex m = Some (-1) ->
  insertRecord db r = None.
Proof.
  intros Hdb Hm HnP Hfind.
  destruct (insertRecord db r) as [[[rc db'] r']|] eqn:H; [|done].
  exfalso.
  pose proof (insertRecord_table_ok _ _ _ _ _ Hdb H)
    as (m'' & Hm'' & _ & Hle & _).
  destruct Hdb as (m0 & Hm0 & HDP & _).
  assert (m0 = m) as -> by congruence.
  destruct (insertRecord_new_page _ _ _ _ _ _ Hm HDP ltac:(lia) Hfind H)
    as (m' & Hm' & Hgrown).
  assert (m'' = m') as -> by congruence. lia.
Qed.

(** ** Instances *)

Lemma setAttr_getAttr_roundtrip_witness :
  exists record',
    setAttr (newRecord (zeros 12)) people 1
      (StringV (bytes_of_string "alice" ++ [0]))
    = Some (RC_OK, record')
    /\ getAttr record' people 1
       = Some (RC_OK,
               Some (stored_value people 1
                       (StringV (bytes_of_string "alice" ++ [0]))))
    /\ forall s b,
         StringV (bytes_of_string "alice" ++ [0]) = StringV s ->
         stored_value people 1 (StringV (bytes_of_string "alice" ++ [0]))
         = StringV b ->
         len b = typeLength_at people (Z.to_nat 1) + 1
         /\ last b = Some 0
         /\ take (Z.to_nat (typeLength_at people (Z.to_nat 1))) b
            = fit (typeLength_at people (Z.to_nat 1)) (string_chars s).
Proof.
  apply (setAttr_getAttr_roundtrip people (newRecord (zeros 12)) (zeros 12) 1
           (StringV (bytes_of_string "alice" ++ [0]))).
  - unfold wf_schema. simpl. repeat split; try lia.
    repeat constructor; lia.
  - reflexivity.
  - reflexivity.
  - simpl. lia.
  - reflexivity.
  - simpl. do 5 right. by left.
Defined.

Lemma recordCount_never_decreases_witness :
  runOp aliceTable (Delete {| page := 0; slot := 0 |})
  = Some (RC_OK, aliceDeleted, None)
  /\ entry_after aliceDeleted 0 aliceEntry
       (fun e' =>
          recordCount aliceEntry <= recordCount e'
          /\ count_after (Delete {| page := 0; slot := 0 |}) aliceEntry
               RC_OK None e').
Proof.
  split; [by vm_compute|].
  apply (recordCount_never_decreases aliceTable aliceDeleted
           (Delete {| page := 0; slot := 0 |}) RC_OK None aliceMgmt 0
           aliceEntry).
  - by vm_compute.
  - by vm_compute.
  - by vm_compute.
  - by vm_compute.
Defined.

Lemma next_null_predicate_needs_evaluator_witness :
  next evalTrue aliceTable aliceScan emptyRecord
  = Some (RC_OK, snd (fst (fst aliceNext)), snd (fst aliceNext), snd aliceNext)
  /\ exists sch v,
       schema (rel aliceTable) = Ptr sch
       /\ evalTrue (snd aliceNext) sch None = Some (BoolV v).
Proof.
  split; [by vm_compute|].
  apply (next_null_predicate_needs_evaluator unit evalTrue aliceTable
           (snd (fst (fst aliceNext))) aliceScan (snd (fst aliceNext))
           {| condition := None; currentPage := 0; currentSlot := 0 |}
           emptyRecord (snd aliceNext)).
  - reflexivity.
  - reflexivity.
  - by vm_compute.
Defined.


(** ** Instances of the further properties *)

Lemma aliceDirectory : pageDirectory aliceMgmt = [aliceEntry].
Proof. by vm_compute. Qed.

Ltac closed :=
  repeat match goal with
         | |- storable_schema _ => unfold storable_schema
         | |- wf_schema _ => unfold wf_schema
         | |- entry_ints _ => unfold entry_ints
         | |- is_int _ => unfold is_int
         | |- c_string _ => unfold c_string; cbv [bytes_of_string]; cbn
         | |- Forall _ (pageDirectory _) => rewrite aliceDirectory
         | |- _ /\ _ => split
         | |- Forall _ _ => constructor
         | |- _ => by vm_compute
         end.

Lemma createTable_page_full_witness :
  createTable "people" people stackPadding
  = (if len (schemaImage people) >? PAGE_SIZE
     then (RC_PAGE_FULL, createPageFile)
     else (RC_OK,
           [schemaImage people ++ drop (length (schemaImage people)) zeroPage;
            initialDirectoryPage stackPadding]))
  /\ (len (schemaImage people) >? PAGE_SIZE) = false
  /\ createTable "columns" columns stackPadding
     = (if len (schemaImage columns) >? PAGE_SIZE
        then (RC_PAGE_FULL, createPageFile)
        else (RC_OK,
              [schemaImage columns
               ++ drop (length (schemaImage columns)) zeroPage;
               initialDirectoryPage stackPadding]))
  /\ (len (schemaImage columns) >? PAGE_SIZE) = true.
Proof.
  split; [apply (createTable_page_full "people" people stackPadding); closed|].
  split; [by vm_compute|].
  split; [|by vm_compute].
  apply (createTable_page_full "columns" columns stackPadding).
  unfold storable_schema, columns.
  cbn [numAttr attrNames dataTypes typeLength keySize keyAttrs].
  unfold len_list. rewrite !length_replicate.
  repeat split; try done.
  - apply Forall_replicate. unfold c_string. by repeat constructor.
  - apply Forall_replicate. by vm_compute.
  - repeat constructor; by vm_compute.
Defined.

Lemma createTable_then_openTable_witness :
  exists m,
    openTable (snd (createTable "people" people stackPadding)) "people"
    = Some (RC_OK,
            {| file := snd (createTable "people" people stackPadding);
               rel := {| name := "people"; schema := Ptr people;
                         managementData := Ptr m |} |})
    /\ numPages m = 1
    /\ numPageDP m = 1
    /\ pageDirectory m = [initPageDirectoryEntry 0]
    /\ dir_wf m.
Proof.
  apply (createTable_then_openTable "people" people stackPadding
           (snd (createTable "people" people stackPadding))).
  - closed.
  - by vm_compute.
Defined.

Lemma savePageDirectory_then_load_witness :
  loadPageDirectoryFromDisk [] aliceSaved
  = Some (RC_OK,
          {| numPages := numPages aliceMgmt; numPageDP := 1;
             pageDirectory := pageDirectory aliceMgmt;
             bm := [{| pageNum := 1; frameData := readBlock 1 aliceSaved;
                       dirty := false |}] |},
          aliceSaved).
Proof.
  apply (savePageDirectory_then_load aliceMgmt (file aliceTable) aliceSaved
           RC_OK []).
  - by vm_compute.
  - closed.
  - by vm_compute.
  - closed.
  - by vm_compute.
  - by vm_compute.
  - by vm_compute.
Defined.

Lemma findFreePageIndex_first_fit_witness :
  (0 = -1 /\ forall j, 0 <= j < numDataPages aliceMgmt ->
      exists e, dir_get (pageDirectory aliceMgmt) j = Some e
                /\ hasFreeSlot e = false)
  \/ (0 <= 0 < numDataPages aliceMgmt
      /\ (exists e, dir_get (pageDirectory aliceMgmt) 0 = Some e
                    /\ hasFreeSlot e = true)
      /\ forall j, 0 <= j < 0 ->
           exists e, dir_get (pageDirectory aliceMgmt) j = Some e
                     /\ hasFreeSlot e = false).
Proof. apply (findFreePageIndex_first_fit aliceMgmt 0). by vm_compute. Defined.

Lemma locateFreeSlot_lowest_witness :
  (0 = -1 /\ forall j, 0 <= j < 1 -> slot_isFree alicePage j = Some false)
  \/ (0 <= 0 < 1
      /\ slot_isFree alicePage 0 = Some true
      /\ forall j, 0 <= j < 0 -> slot_isFree alicePage j = Some false).
Proof. apply (locateFreeSlot_lowest alicePage 1 0). by vm_compute. Defined.

Lemma insertRecord_then_getRecord_witness :
  exists db'',
    getRecord (snd (fst aliceBob)) (id (snd aliceBob)) emptyRecord
    = Some (RC_OK, db'',
            {| id := id (snd aliceBob);
               data := load (person 2 "bob") 0 (computeRecordSize people) |}).
Proof.
  apply (insertRecord_then_getRecord aliceTable (snd (fst aliceBob)) bob
           (snd aliceBob) RC_OK aliceMgmt (mgmtOf (snd (fst aliceBob)))
           people (person 2 "bob") (entryOf (snd (fst aliceBob)) 0)).
  - by vm_compute.
  - apply dir_wf_single with aliceEntry; by vm_compute.
  - by vm_compute.
  - reflexivity.
  - by vm_compute.
  - by vm_compute.
  - by vm_compute.
  - closed.
Defined.

Lemma insertRecord_debits_record_and_slot_witness :
  let before :=
    match dir_get (pageDirectory aliceMgmt) (page (id (snd aliceBob))) with
    | Some e => freeSpace e
    | None => PAGE_SIZE
    end in
  let after :=
    before - (computeRecordSize people + sizeof_SlotDirectoryEntry) in
  (exists e',
     dir_get (pageDirectory (mgmtOf (snd (fst aliceBob))))
       (page (id (snd aliceBob))) = Some e'
     /\ freeSpace e' = after
     /\ hasFreeSlot e' = freeSlotHint people after)
  /\ forall p, 0 <= p < numDataPages aliceMgmt ->
       p <> page (id (snd aliceBob)) ->
       dir_get (pageDirectory (mgmtOf (snd (fst aliceBob)))) p
       = dir_get (pageDirectory aliceMgmt) p.
Proof.
  apply (insertRecord_debits_record_and_slot aliceTable (snd (fst aliceBob))
           bob (snd aliceBob) RC_OK aliceMgmt (mgmtOf (snd (fst aliceBob)))
           people).
  - by vm_compute.
  - apply dir_wf_single with aliceEntry; by vm_compute.
  - by vm_compute.
  - by vm_compute.
  - by vm_compute.
Defined.

Lemma updatePageStatistics_hint_witness :
  exists e',
    dir_get (pageDirectory aliceDebited) 0 = Some e'
    /\ freeSpace e' = freeSpace aliceEntry + -20
    /\ recordCount e' = recordCount aliceEntry
    /\ (hasFreeSlot e' = true
        <-> freeSpace e' < 0
            \/ computeRecordSize people + sizeof_SlotDirectoryEntry
               <= freeSpace e').
Proof.
  apply (updatePageStatistics_hint aliceMgmt aliceDebited people 0 (-20) true
           aliceEntry).
  - by vm_compute.
  - by vm_compute.
  - closed.
  - closed.
Defined.


Lemma deleteRecord_hides_witness :
  (exists db'', getRecord aliceDeleted {| page := 0; slot := 0 |} alicia
                = Some (RC_RM_RECORD_NOT_FOUND, db'', alicia))
  /\ (exists db'', deleteRecord aliceDeleted {| page := 0; slot := 0 |}
                   = Some (RC_RM_RECORD_NOT_FOUND, db''))
  /\ (id alicia = {| page := 0; slot := 0 |} ->
      exists db'', updateRecord aliceDeleted alicia
                   = Some (RC_RM_RECORD_NOT_FOUND, db'', alicia)).
Proof.
  apply (deleteRecord_hides aliceTable aliceDeleted {| page := 0; slot := 0 |}
           aliceMgmt alicia).
  - by vm_compute.
  - by vm_compute.
Defined.

Lemma deleteRecord_writes_marker_witness :
  exists m' o,
    managementData (rel aliceDeleted) = Ptr m'
    /\ slot_offset
         (peekPage (bm aliceMgmt) (file aliceTable)
            (recordPageNum aliceMgmt (page {| page := 0; slot := 0 |})))
         (slot {| page := 0; slot := 0 |}) = Some o
    /\ load (peekPage (bm m') (file aliceDeleted)
               (recordPageNum m' (page {| page := 0; slot := 0 |}))) o 1
       = Some [DELETED_RECORD_MARKER].
Proof.
  apply (deleteRecord_writes_marker aliceTable aliceDeleted
           {| page := 0; slot := 0 |} aliceMgmt).
  - by vm_compute.
  - by vm_compute.
Defined.

Lemma deleteRecord_credits_recordSize_witness :
  exists e,
    dir_get (pageDirectory aliceMgmt) (page {| page := 0; slot := 0 |})
    = Some e
    /\ dir_get (pageDirectory (mgmtOf aliceDeleted))
         (page {| page := 0; slot := 0 |})
       = Some {| pageID := pageID e;
                 hasFreeSlot :=
                   freeSlotHint people (freeSpace e + computeRecordSize people);
                 freeSpace := freeSpace e + computeRecordSize people;
                 recordCount := recordCount e |}
    /\ forall p, p <> page {| page := 0; slot := 0 |} ->
         dir_get (pageDirectory (mgmtOf aliceDeleted)) p
         = dir_get (pageDirectory aliceMgmt) p.
Proof.
  apply (deleteRecord_credits_recordSize aliceTable aliceDeleted
           {| page := 0; slot := 0 |} aliceMgmt (mgmtOf aliceDeleted) people).
  - by vm_compute.
  - by vm_compute.
  - by vm_compute.
  - by vm_compute.
Defined.

Lemma deleteRecord_keeps_getNumTuples_witness :
  getNumTuples aliceDeleted = Some 1.
Proof.
  apply (deleteRecord_keeps_getNumTuples aliceTable aliceDeleted
           {| page := 0; slot := 0 |} RC_OK aliceMgmt 1).
  - by vm_compute.
  - by vm_compute.
  - by vm_compute.
Defined.

Lemma updateRecord_then_getRecord_witness :
  snd aliceUpdated = alicia
  /\ exists db'',
       getRecord (snd (fst aliceUpdated)) (id alicia) emptyRecord
       = Some (RC_OK, db'',
               {| id := id alicia;
                  data := load (person 1 "alicia") 0
                            (computeRecordSize people) |}).
Proof.
  apply (updateRecord_then_getRecord aliceTable (snd (fst aliceUpdated))
           alicia (snd aliceUpdated) aliceMgmt people (person 1 "alicia")
           aliceEntry 4084).
  - by vm_compute.
  - by vm_compute.
  - reflexivity.
  - by vm_compute.
  - by vm_compute.
  - by vm_compute.
  - by vm_compute.
  - by vm_compute.
Defined.

Lemma invalid_rid_leaves_table_alone_witness :
  getRecord aliceTable (id emptyRecord) emptyRecord
  = Some (RC_RM_INVALID_RID, aliceTable, emptyRecord)
  /\ deleteRecord aliceTable (id emptyRecord)
     = Some (RC_RM_INVALID_RID, aliceTable)
  /\ updateRecord aliceTable emptyRecord
     = Some (RC_RM_INVALID_RID, aliceTable, emptyRecord).
Proof.
  apply (invalid_rid_leaves_table_alone aliceTable aliceMgmt emptyRecord).
  - by vm_compute.
  - left. by vm_compute.
Defined.

Lemma setAttr_keeps_other_attributes_witness :
  getAttr aliceNamed people 0 = getAttr (newRecord (zeros 12)) people 0.
Proof.
  apply (setAttr_keeps_other_attributes (newRecord (zeros 12)) aliceNamed
           people 1 0 aliceName).
  - closed.
  - closed.
  - by vm_compute.
  - by vm_compute.
Defined.

Lemma createRecord_reads_zero_witness :
  getAttr (snd (createRecord people)) people 1
  = Some (RC_OK,
          Some (zeroValue (dataTypes_at people (Z.to_nat 1))
                  (typeLength_at people (Z.to_nat 1)))).
Proof. apply (createRecord_reads_zero people 1); closed. Defined.

Lemma next_advances_cursor_witness :
  cursor_le 0 0 (id (snd aliceNext))
  /\ mgmtData (snd (fst aliceNext))
     = Ptr {| condition := None;
              currentPage := page (id (snd aliceNext));
              currentSlot := slot (id (snd aliceNext)) + 1 |}.
Proof.
  apply (next_advances_cursor unit evalTrue aliceTable
           (snd (fst (fst aliceNext))) aliceScan (snd (fst aliceNext))
           {| condition := None; currentPage := 0; currentSlot := 0 |}
           emptyRecord (snd aliceNext)).
  - reflexivity.
  - by vm_compute.
Defined.

Lemma next_predicate_holds_witness :
  evalTrue (snd aliceCondNext) people (Some tt) = Some (BoolV true).
Proof.
  apply (next_predicate_holds unit evalTrue aliceTable
           (snd (fst (fst aliceCondNext))) aliceCondScan
           (snd (fst aliceCondNext))
           {| condition := Some tt; currentPage := 0; currentSlot := 0 |}
           tt people emptyRecord (snd aliceCondNext)).
  - reflexivity.
  - reflexivity.
  - by vm_compute.
  - by vm_compute.
Defined.

Lemma scanAll_no_duplicates_witness :
  StronglySorted rid_lt (fst aliceScanned) /\ NoDup (fst aliceScanned).
Proof.
  apply (scanAll_no_duplicates unit evalTrue 10 aliceTable aliceScan
           {| condition := None; currentPage := 0; currentSlot := 0 |}
           emptyRecord (fst aliceScanned) (snd aliceScanned)).
  - reflexivity.
  - by vm_compute.
Defined.

Lemma next_stays_exhausted_witness :
  next evalTrue (snd (fst (fst aliceEnd))) (snd (fst aliceEnd)) emptyRecord
  = Some (RC_RM_NO_MORE_TUPLES, snd (fst (fst aliceEnd)), snd (fst aliceEnd),
          emptyRecord).
Proof.
  apply (next_stays_exhausted unit evalTrue (snd (fst (fst aliceNext)))
           (snd (fst (fst aliceEnd))) (snd (fst aliceNext))
           (snd (fst aliceEnd))
           {| condition := None; currentPage := 0; currentSlot := 1 |}
           (mgmtOf (snd (fst (fst aliceNext)))) emptyRecord (snd aliceEnd)
           emptyRecord).
  - by vm_compute.
  - by vm_compute.
  - by vm_compute.
Defined.

Lemma scanPageNum_recordPageNum_witness :
  scanPageNum 0 = recordPageNum aliceMgmt 0 <-> numPageDP aliceMgmt = 1.
Proof. apply (scanPageNum_recordPageNum aliceMgmt 0). closed. Defined.
